(** * apple-doc-mcp: session state, persistent cache, retrying transport
      and local symbol index, embedded from the TypeScript sources.

    Conventions of the embedding.
    - A JavaScript string is a [string] of 8-bit code units; case mapping
      and the whitespace class are the ASCII ones.
    - [undefined] is [None]; a thrown error / rejected promise is [Throw].
    - A JavaScript [Map] or [Set] that is iterated is an insertion-ordered
      list; one that is only looked up is a [gmap] or [gset].
    - A parsed JSON document is a [json] tree; an object is the list of its
      own properties in property order. *)

From Stdlib Require Import ZArith Lia List Ascii String Bool.
From Stdlib Require Import Sorting.Permutation Sorting.Sorted.
From Stdlib Require Import Decimal DecimalString DecimalZ DecimalPos.
From Equations Require Import Equations.
From stdpp Require Import base option gmap strings list.
Import ListNotations.

Set Warnings "-register-all".
Open Scope string_scope.
Open Scope list_scope.
Open Scope Z_scope.

(** ** JavaScript string primitives *)

Module Js.

Definition isUpper (c : ascii) : bool :=
  ((65 <=? nat_of_ascii c) && (nat_of_ascii c <=? 90))%nat.

Definition lowerChar (c : ascii) : ascii :=
  if isUpper c then ascii_of_nat (nat_of_ascii c + 32) else c.

(** [String.prototype.toLowerCase]. *)
Fixpoint toLowerCase (s : string) : string :=
  match s with
  | EmptyString => EmptyString
  | String c s' => String (lowerChar c) (toLowerCase s')
  end.

(** [String.prototype.startsWith]. *)
Fixpoint startsWith (s p : string) : bool :=
  match p, s with
  | EmptyString, _ => true
  | String _ _, EmptyString => false
  | String a p', String b s' => Ascii.eqb a b && startsWith s' p'
  end.

(** [String.prototype.includes]. *)
Fixpoint includes (s needle : string) : bool :=
  startsWith s needle ||
  match s with
  | EmptyString => false
  | String _ s' => includes s' needle
  end.

(** [String.prototype.endsWith]. *)
Fixpoint endsWith (s p : string) : bool :=
  String.eqb s p ||
  match s with
  | EmptyString => false
  | String _ s' => endsWith s' p
  end.

(** [String.prototype.replaceAll] with a string pattern: the matches are
    found left to right and do not overlap.  [skip] counts the code units of
    the current match that are still to be dropped. *)
Fixpoint replaceAll_from (needle repl : string) (skip : nat) (s : string) : string :=
  match s with
  | EmptyString => EmptyString
  | String c s' =>
      match skip with
      | S k => replaceAll_from needle repl k s'
      | O =>
          if startsWith s needle
          then repl +:+ replaceAll_from needle repl (Nat.pred (String.length needle)) s'
          else String c (replaceAll_from needle repl 0 s')
      end
  end.

Definition replaceAll (s needle repl : string) : string :=
  replaceAll_from needle repl 0 s.

(** [/\s/] on the ASCII range: TAB, LF, VT, FF, CR and space. *)
Definition isSpace (c : ascii) : bool :=
  let n := nat_of_ascii c in
  ((9 <=? n) && (n <=? 13) || (n =? 32))%nat.

(** [String.prototype.trim]. *)
Fixpoint trimStart (s : string) : string :=
  match s with
  | String c s' => if isSpace c then trimStart s' else s
  | EmptyString => EmptyString
  end.

Fixpoint trimEnd (s : string) : string :=
  match s with
  | EmptyString => EmptyString
  | String c s' =>
      match trimEnd s' with
      | EmptyString => if isSpace c then EmptyString else String c EmptyString
      | t => String c t
      end
  end.

Definition trim (s : string) : string := trimEnd (trimStart s).

(** [s.split(re).filter(Boolean)] for a pattern [re] that is one or more
    characters of the class [delim]: the maximal runs of non-delimiters.
    [cur] is the piece being read, in reverse. *)
Fixpoint splitOn (delim : ascii -> bool) (cur : string) (s : string) : list string :=
  match s with
  | EmptyString => match cur with EmptyString => [] | _ => [cur] end
  | String c s' =>
      if delim c
      then match cur with
           | EmptyString => splitOn delim EmptyString s'
           | _ => cur :: splitOn delim EmptyString s'
           end
      else splitOn delim (cur +:+ String c EmptyString) s'
  end.

(** [s.split(/(?=[A-Z])/).filter(Boolean)]: cut before every upper-case
    letter that is not the first character. *)
Fixpoint splitBeforeUpper (cur : string) (s : string) : list string :=
  match s with
  | EmptyString => match cur with EmptyString => [] | _ => [cur] end
  | String c s' =>
      if isUpper c
      then match cur with
           | EmptyString => splitBeforeUpper (String c EmptyString) s'
           | _ => cur :: splitBeforeUpper (String c EmptyString) s'
           end
      else splitBeforeUpper (cur +:+ String c EmptyString) s'
  end.

(** [parts.join('')]. *)
Definition join (parts : list string) : string :=
  fold_right String.append EmptyString parts.

(** [Array.prototype.includes] on strings. *)
Definition arrayIncludes (l : list string) (x : string) : bool :=
  existsb (String.eqb x) l.

(** [Set.prototype.add] on an insertion-ordered set of strings. *)
Definition setAdd (set : list string) (x : string) : list string :=
  if arrayIncludes set x then set else set ++ [x].

(** [||] on strings: the left operand unless it is empty. *)
Definition orElse (a b : string) : string :=
  match a with EmptyString => b | _ => a end.

Definition nonEmpty (s : string) : bool :=
  match s with EmptyString => false | _ => true end.

End Js.

(** ** JSON documents *)

Inductive json : Type :=
| JNull
| JBool (b : bool)
| JNum (n : Z)
| JStr (s : string)
| JArr (items : list json)
| JObj (props : list (string * json)).

Module Json.

(** Property read [o.k]: [None] is [undefined]. *)
Fixpoint lookup (k : string) (props : list (string * json)) : option json :=
  match props with
  | [] => None
  | (k', v) :: rest => if String.eqb k k' then Some v else lookup k rest
  end.

Definition get (k : string) (j : json) : option json :=
  match j with
  | JObj props => lookup k props
  | _ => None
  end.

(** [typeof v === 'string'], returning the string. *)
Definition asString (v : option json) : option string :=
  match v with Some (JStr s) => Some s | _ => None end.

Definition getString (k : string) (j : json) : option string := asString (get k j).

(** JavaScript truthiness of a JSON value. *)
Definition truthy (j : json) : bool :=
  match j with
  | JNull => false
  | JBool b => b
  | JNum n => negb (n =? 0)
  | JStr s => Js.nonEmpty s
  | JArr _ | JObj _ => true
  end.

End Json.

(** ** [JSON.stringify(value, null, 2)] and [JSON.parse]

    The two built-ins of the runtime, on the [json] trees of this model:
    numbers are integers, and a string escape [\uXXXX] must denote a code
    unit below 256.  [JSON_parse] returns [None] where the built-in throws
    a [SyntaxError]. *)

Module JsonText.

Definition DQ : ascii := "034"%char.
Definition BSL : ascii := "092"%char.
Definition NL : ascii := "010"%char.

Definition str1 (c : ascii) : string := String c EmptyString.

Definition hexChar (n : nat) : ascii :=
  if (n <? 10)%nat then ascii_of_nat (48 + n) else ascii_of_nat (87 + n).

(** QuoteJSONString, one code unit. *)
Definition quoteChar (c : ascii) : string :=
  let n := nat_of_ascii c in
  if (n =? 34)%nat then String BSL (str1 DQ)
  else if (n =? 92)%nat then String BSL (str1 BSL)
  else if (n =? 8)%nat then String BSL "b"
  else if (n =? 12)%nat then String BSL "f"
  else if (n =? 10)%nat then String BSL "n"
  else if (n =? 13)%nat then String BSL "r"
  else if (n =? 9)%nat then String BSL "t"
  else if (n <? 32)%nat
       then String BSL ("u00" +:+ String (hexChar (n / 16)) (str1 (hexChar (n mod 16))))
       else str1 c.

Fixpoint quoteBody (s : string) : string :=
  match s with
  | EmptyString => EmptyString
  | String c s' => quoteChar c +:+ quoteBody s'
  end.

Definition quote (s : string) : string :=
  String DQ (quoteBody s +:+ str1 DQ).

Definition numberToString (n : Z) : string :=
  DecimalString.NilZero.string_of_int (Z.to_int n).

Fixpoint indent (level : nat) : string :=
  match level with
  | O => EmptyString
  | S k => "  " +:+ indent k
  end.

Definition newline (level : nat) : string := String NL (indent level).

(** SerializeJSONProperty with a gap of two spaces; [level] is the current
    nesting depth. *)
Fixpoint stringifyAt (level : nat) (j : json) : string :=
  match j with
  | JNull => "null"
  | JBool true => "true"
  | JBool false => "false"
  | JNum n => numberToString n
  | JStr s => quote s
  | JArr [] => "[]"
  | JArr (x :: xs) =>
      "[" +:+ newline (S level) +:+ stringifyAt (S level) x
      +:+ Js.join (map (fun y => "," +:+ newline (S level) +:+ stringifyAt (S level) y) xs)
      +:+ newline level +:+ "]"
  | JObj [] => "{}"
  | JObj ((k, x) :: ps) =>
      "{" +:+ newline (S level) +:+ quote k +:+ ": " +:+ stringifyAt (S level) x
      +:+ Js.join (map (fun kv => "," +:+ newline (S level) +:+ quote (fst kv) +:+ ": "
                                 +:+ stringifyAt (S level) (snd kv)) ps)
      +:+ newline level +:+ "}"
  end.

Definition JSON_stringify (j : json) : string := stringifyAt 0 j.

(** *** The JSON lexical grammar, as a machine that reads one code unit at
    a time *)

Inductive token : Type :=
| TLBrace | TRBrace | TLBracket | TRBracket | TColon | TComma
| TNull | TTrue | TFalse
| TNum (n : Z)
| TStr (s : string).

Inductive mode : Type :=
| Idle
| InStr (acc : string)
| InEsc (acc : string)
| InHex (acc : string) (digits : list nat)
| InNum (lexeme : string)
| InWord (lexeme : string).

Definition isDigit (c : ascii) : bool :=
  ((48 <=? nat_of_ascii c) && (nat_of_ascii c <=? 57))%nat.

Definition isLetter (c : ascii) : bool :=
  ((97 <=? nat_of_ascii c) && (nat_of_ascii c <=? 122))%nat.

(** JSON white space: TAB, LF, CR and space. *)
Definition isWs (c : ascii) : bool :=
  let n := nat_of_ascii c in
  ((n =? 9) || (n =? 10) || (n =? 13) || (n =? 32))%nat.

Definition hexValue (c : ascii) : option nat :=
  let n := nat_of_ascii c in
  if ((48 <=? n) && (n <=? 57))%nat then Some (n - 48)%nat
  else if ((97 <=? n) && (n <=? 102))%nat then Some (n - 87)%nat
  else if ((65 <=? n) && (n <=? 70))%nat then Some (n - 55)%nat
  else None.

Definition snoc (s : string) (c : ascii) : string := s +:+ str1 c.

(** An integer literal in its canonical form (no leading zeros). *)
Definition numberOfLexeme (lexeme : string) : option Z :=
  match DecimalString.NilZero.int_of_string lexeme with
  | Some d =>
      let n := Z.of_int d in
      if String.eqb (numberToString n) lexeme then Some n else None
  | None => None
  end.

Definition wordToken (lexeme : string) : option token :=
  if String.eqb lexeme "null" then Some TNull
  else if String.eqb lexeme "true" then Some TTrue
  else if String.eqb lexeme "false" then Some TFalse
  else None.

Definition LexState : Type := mode * list token.

Definition stepIdle (toks : list token) (c : ascii) : option LexState :=
  let n := nat_of_ascii c in
  if isWs c then Some (Idle, toks)
  else if (n =? 123)%nat then Some (Idle, toks ++ [TLBrace])
  else if (n =? 125)%nat then Some (Idle, toks ++ [TRBrace])
  else if (n =? 91)%nat then Some (Idle, toks ++ [TLBracket])
  else if (n =? 93)%nat then Some (Idle, toks ++ [TRBracket])
  else if (n =? 58)%nat then Some (Idle, toks ++ [TColon])
  else if (n =? 44)%nat then Some (Idle, toks ++ [TComma])
  else if (n =? 34)%nat then Some (InStr EmptyString, toks)
  else if isDigit c || (n =? 45)%nat then Some (InNum (str1 c), toks)
  else if isLetter c then Some (InWord (str1 c), toks)
  else None.

Definition unescape (c : ascii) : option ascii :=
  let n := nat_of_ascii c in
  if (n =? 34)%nat then Some DQ
  else if (n =? 92)%nat then Some BSL
  else if (n =? 47)%nat then Some "/"%char
  else if (n =? 98)%nat then Some "008"%char
  else if (n =? 102)%nat then Some "012"%char
  else if (n =? 110)%nat then Some NL
  else if (n =? 114)%nat then Some "013"%char
  else if (n =? 116)%nat then Some "009"%char
  else None.

Definition hexCode (digits : list nat) : nat :=
  fold_left (fun acc d => (16 * acc + d)%nat) digits 0%nat.

Definition step (st : LexState) (c : ascii) : option LexState :=
  let '(m, toks) := st in
  match m with
  | Idle => stepIdle toks c
  | InStr acc =>
      if (nat_of_ascii c =? 34)%nat then Some (Idle, toks ++ [TStr acc])
      else if (nat_of_ascii c =? 92)%nat then Some (InEsc acc, toks)
      else if (nat_of_ascii c <? 32)%nat then None
      else Some (InStr (snoc acc c), toks)
  | InEsc acc =>
      if (nat_of_ascii c =? 117)%nat then Some (InHex acc [], toks)
      else match unescape c with
           | Some c' => Some (InStr (snoc acc c'), toks)
           | None => None
           end
  | InHex acc digits =>
      match hexValue c with
      | Some d =>
          let digits' := digits ++ [d] in
          if (length digits' <? 4)%nat then Some (InHex acc digits', toks)
          else if (hexCode digits' <? 256)%nat
               then Some (InStr (snoc acc (ascii_of_nat (hexCode digits'))), toks)
               else None
      | None => None
      end
  | InNum lexeme =>
      if isDigit c then Some (InNum (snoc lexeme c), toks)
      else match numberOfLexeme lexeme with
           | Some n => stepIdle (toks ++ [TNum n]) c
           | None => None
           end
  | InWord lexeme =>
      if isLetter c then Some (InWord (snoc lexeme c), toks)
      else match wordToken lexeme with
           | Some t => stepIdle (toks ++ [t]) c
           | None => None
           end
  end.

Fixpoint run (s : string) (st : LexState) : option LexState :=
  match s with
  | EmptyString => Some st
  | String c s' =>
      match step st c with
      | Some st' => run s' st'
      | None => None
      end
  end.

(** End of input: a pending number or word is completed. *)
Definition finish (st : LexState) : option (list token) :=
  let '(m, toks) := st in
  match m with
  | Idle => Some toks
  | InNum lexeme =>
      match numberOfLexeme lexeme with
      | Some n => Some (toks ++ [TNum n])
      | None => None
      end
  | InWord lexeme =>
      match wordToken lexeme with
      | Some t => Some (toks ++ [t])
      | None => None
      end
  | _ => None
  end.

Definition lex (s : string) : option (list token) :=
  match run s (Idle, []) with
  | Some st => finish st
  | None => None
  end.

(** *** The JSON syntactic grammar, by recursive descent on the tokens *)

Fixpoint parseValue (fuel : nat) (ts : list token) : option (json * list token) :=
  match fuel with
  | O => None
  | S f =>
      match ts with
      | TNull :: r => Some (JNull, r)
      | TTrue :: r => Some (JBool true, r)
      | TFalse :: r => Some (JBool false, r)
      | TNum n :: r => Some (JNum n, r)
      | TStr s :: r => Some (JStr s, r)
      | TLBracket :: TRBracket :: r => Some (JArr [], r)
      | TLBracket :: r =>
          match parseElements f r with
          | Some (l, r') => Some (JArr l, r')
          | None => None
          end
      | TLBrace :: TRBrace :: r => Some (JObj [], r)
      | TLBrace :: r =>
          match parseMembers f r with
          | Some (l, r') => Some (JObj l, r')
          | None => None
          end
      | _ => None
      end
  end
with parseElements (fuel : nat) (ts : list token) : option (list json * list token) :=
  match fuel with
  | O => None
  | S f =>
      match parseValue f ts with
      | Some (v, TComma :: r) =>
          match parseElements f r with
          | Some (l, r') => Some (v :: l, r')
          | None => None
          end
      | Some (v, TRBracket :: r) => Some ([v], r)
      | _ => None
      end
  end
with parseMembers (fuel : nat) (ts : list token)
  : option (list (string * json) * list token) :=
  match fuel with
  | O => None
  | S f =>
      match ts with
      | TStr k :: TColon :: r =>
          match parseValue f r with
          | Some (v, TComma :: r') =>
              match parseMembers f r' with
              | Some (l, r'') => Some ((k, v) :: l, r'')
              | None => None
              end
          | Some (v, TRBrace :: r') => Some ([(k, v)], r')
          | _ => None
          end
      | _ => None
      end
  end.

(** [JSON.parse]; [None] is the [SyntaxError]. *)
Definition JSON_parse (s : string) : option json :=
  match lex s with
  | Some ts =>
      match parseValue (S (length ts)) ts with
      | Some (v, []) => Some v
      | _ => None
      end
  | None => None
  end.

End JsonText.

(** ** Thrown values and effectful code *)

(** The values the modelled code throws or rejects with. *)
Inductive Thrown : Type :=
| ErrnoException (code : string)
| SyntaxError
| AxiosError (code : option string) (status : option Z)
| PlainError (message : string)
| FetchError (cause : Thrown)
| McpError (message : string).

Inductive Result (A : Type) : Type :=
| Ok (a : A)
| Throw (e : Thrown).
Arguments Ok {A} a.
Arguments Throw {A} e.

(** An [async] function over a mutable world [W]: it returns or throws, and
    leaves a world behind either way. *)
Definition Eff (W A : Type) : Type := W -> Result A * W.

Module Eff.

Definition ret {W A} (a : A) : Eff W A := fun w => (Ok a, w).

Definition throw {W A} (e : Thrown) : Eff W A := fun w => (Throw e, w).

Definition bind {W A B} (m : Eff W A) (k : A -> Eff W B) : Eff W B :=
  fun w =>
    match m w with
    | (Ok a, w') => k a w'
    | (Throw e, w') => (Throw e, w')
    end.

(** [try { m } catch (error) { handler(error) }]. *)
Definition tryCatch {W A} (m : Eff W A) (handler : Thrown -> Eff W A) : Eff W A :=
  fun w =>
    match m w with
    | (Ok a, w') => (Ok a, w')
    | (Throw e, w') => handler e w'
    end.

(** Running a computation on one half of a product world. *)
Definition onFst {W1 W2 A} (m : Eff W1 A) : Eff (W1 * W2) A :=
  fun w => let '(r, w1) := m (fst w) in (r, (w1, snd w)).

Definition onSnd {W1 W2 A} (m : Eff W2 A) : Eff (W1 * W2) A :=
  fun w => let '(r, w2) := m (snd w) in (r, (fst w, w2)).

End Eff.

Notation "x <~ m ;; k" := (Eff.bind m (fun x => k))
  (at level 100, m at next level, right associativity).
Notation "m ;;; k" := (Eff.bind m (fun _ => k))
  (at level 100, right associativity).

(** ** Zod schemas ([schemas.ts])

    Every object schema is [.passthrough()]: a value that validates is
    returned with all of its properties, known or not. *)

Module Schema.

Definition Schema : Type := json -> bool.

Definition zString : Schema := fun v => match v with JStr _ => true | _ => false end.
Definition zBoolean : Schema := fun v => match v with JBool _ => true | _ => false end.

Definition zArray (item : Schema) : Schema :=
  fun v => match v with JArr l => forallb item l | _ => false end.

Definition zRecord (value : Schema) : Schema :=
  fun v => match v with JObj ps => forallb (fun kv => value (snd kv)) ps | _ => false end.

(** One entry of an object shape. *)
Definition Field : Type := list (string * json) -> bool.

Definition required (k : string) (s : Schema) : Field :=
  fun ps => match Json.lookup k ps with Some v => s v | None => false end.

Definition optional (k : string) (s : Schema) : Field :=
  fun ps => match Json.lookup k ps with Some v => s v | None => true end.

Definition zObject (shape : list Field) : Schema :=
  fun v => match v with JObj ps => forallb (fun f => f ps) shape | _ => false end.

Definition PlatformInfoSchema : Schema :=
  zObject [required "name" zString; optional "introducedAt" zString;
           optional "beta" zBoolean; optional "deprecated" zBoolean;
           optional "unavailable" zBoolean].

Definition PrimaryContentSectionSchema : Schema :=
  zObject [required "kind" zString].

Definition FragmentSchema : Schema :=
  zObject [required "kind" zString; required "text" zString;
           optional "preciseIdentifier" zString].

Definition AbstractItemSchema : Schema :=
  zObject [optional "text" zString; required "type" zString].

Definition TopicSectionSchema : Schema :=
  zObject [optional "anchor" zString; required "identifiers" (zArray zString);
           required "title" zString].

Definition ReferenceDataSchema : Schema :=
  zObject [optional "type" zString; optional "identifier" zString;
           optional "title" zString; optional "kind" zString;
           optional "abstract" (zArray AbstractItemSchema);
           optional "platforms" (zArray PlatformInfoSchema);
           optional "url" zString].

Definition FrameworkDataSchema : Schema :=
  zObject [optional "abstract" (zArray AbstractItemSchema);
           required "metadata"
             (zObject [optional "platforms" (zArray PlatformInfoSchema);
                       optional "role" zString; required "title" zString]);
           optional "references" (zRecord ReferenceDataSchema);
           optional "topicSections" (zArray TopicSectionSchema)].

Definition SymbolDataSchema : Schema :=
  zObject [optional "abstract" (zArray AbstractItemSchema);
           required "metadata"
             (zObject [optional "platforms" (zArray PlatformInfoSchema);
                       optional "symbolKind" zString; required "title" zString;
                       optional "roleHeading" zString;
                       optional "fragments" (zArray FragmentSchema)]);
           optional "primaryContentSections" (zArray PrimaryContentSectionSchema);
           optional "references" (zRecord ReferenceDataSchema);
           optional "topicSections" (zArray TopicSectionSchema)].

(** [schema.safeParse(v)]: [Some data] on success. *)
Definition safeParse (s : Schema) (v : json) : option json :=
  if s v then Some v else None.

End Schema.

(** ** The cache directory on disk ([node:fs]) *)

(** The cache directory exists, or it does not and creating it either
    works or fails with an error code. *)
Inductive DirStatus : Type :=
| DirPresent
| DirMissing (mkdirFault : option string).

Inductive FileNode : Type :=
| FileText (content : string)
| FileFault (code : string).

(** The cache directory: its status, what reading each of its entries
    gives (text, or an error code other than a missing file), and the
    error code every write meets, if any. *)
Record FileSystem : Type := mkFileSystem {
  dirStatus : DirStatus;
  files : gmap string FileNode;
  writeFault : option string
}.

Module Fs.

Definition ENOENT : Thrown := ErrnoException "ENOENT".

(** [fs.mkdir(dir, {recursive: true})]. *)
Definition mkdir : Eff FileSystem unit :=
  fun fs =>
    match dirStatus fs with
    | DirPresent => (Ok tt, fs)
    | DirMissing None => (Ok tt, mkFileSystem DirPresent ∅ (writeFault fs))
    | DirMissing (Some code) => (Throw (ErrnoException code), fs)
    end.

(** [access(dir)]. *)
Definition access : Eff FileSystem unit :=
  fun fs =>
    match dirStatus fs with
    | DirPresent => (Ok tt, fs)
    | DirMissing _ => (Throw ENOENT, fs)
    end.

(** [readdir(dir)]. *)
Definition readdir : Eff FileSystem (list string) :=
  fun fs =>
    match dirStatus fs with
    | DirPresent => (Ok (map fst (map_to_list (files fs))), fs)
    | DirMissing _ => (Throw ENOENT, fs)
    end.

(** [fs.readFile(join(dir, name), 'utf8')]. *)
Definition readFile (name : string) : Eff FileSystem string :=
  fun fs =>
    match dirStatus fs with
    | DirPresent =>
        match files fs !! name with
        | Some (FileText content) => (Ok content, fs)
        | Some (FileFault code) => (Throw (ErrnoException code), fs)
        | None => (Throw ENOENT, fs)
        end
    | DirMissing _ => (Throw ENOENT, fs)
    end.

(** [fs.writeFile(join(dir, name), content)]. *)
Definition writeFile (name content : string) : Eff FileSystem unit :=
  fun fs =>
    match dirStatus fs with
    | DirPresent =>
        match writeFault fs with
        | Some code => (Throw (ErrnoException code), fs)
        | None =>
            (Ok tt,
             mkFileSystem DirPresent (<[name := FileText content]> (files fs)) (writeFault fs))
        end
    | DirMissing _ => (Throw ENOENT, fs)
    end.

End Fs.

(** ** The persistent cache store ([file-cache.ts]) *)

Module FileCache.

Import JsonText Schema.

(** [\w] or a hyphen. *)
Definition isWordOrHyphen (c : ascii) : bool :=
  let n := nat_of_ascii c in
  ((48 <=? n) && (n <=? 57) || (65 <=? n) && (n <=? 90)
   || (97 <=? n) && (n <=? 122) || (n =? 95) || (n =? 45))%nat.

(** [s.replaceAll(/[^\w-]/gi, '_')]. *)
Fixpoint replaceUnsafe (s : string) : string :=
  match s with
  | EmptyString => EmptyString
  | String c s' => String (if isWordOrHyphen c then c else "_"%char) (replaceUnsafe s')
  end.

Definition sanitizeFrameworkName (name : string) : string := replaceUnsafe name.

(** [getCachePath], relative to the cache directory. *)
Definition getCachePath (frameworkName : string) : string :=
  sanitizeFrameworkName frameworkName +:+ ".json".

(** [s.slice(0, n)]. *)
Definition sliceTo (n : nat) (s : string) : string := String.substring 0 n s.

Section WithDigest.

(** [createHash('sha256').update(path).digest('hex')] of [node:crypto]. *)
Variable sha256hex : string -> string.

Definition sanitizeSymbolPath (path : string) : string :=
  let hash := sliceTo 16 (sha256hex path) in
  let segments := Js.splitOn (Ascii.eqb "/"%char) EmptyString path in
  let lastSegment := List.last segments "symbol" in
  let prefix := sliceTo 32 (replaceUnsafe lastSegment) in
  prefix +:+ "_" +:+ hash.

Definition symbolFile (path : string) : string :=
  sanitizeSymbolPath path +:+ ".json".

Definition ensureCacheDir : Eff FileSystem unit := Fs.mkdir.

(** [JSON.parse(raw)] as a statement that may throw. *)
Definition parseJson {W} (raw : string) : Eff W json :=
  match JSON_parse raw with
  | Some v => Eff.ret v
  | None => Eff.throw SyntaxError
  end.

(** The [catch] block shared by [loadFramework] and [loadSymbol]. *)
Definition onLoadError (error : Thrown) : Eff FileSystem (option json) :=
  match error with
  | ErrnoException code =>
      if String.eqb code "ENOENT" then Eff.ret None else Eff.throw error
  | SyntaxError => Eff.ret None
  | _ => Eff.throw error
  end.

Definition loadFramework (frameworkName : string) : Eff FileSystem (option json) :=
  ensureCacheDir ;;;
  Eff.tryCatch
    (raw <~ Fs.readFile (getCachePath frameworkName) ;;
     parsed <~ parseJson raw ;;
     match safeParse FrameworkDataSchema parsed with
     | None => Eff.ret None
     | Some data => Eff.ret (Some data)
     end)
    onLoadError.

Definition saveFramework (frameworkName : string) (data : json) : Eff FileSystem unit :=
  ensureCacheDir ;;;
  Fs.writeFile (getCachePath frameworkName) (JSON_stringify data).

Definition loadSymbol (path : string) : Eff FileSystem (option json) :=
  Eff.tryCatch
    (raw <~ Fs.readFile (symbolFile path) ;;
     parsed <~ parseJson raw ;;
     match safeParse SymbolDataSchema parsed with
     | None => Eff.ret None
     | Some data => Eff.ret (Some data)
     end)
    onLoadError.

Definition saveSymbol (path : string) (data : json) : Eff FileSystem unit :=
  ensureCacheDir ;;;
  Fs.writeFile (symbolFile path) (JSON_stringify data).

End WithDigest.

(** *** The list of technologies *)

(** [technologies.json], relative to the cache directory. *)
Definition technologiesCachePath : string := "technologies.json".

(** [Object.keys(v).length] for a value other than [null]. *)
Definition keyCount (v : json) : nat :=
  match v with
  | JObj props => length props
  | JArr items => length items
  | JStr s => String.length s
  | _ => 0%nat
  end.

(** [Object.values(v)[0]]. *)
Definition firstValue (v : json) : option json :=
  match v with
  | JObj ((_, x) :: _) => Some x
  | JArr (x :: _) => Some x
  | JStr (String c _) => Some (JStr (String c EmptyString))
  | _ => None
  end.

(** [k in v] for a value [v] with [typeof v === 'object']. *)
Definition hasKey (k : string) (v : json) : bool :=
  match v with
  | JObj props => bool_decide (is_Some (Json.lookup k props))
  | _ => false
  end.

(** [typeof v === 'object'] for a truthy [v]. *)
Definition isObject (v : json) : bool :=
  match v with JObj _ | JArr _ => true | _ => false end.

(** The two formats [loadTechnologies] accepts, tried in turn. *)
Definition readTechnologies (parsed : json) : option json :=
  if Json.truthy parsed && isObject parsed
  then
    let wrapped :=
      if hasKey "references" parsed
      then
        let refs :=
          match Json.get "references" parsed with
          | Some JNull | None => JObj []
          | Some refs => refs
          end in
        if (0 <? keyCount refs)%nat then Some refs else None
      else None in
    match wrapped with
    | Some refs => Some refs
    | None =>
        if (0 <? keyCount parsed)%nat
        then
          match firstValue parsed with
          | Some first =>
              if Json.truthy first && isObject first
                 && (hasKey "identifier" first || hasKey "title" first)
              then Some parsed
              else None
          | None => None
          end
        else None
    end
  else None.

Definition loadTechnologies : Eff FileSystem (option json) :=
  ensureCacheDir ;;;
  Eff.tryCatch
    (data <~ Fs.readFile technologiesCachePath ;;
     parsed <~ parseJson data ;;
     Eff.ret (readTechnologies parsed))
    (fun error =>
       match error with
       | ErrnoException code =>
           if String.eqb code "ENOENT" then Eff.ret None else Eff.throw error
       | _ => Eff.throw error
       end).

Definition saveTechnologies (technologies : json) : Eff FileSystem unit :=
  ensureCacheDir ;;;
  Fs.writeFile technologiesCachePath (JSON_stringify technologies).

End FileCache.

(** ** The tokenizer ([tokenizer.ts]) *)

Module Tokenizer.

(** The delimiter class of [/[\s/._-]+/]. *)
Definition isDelimiter (c : ascii) : bool :=
  let n := nat_of_ascii c in
  (Js.isSpace c || (n =? 47) || (n =? 46) || (n =? 95) || (n =? 45))%nat.

(** The body of the loop over [basicTokens]. *)
Definition addToken (tokens : list string) (token : string) : list string :=
  let tokens := Js.setAdd tokens (Js.toLowerCase token) in
  let tokens := Js.setAdd tokens token in
  let camelParts := Js.splitBeforeUpper EmptyString token in
  if (1 <? length camelParts)%nat
  then
    let tokens :=
      fold_left (fun acc part => Js.setAdd (Js.setAdd acc (Js.toLowerCase part)) part)
                camelParts tokens in
    Js.setAdd tokens (Js.toLowerCase (Js.join camelParts))
  else tokens.

Definition tokenize (text : string) : list string :=
  match text with
  | EmptyString => []
  | _ =>
      let basicTokens := Js.splitOn isDelimiter EmptyString text in
      fold_left addToken basicTokens []
  end.

Definition addAll (tokens : list string) (more : list string) : list string :=
  fold_left Js.setAdd more tokens.

Definition createSearchTokens (title abstract path : string) (platforms : list string)
  : list string :=
  let tokens := addAll [] (tokenize title) in
  let tokens := addAll tokens (tokenize abstract) in
  let tokens := addAll tokens (tokenize path) in
  fold_left (fun acc platform => addAll acc (tokenize platform)) platforms tokens.

End Tokenizer.

(** ** Regular expressions

    The [RegExp] objects that [search] can build: an anchored sequence of
    literal characters, [.] and starred atoms.  [compile] is the [RegExp]
    constructor on that fragment of the pattern syntax, with [None] for a
    [SyntaxError] (or a pattern outside the fragment), and [test] is
    [RegExp.prototype.test] without flags. *)

Module RegExp.

Inductive Atom : Type :=
| Lit (c : ascii)
| AnyChar.

Inductive Piece : Type :=
| One (a : Atom)
| Many (a : Atom).

Definition RegExp : Type := list Piece.

(** The syntax characters of the pattern grammar. *)
Definition isSyntaxChar (c : ascii) : bool :=
  existsb (Ascii.eqb c)
    ["^"; "$"; "\"; "."; "*"; "+"; "?"; "("; ")"; "["; "]"; "{"; "}"; "|"]%char.

Definition isAlphaNum (c : ascii) : bool :=
  let n := nat_of_ascii c in
  ((48 <=? n) && (n <=? 57) || (65 <=? n) && (n <=? 90) || (97 <=? n) && (n <=? 122))%nat.

(** The pattern after its opening [^], up to and including the closing [$]. *)
Fixpoint parsePieces (s : string) : option (list Piece) :=
  match s with
  | EmptyString => None
  | String c rest =>
      if Ascii.eqb c "\"%char then
        match rest with
        | String d rest' =>
            if isAlphaNum d then None
            else
              match rest' with
              | String q rest'' =>
                  if Ascii.eqb q "*"%char
                  then option_map (cons (Many (Lit d))) (parsePieces rest'')
                  else option_map (cons (One (Lit d))) (parsePieces rest')
              | EmptyString => option_map (cons (One (Lit d))) (parsePieces rest')
              end
        | EmptyString => None
        end
      else if Ascii.eqb c "$"%char then
        match rest with
        | EmptyString => Some []
        | _ => None
        end
      else if isSyntaxChar c && negb (Ascii.eqb c "."%char) then None
      else
        let a := if Ascii.eqb c "."%char then AnyChar else Lit c in
        match rest with
        | String q rest' =>
            if Ascii.eqb q "*"%char
            then option_map (cons (Many a)) (parsePieces rest')
            else option_map (cons (One a)) (parsePieces rest)
        | EmptyString => option_map (cons (One a)) (parsePieces rest)
        end
  end.

Definition compile (source : string) : option RegExp :=
  match source with
  | String "^"%char body => parsePieces body
  | _ => None
  end.

(** [.] matches any character but a line terminator. *)
Definition atomMatches (a : Atom) (c : ascii) : bool :=
  match a with
  | Lit d => Ascii.eqb c d
  | AnyChar => negb (Ascii.eqb c "010"%char || Ascii.eqb c "013"%char)
  end.

Fixpoint test (r : RegExp) (s : string) : bool :=
  match r with
  | [] => match s with EmptyString => true | _ => false end
  | One a :: r' =>
      match s with
      | String c s' => atomMatches a c && test r' s'
      | EmptyString => false
      end
  | Many a :: r' =>
      (fix star (s : string) : bool :=
         test r' s
         || match s with
            | String c s' => atomMatches a c && star s'
            | EmptyString => false
            end) s
  end.

End RegExp.

(** ** The local symbol index ([local-symbol-index.ts]) *)

Module Index.

Import JsonText Schema.

Record LocalSymbolIndexEntry : Type := mkEntry {
  id : string;
  title : string;
  path : string;
  kind : string;
  abstract : string;
  platforms : list string;
  tokens : list string;
  filePath : string
}.

Inductive IndexState : Type := Uninitialized | Building | Ready | Failed.

(** The [symbols] map keeps its keys in insertion order. *)
Definition SymbolMap : Type := list (string * LocalSymbolIndexEntry).

Record LocalSymbolIndex : Type := mkIndex {
  symbols : SymbolMap;
  cacheDir : string;
  technologyIdentifier : option string;
  state : IndexState
}.

(** [new LocalSymbolIndex(client, technologyIdentifier)]. *)
Definition create (dir : string) (technology : option string) : LocalSymbolIndex :=
  mkIndex [] dir technology Uninitialized.

(** [Map.prototype.set]: a known key keeps its place, a new key goes last. *)
Fixpoint mapSet (m : SymbolMap) (k : string) (v : LocalSymbolIndexEntry) : SymbolMap :=
  match m with
  | [] => [(k, v)]
  | (k', v') :: rest =>
      if String.eqb k k' then (k, v) :: rest else (k', v') :: mapSet rest k v
  end.

(** [Map.prototype.get]. *)
Fixpoint mapGet (m : SymbolMap) (k : string) : option LocalSymbolIndexEntry :=
  match m with
  | [] => None
  | (k', v') :: rest => if String.eqb k k' then Some v' else mapGet rest k
  end.

Definition setSymbol (index : LocalSymbolIndex) (k : string) (v : LocalSymbolIndexEntry)
  : LocalSymbolIndex :=
  mkIndex (mapSet (symbols index) k v) (cacheDir index) (technologyIdentifier index)
          (state index).

Definition setState (index : LocalSymbolIndex) (s : IndexState) : LocalSymbolIndex :=
  mkIndex (symbols index) (cacheDir index) (technologyIdentifier index) s.

(** [extractText] of [formatters.ts]: a missing [text] joins as the empty
    string. *)
Definition extractText (abstract : option json) : string :=
  match abstract with
  | Some (JArr items) =>
      Js.join (map (fun item => default EmptyString (Json.getString "text" item)) items)
  | _ => EmptyString
  end.

(** [platforms?.map(p => p.name).filter(Boolean)], empty when absent. *)
Definition platformNames (platforms : option json) : list string :=
  match platforms with
  | Some (JArr items) =>
      filter (fun name => Js.nonEmpty name = true)
             (map (fun p => default EmptyString (Json.getString "name" p)) items)
  | _ => []
  end.

(** The guard [this.technologyIdentifier && p] followed by the substring
    test: [true] when the entry is to be skipped. *)
Definition filteredOut (technology : option string) (p : string) : bool :=
  match technology with
  | Some t =>
      Js.nonEmpty t && Js.nonEmpty p
      && negb (Js.includes (Js.toLowerCase p) (Js.toLowerCase t))
  | None => false
  end.

(** The [refEntry] literal of [processReferences]. *)
Definition referenceEntry (refId : string) (ref : json) (file : string)
  : LocalSymbolIndexEntry :=
  let refTitle := default EmptyString (Json.getString "title" ref) in
  let refUrl := default EmptyString (Json.getString "url" ref) in
  let refKind := default EmptyString (Json.getString "kind" ref) in
  let refAbstract := extractText (Json.get "abstract" ref) in
  let refPlatforms := platformNames (Json.get "platforms" ref) in
  let refTokens := Tokenizer.createSearchTokens refTitle refAbstract refUrl refPlatforms in
  mkEntry refId refTitle refUrl refKind refAbstract refPlatforms refTokens file.

(** [ref.kind === 'symbol' && ref.title]. *)
Definition isSymbolReference (ref : json) : bool :=
  bool_decide (Json.getString "kind" ref = Some "symbol")
  && Js.nonEmpty (default EmptyString (Json.getString "title" ref)).

(** The body of the loop of [processReferences]. *)
Definition processReference (index : LocalSymbolIndex) (file : string)
    (reference : string * json) : LocalSymbolIndex :=
  let '(refId, ref) := reference in
  if isSymbolReference ref
  then
    if filteredOut (technologyIdentifier index)
                   (default EmptyString (Json.getString "url" ref))
    then index
    else setSymbol index refId (referenceEntry refId ref file)
  else index.

Definition processReferences (index : LocalSymbolIndex) (references : option json)
    (file : string) : LocalSymbolIndex :=
  match references with
  | Some (JObj entries) => fold_left (fun ix r => processReference ix file r) entries index
  | _ => index
  end.

Definition documentTitle (data : json) : string :=
  Js.orElse (default EmptyString (Json.get "metadata" data ≫= Json.getString "title"))
            "Unknown".

Definition documentPath (data : json) : string :=
  default EmptyString (Json.get "metadata" data ≫= Json.getString "url").

(** The [entry] literal of [processSymbolData]. *)
Definition documentEntry (data : json) (file : string) : LocalSymbolIndexEntry :=
  let metadata := Json.get "metadata" data in
  let title := documentTitle data in
  let path := documentPath data in
  let kind := default "framework" (metadata ≫= Json.getString "symbolKind") in
  let abstract := extractText (Json.get "abstract" data) in
  let platforms := platformNames (metadata ≫= Json.get "platforms") in
  let tokens := Tokenizer.createSearchTokens title abstract path platforms in
  mkEntry (Js.orElse path title) title path kind abstract platforms tokens file.

Definition processSymbolData (index : LocalSymbolIndex) (data : json) (file : string)
  : LocalSymbolIndex :=
  if filteredOut (technologyIdentifier index) (documentPath data) then index
  else
    let index :=
      setSymbol index (Js.orElse (documentPath data) (documentTitle data))
                (documentEntry data file) in
    processReferences index (Json.get "references" data) file.

(** [processFile]: the outcome of reading the file is [read]; the function
    itself never throws. *)
Definition processFile (index : LocalSymbolIndex) (file : string) (read : Result string)
  : LocalSymbolIndex * bool :=
  let file_path := cacheDir index +:+ "/" +:+ file in
  match read with
  | Ok rawData =>
      match JSON_parse rawData with
      | Some parsed =>
          match safeParse SymbolDataSchema parsed with
          | Some data => (processSymbolData index data file_path, true)
          | None =>
              match safeParse FrameworkDataSchema parsed with
              | Some data => (processSymbolData index data file_path, true)
              | None => (index, false)
              end
          end
      | None => (index, false)
      end
  | Throw _ => (index, false)
  end.

(** *** Building the index *)

(** [array.slice(from, to)] for in-range bounds. *)
Definition slice {A} (from to : nat) (l : list A) : list A :=
  firstn (to - from) (skipn from l).

(** The values [index] takes in
    [for (let index = 0; index < n; index += batchSize)]. *)
Definition batchStarts (n batchSize : nat) : list nat :=
  map (fun i => (i * batchSize)%nat) (seq 0 ((n + batchSize - 1) / batchSize)).

Record BuildCounts : Type := mkCounts { processedCount : nat; errorCount : nat }.

(** One batch: [Promise.all(batch.map(file => this.processFile(file)))]
    followed by the tally of the results.  The files of a batch are taken
    in array order. *)
Definition processBatch (fs : FileSystem) (acc : LocalSymbolIndex * BuildCounts)
    (batch : list string) : LocalSymbolIndex * BuildCounts :=
  fold_left
    (fun acc file =>
       let '(index, counts) := acc in
       let '(index', success) := processFile index file (fst (Fs.readFile file fs)) in
       (index',
        if success
        then mkCounts (S (processedCount counts)) (errorCount counts)
        else mkCounts (processedCount counts) (S (errorCount counts))))
    batch acc.

Section WithBatchSize.

(** [config.indexing.batchSize] when it is 1 or more (it is 10 unless
    configured): the loop of the build then takes the batches that start at
    [batchStarts] and ends.  [batchLoop] below is the loop for any size. *)
Variable batchSize : positive.

Definition processAllBatches (fs : FileSystem) (index : LocalSymbolIndex)
    (fileNames : list string) : LocalSymbolIndex * BuildCounts :=
  fold_left
    (fun acc start =>
       processBatch fs acc (slice start (start + Pos.to_nat batchSize) fileNames))
    (batchStarts (length fileNames) (Pos.to_nat batchSize))
    (index, mkCounts 0 0).

(** [buildIndexFromCache]: the result and the index object afterwards. *)
Definition buildIndexFromCache (fs : FileSystem) (index : LocalSymbolIndex)
  : Result unit * LocalSymbolIndex :=
  match state index with
  | Ready | Building => (Ok tt, index)
  | _ =>
      let index := setState index Building in
      match fst (Fs.access fs) with
      | Throw _ => (Ok tt, setState index Ready)
      | Ok _ =>
          match fst (Fs.readdir fs) with
          | Throw error => (Throw error, setState index Failed)
          | Ok allFiles =>
              let fileNames := filter (fun file => Js.endsWith file ".json" = true) allFiles in
              let '(index, _) := processAllBatches fs index fileNames in
              (Ok tt, setState index Ready)
          end
      end
  end.

End WithBatchSize.

(** *** The loop of a build, for any batch size

    [parseIntOrDefault] lets any integer through as the batch size, and
    the loop does not check it. *)

(** [array.slice(from, to)] for any two integers: one below 0 counts from
    the end of the array, and both are brought into the array. *)
Definition sliceZ {A} (from to : Z) (l : list A) : list A :=
  let len := Z.of_nat (length l) in
  let relative i := if i <? 0 then Z.max (len + i) 0 else Z.min i len in
  slice (Z.to_nat (relative from)) (Z.to_nat (relative to)) l.

(** [for (let index = 0; index < files.length; index += batchSize)] from
    the value [start] of [index] on, with the batch and its tally as the
    body.  The condition is tested [rounds] times at most: the result is
    [None] when the loop has not ended by then. *)
Fixpoint batchLoop (rounds : nat) (batchSize : Z) (fs : FileSystem)
    (fileNames : list string) (start : Z) (acc : LocalSymbolIndex * BuildCounts)
  : option (LocalSymbolIndex * BuildCounts) :=
  match rounds with
  | O => None
  | S rounds' =>
      if start <? Z.of_nat (length fileNames)
      then batchLoop rounds' batchSize fs fileNames (start + batchSize)
             (processBatch fs acc (sliceZ start (start + batchSize) fileNames))
      else Some acc
  end.

(** [buildIndexFromCache] with that loop: [None] when the call has not
    returned after [rounds] tests of the loop condition. *)
Definition buildWithin (rounds : nat) (batchSize : Z) (fs : FileSystem)
    (index : LocalSymbolIndex) : option (Result unit * LocalSymbolIndex) :=
  match state index with
  | Ready | Building => Some (Ok tt, index)
  | _ =>
      let index := setState index Building in
      match fst (Fs.access fs) with
      | Throw _ => Some (Ok tt, setState index Ready)
      | Ok _ =>
          match fst (Fs.readdir fs) with
          | Throw error => Some (Throw error, setState index Failed)
          | Ok allFiles =>
              let fileNames := filter (fun file => Js.endsWith file ".json" = true) allFiles in
              match batchLoop rounds batchSize fs fileNames 0 (index, mkCounts 0 0) with
              | Some (index, _) => Some (Ok tt, setState index Ready)
              | None => None
              end
          end
      end
  end.

(** [clear]. *)
Definition clear (index : LocalSymbolIndex) : LocalSymbolIndex :=
  mkIndex [] (cacheDir index) (technologyIdentifier index) Uninitialized.

Definition getSymbolCount (index : LocalSymbolIndex) : nat := length (symbols index).

(** *** Searching the index *)

Definition NUL : ascii := "000"%char.
Definition STAR : string := String NUL ("STAR" +:+ String NUL EmptyString).
Definition QUESTION : string := String NUL ("QUESTION" +:+ String NUL EmptyString).

(** The class [[.+^${}[\]|()\\]]. *)
Definition isEscaped (c : ascii) : bool :=
  existsb (Ascii.eqb c)
    ["."; "+"; "^"; "$"; "{"; "}"; "["; "]"; "|"; "("; ")"; "\"]%char.

(** [s.replaceAll(/[.+^${}[\]|()\\]/g, String.raw`\$&`)]. *)
Fixpoint escapeSpecial (s : string) : string :=
  match s with
  | EmptyString => EmptyString
  | String c s' =>
      if isEscaped c then String "\"%char (String c (escapeSpecial s'))
      else String c (escapeSpecial s')
  end.

Definition escapeQuery (query : string) : string :=
  Js.toLowerCase
    (Js.replaceAll
       (Js.replaceAll
          (escapeSpecial (Js.replaceAll (Js.replaceAll query "*" STAR) "?" QUESTION))
          STAR ".*")
       QUESTION ".").

(** The argument of [new RegExp]. *)
Definition wildcardSource (query : string) : string :=
  "^" +:+ escapeQuery query +:+ "$".

Definition hasWildcards (query : string) : bool :=
  Js.includes query "*" || Js.includes query "?".

(** The three statements of the token loop, for one query token. *)
Definition addTokenScore (entry : LocalSymbolIndexEntry) (score : Z) (queryToken : string) : Z :=
  let score :=
    if Js.includes (Js.toLowerCase (title entry)) (Js.toLowerCase queryToken)
    then score + 50 else score in
  let score :=
    if Js.arrayIncludes (tokens entry) queryToken then score + 30 else score in
  if Js.includes (Js.toLowerCase (abstract entry)) (Js.toLowerCase queryToken)
  then score + 10 else score.

(** The body of the loop over [this.symbols.entries()]. *)
Definition scoreOf (wild : bool) (wildcardRegex : option RegExp.RegExp)
    (query : string) (queryTokens : list string) (entry : LocalSymbolIndexEntry) : Z :=
  match wild, wildcardRegex with
  | true, Some re =>
      if RegExp.test re (Js.toLowerCase (title entry))
         || RegExp.test re (Js.toLowerCase (path entry))
         || existsb (RegExp.test re) (tokens entry)
      then 100 else 0
  | true, None =>
      let lowerQuery := Js.toLowerCase query in
      if Js.includes (Js.toLowerCase (title entry)) lowerQuery
         || Js.includes (Js.toLowerCase (path entry)) lowerQuery
      then 50 else 0
  | false, _ => fold_left (addTokenScore entry) queryTokens 0
  end.

(** [results.sort((a, b) => b.score - a.score)], a stable sort. *)
Fixpoint insertByScore (x : LocalSymbolIndexEntry * Z)
    (l : list (LocalSymbolIndexEntry * Z)) : list (LocalSymbolIndexEntry * Z) :=
  match l with
  | [] => [x]
  | y :: l' => if snd x <? snd y then y :: insertByScore x l' else x :: l
  end.

Definition sortByScore (l : list (LocalSymbolIndexEntry * Z))
  : list (LocalSymbolIndexEntry * Z) :=
  fold_right insertByScore [] l.

Section WithRegExp.

(** The [RegExp] constructor of the runtime. *)
Variable newRegExp : string -> option RegExp.RegExp.

Definition searchWith (index : LocalSymbolIndex) (query : string) (maxResults : nat)
  : list LocalSymbolIndexEntry :=
  let queryTokens := Tokenizer.tokenize query in
  let wild := hasWildcards query in
  let wildcardRegex := if wild then newRegExp (wildcardSource query) else None in
  let results :=
    fold_left
      (fun results kv =>
         let entry := snd kv in
         let score := scoreOf wild wildcardRegex query queryTokens entry in
         if 0 <? score then results ++ [(entry, score)] else results)
      (symbols index) [] in
  map fst (firstn maxResults (sortByScore results)).

End WithRegExp.

(** [search(query, maxResults)]; [maxResults] is 20 when omitted, and the
    tool schema admits the integers from 1 to 100. *)
Definition search (index : LocalSymbolIndex) (query : string) (maxResults : nat)
  : list LocalSymbolIndexEntry :=
  searchWith RegExp.compile index query maxResults.

End Index.

(** ** Session state ([state.ts] and the three managers it composes) *)

Record Technology : Type := mkTechnology {
  identifier : option string;
  title : option string;
  url : option string;
  kind : option string;
  role : option string
}.

Module State.

Record FrameworkIndexEntry : Type := mkFrameworkIndexEntry {
  entryId : string;
  ref : json;
  entryTokens : list string
}.

Record LastDiscovery : Type := mkLastDiscovery {
  query : option string;
  results : list Technology
}.

Record TechnologyState : Type := mkTechnologyState {
  activeTechnology : option Technology
}.

Record FrameworkState : Type := mkFrameworkState {
  activeFrameworkData : option json;
  frameworkIndex : option (list (string * FrameworkIndexEntry));
  expandedIdentifiers : gset string
}.

Record SearchState : Type := mkSearchState {
  lastDiscovery : option LastDiscovery;
  localSymbolIndex : option Index.LocalSymbolIndex
}.

Record ServerState : Type := mkServerState {
  technologyState : TechnologyState;
  frameworkState : FrameworkState;
  searchState : SearchState
}.

(** [new ServerState()]. *)
Definition initial : ServerState :=
  mkServerState (mkTechnologyState None) (mkFrameworkState None None ∅)
                (mkSearchState None None).

(** *** [TechnologyState] *)

(** [technology?.identifier]. *)
Definition identifierOf (technology : option Technology) : option string :=
  technology ≫= identifier.

Definition TechnologyState_hasChanged (ts : TechnologyState)
    (previousIdentifier : option string) : bool :=
  negb (bool_decide (previousIdentifier = identifierOf (activeTechnology ts))).

(** *** [FrameworkState] *)

Definition FrameworkState_clearActiveFrameworkData (fs : FrameworkState) : FrameworkState :=
  mkFrameworkState None (frameworkIndex fs) (expandedIdentifiers fs).

Definition FrameworkState_clearFrameworkIndex (fs : FrameworkState) : FrameworkState :=
  mkFrameworkState (activeFrameworkData fs) None ∅.

Definition FrameworkState_reset (fs : FrameworkState) : FrameworkState :=
  mkFrameworkState None None ∅.

(** *** [SearchState] *)

Definition SearchState_resetForTechnologyChange (ss : SearchState) : SearchState :=
  mkSearchState (lastDiscovery ss) None.

(** *** [ServerState] *)

Definition getActiveTechnology (st : ServerState) : option Technology :=
  activeTechnology (technologyState st).

Definition getActiveFrameworkData (st : ServerState) : option json :=
  activeFrameworkData (frameworkState st).

Definition getFrameworkIndex (st : ServerState) : option (list (string * FrameworkIndexEntry)) :=
  frameworkIndex (frameworkState st).

Definition getLocalSymbolIndex (st : ServerState) : option Index.LocalSymbolIndex :=
  localSymbolIndex (searchState st).

Definition getLastDiscovery (st : ServerState) : option LastDiscovery :=
  lastDiscovery (searchState st).

Definition hasExpandedIdentifier (st : ServerState) (identifier : string) : bool :=
  bool_decide (identifier ∈ expandedIdentifiers (frameworkState st)).

Definition resetForTechnologyChange (st : ServerState) : ServerState :=
  mkServerState (technologyState st)
                (FrameworkState_reset (frameworkState st))
                (SearchState_resetForTechnologyChange (searchState st)).

Definition setActiveTechnology (st : ServerState) (technology : option Technology)
  : ServerState :=
  let previousIdentifier := identifierOf (getActiveTechnology st) in
  let st := mkServerState (mkTechnologyState technology) (frameworkState st) (searchState st) in
  if TechnologyState_hasChanged (technologyState st) previousIdentifier
  then resetForTechnologyChange st
  else st.

Definition setActiveFrameworkData (st : ServerState) (data : option json) : ServerState :=
  mkServerState (technologyState st)
    (mkFrameworkState data (frameworkIndex (frameworkState st))
                      (expandedIdentifiers (frameworkState st)))
    (searchState st).

Definition clearActiveFrameworkData (st : ServerState) : ServerState :=
  mkServerState (technologyState st)
                (FrameworkState_clearActiveFrameworkData (frameworkState st))
                (searchState st).

Definition setFrameworkIndex (st : ServerState)
    (index : option (list (string * FrameworkIndexEntry))) : ServerState :=
  mkServerState (technologyState st)
    (mkFrameworkState (activeFrameworkData (frameworkState st)) index
                      (expandedIdentifiers (frameworkState st)))
    (searchState st).

Definition clearFrameworkIndex (st : ServerState) : ServerState :=
  mkServerState (technologyState st)
                (FrameworkState_clearFrameworkIndex (frameworkState st))
                (searchState st).

Definition markIdentifierExpanded (st : ServerState) (identifier : string) : ServerState :=
  mkServerState (technologyState st)
    (mkFrameworkState (activeFrameworkData (frameworkState st))
                      (frameworkIndex (frameworkState st))
                      ({[identifier]} ∪ expandedIdentifiers (frameworkState st)))
    (searchState st).

Definition setLastDiscovery (st : ServerState) (d : option LastDiscovery) : ServerState :=
  mkServerState (technologyState st) (frameworkState st)
                (mkSearchState d (localSymbolIndex (searchState st))).

Definition setLocalSymbolIndex (st : ServerState) (index : Index.LocalSymbolIndex)
  : ServerState :=
  mkServerState (technologyState st) (frameworkState st)
                (mkSearchState (lastDiscovery (searchState st)) (Some index)).

Definition clearLocalSymbolIndex (st : ServerState) : ServerState :=
  mkServerState (technologyState st) (frameworkState st)
                (mkSearchState (lastDiscovery (searchState st)) None).

End State.

(** ** The [choose_technology] handler ([choose-technology.ts]) *)

Module ChooseTechnology.

Import State.

(** [fuzzyScore]; [None] is [Number.POSITIVE_INFINITY]. *)
Definition fuzzyScore (a b : option string) : option nat :=
  match a, b with
  | Some a, Some b =>
      if negb (Js.nonEmpty a) || negb (Js.nonEmpty b) then None
      else
        let lowerA := Js.toLowerCase a in
        let lowerB := Js.toLowerCase b in
        if String.eqb lowerA lowerB then Some 0%nat
        else if Js.startsWith lowerA lowerB || Js.startsWith lowerB lowerA then Some 1%nat
        else if Js.includes lowerA lowerB || Js.includes lowerB lowerA then Some 2%nat
        else Some 3%nat
  | _, _ => None
  end.

(** [a.score - b.score > 0]: the comparator asks for [b] before [a]. *)
Definition scoreGt (a b : option nat) : bool :=
  match a, b with
  | Some x, Some y => (y <? x)%nat
  | None, Some _ => true
  | _, None => false
  end.

(** [scored.sort((a, b) => a.score - b.score)], a stable sort. *)
Fixpoint insertScored (x : Technology * option nat) (l : list (Technology * option nat))
  : list (Technology * option nat) :=
  match l with
  | [] => [x]
  | y :: l' => if scoreGt (snd x) (snd y) then y :: insertScored x l' else x :: l
  end.

Definition sortScored (l : list (Technology * option nat)) : list (Technology * option nat) :=
  fold_right insertScored [] l.

(** [ensureFramework]. *)
Definition ensureFramework (technology : Technology) : Result unit :=
  if bool_decide (kind technology = Some "symbol")
     && bool_decide (role technology = Some "collection")
  then Ok tt
  else Throw (McpError
                (default "Unknown technology" (title technology)
                 +:+ " is not a framework collection. Please choose a framework technology instead.")).

(** A non-empty string is truthy. *)
Definition truthyString (s : option string) : option string :=
  match s with
  | Some v => if Js.nonEmpty v then Some v else None
  | None => None
  end.

(** The resolution of [args] to one of the candidates. *)
Definition resolve (candidates : list Technology) (name identifier_ : option string)
  : option Technology :=
  let normalizedName := option_map (fun s => Js.trim (Js.toLowerCase s)) name in
  let normalizedIdentifier := option_map (fun s => Js.trim (Js.toLowerCase s)) identifier_ in
  let chosen :=
    match truthyString normalizedIdentifier with
    | Some wanted =>
        List.find (fun tech =>
                bool_decide (option_map Js.toLowerCase (identifier tech) = Some wanted))
             candidates
    | None => None
    end in
  let chosen :=
    match chosen, truthyString normalizedName with
    | None, Some wanted =>
        List.find (fun tech => bool_decide (option_map Js.toLowerCase (title tech) = Some wanted))
             candidates
    | _, _ => chosen
    end in
  match chosen, truthyString normalizedName with
  | None, Some _ =>
      let scored := sortScored (map (fun tech => (tech, fuzzyScore (title tech) name)) candidates) in
      match scored with
      | (tech, Some score) :: _ => if (score <? 3)%nat then Some tech else None
      | _ => None
      end
  | _, _ => chosen
  end.

(** What the handler answers; the text of the answer is left out. *)
Inductive Response : Type :=
| TechnologyNotFound
| TechnologySelected (chosen : Technology).

(** The handler, given what [client.getTechnologies()] resolved to.  The
    framework overview that is fetched after the selection only adds text
    to the response and does not touch the session state. *)
Definition handler (technologies : Result (list Technology)) (name identifier_ : option string)
    (st : ServerState) : Result Response * ServerState :=
  match technologies with
  | Throw e => (Throw e, st)
  | Ok values =>
      let candidates :=
        filter (fun tech => is_Some (title tech) ∧ is_Some (identifier tech)) values in
      match resolve candidates name identifier_ with
      | None => (Ok TechnologyNotFound, st)
      | Some chosen =>
          match ensureFramework chosen with
          | Throw e => (Throw e, st)
          | Ok _ =>
              let st := setActiveTechnology st (Some chosen) in
              let st := clearActiveFrameworkData st in
              (Ok (TechnologySelected chosen), st)
          end
      end
  end.

End ChooseTechnology.

(** ** The in-memory response cache ([memory-cache.ts]) *)

Module MemoryCache.

Record CacheEntry : Type := mkCacheEntry { data : json; timestamp : Z }.

Record MemoryCache : Type := mkMemoryCache {
  cache : list (string * CacheEntry);
  cacheTimeout : Z;
  maxSize : nat
}.

Definition create (timeoutMs : Z) (size : nat) : MemoryCache := mkMemoryCache [] timeoutMs size.

Fixpoint lookup (key : string) (l : list (string * CacheEntry)) : option CacheEntry :=
  match l with
  | [] => None
  | (k, e) :: rest => if String.eqb key k then Some e else lookup key rest
  end.

Definition delete (key : string) (l : list (string * CacheEntry)) : list (string * CacheEntry) :=
  filter (fun kv => negb (String.eqb key (fst kv)) = true) l.

(** [get(key)] at time [now]: the value, if any, and the cache afterwards. *)
Definition get (key : string) (now : Z) (c : MemoryCache) : option json * MemoryCache :=
  match lookup key (cache c) with
  | Some cached =>
      if now - timestamp cached <? cacheTimeout c
      then (Some (data cached),
            mkMemoryCache (delete key (cache c) ++ [(key, cached)]) (cacheTimeout c) (maxSize c))
      else (None, mkMemoryCache (delete key (cache c)) (cacheTimeout c) (maxSize c))
  | None => (None, c)
  end.

(** [set(key, data)] at time [now]. *)
Definition set (key : string) (value : json) (now : Z) (c : MemoryCache) : MemoryCache :=
  let entries :=
    match lookup key (cache c) with
    | Some _ => delete key (cache c)
    | None =>
        if (maxSize c <=? length (cache c))%nat
        then match cache c with
             | (oldestKey, _) :: _ => delete oldestKey (cache c)
             | [] => cache c
             end
        else cache c
    end in
  mkMemoryCache (entries ++ [(key, mkCacheEntry value now)]) (cacheTimeout c) (maxSize c).

Definition clear (c : MemoryCache) : MemoryCache :=
  mkMemoryCache [] (cacheTimeout c) (maxSize c).

End MemoryCache.

(** ** The transport client ([http-client.ts]) *)

Record HttpConfig : Type := mkHttpConfig {
  baseUrl : string;
  maxRetryAttempts : Z;
  baseRetryDelayMs : Z
}.

(** The values of [config.http] when the environment sets none. *)
Definition defaultHttpConfig : HttpConfig :=
  mkHttpConfig "https://developer.apple.com/tutorials/data" 3 500.

(** The network side of the world: what the [n]-th call of [axios.get]
    (counted from 0) gives for a URL, how many calls were made, the delays
    slept so far, the response cache and the clock. *)
Record Net : Type := mkNet {
  transport : string -> nat -> Result json;
  calls : nat;
  delays : list Z;
  memory : MemoryCache.MemoryCache;
  clock : Z
}.

Module HttpClient.

(** [axios.get(url, ...)], returning [data]. *)
Definition axiosGet (url : string) : Eff Net json :=
  fun w =>
    (transport w url (calls w),
     mkNet (transport w) (S (calls w)) (delays w) (memory w) (clock w)).

(** [this.delay(ms)]. *)
Definition delay (ms : Z) : Eff Net unit :=
  fun w =>
    (Ok tt, mkNet (transport w) (calls w) (delays w ++ [ms]) (memory w) (clock w + ms)).

Definition cacheGet (url : string) : Eff Net (option json) :=
  fun w =>
    let '(hit, c) := MemoryCache.get url (clock w) (memory w) in
    (Ok hit, mkNet (transport w) (calls w) (delays w) c (clock w)).

Definition cacheSet (url : string) (value : json) : Eff Net unit :=
  fun w =>
    (Ok tt,
     mkNet (transport w) (calls w) (delays w)
           (MemoryCache.set url value (clock w) (memory w)) (clock w)).

Definition isRetryableError (error : Thrown) : bool :=
  match error with
  | AxiosError code status =>
      match code with
      | Some c =>
          Js.nonEmpty c && Js.arrayIncludes ["ECONNRESET"; "ETIMEDOUT"; "ECONNABORTED"] c
      | None => false
      end
      || match status with
         | Some s => (s =? 503) || (s =? 429) || (s =? 500) || (s =? 502) || (s =? 504)
         | None => false
         end
  | _ => false
  end.

(** [validateResponse]. *)
Definition validateResponse (value : json) (url : string) : Result unit :=
  match value with
  | JNull => Throw (PlainError ("API returned null or undefined response for " +:+ url))
  | JObj props =>
      match props with
      | [] => Throw (PlainError ("API returned empty object for " +:+ url))
      | _ =>
          match Json.lookup "error" props with
          | Some e =>
              if Json.truthy e
              then Throw (PlainError
                            ("API returned error: "
                             +:+ match e with JStr m => m | _ => "Unknown API error" end))
              else
                match Json.lookup "errors" props with
                | Some (JArr (_ :: _)) => Throw (PlainError "API returned errors")
                | _ => Ok tt
                end
          | None =>
              match Json.lookup "errors" props with
              | Some (JArr (_ :: _)) => Throw (PlainError "API returned errors")
              | _ => Ok tt
              end
          end
      end
  | _ => Throw (PlainError ("API returned unexpected type for " +:+ url))
  end.

Section WithConfig.

Variable config : HttpConfig.

(** The cache check and the [try] block of [makeRequest]: the value to
    return, or the [error] that reaches the [catch] block. *)
Definition attemptRequest (url : string) : Eff Net json :=
  cached <~ cacheGet url ;;
  match cached with
  | Some value =>
      if Json.truthy value then Eff.ret value
      else
        value <~ axiosGet url ;;
        match validateResponse value url with
        | Throw e => Eff.throw e
        | Ok _ => cacheSet url value ;;; Eff.ret value
        end
  | None =>
      value <~ axiosGet url ;;
      match validateResponse value url with
      | Throw e => Eff.throw e
      | Ok _ => cacheSet url value ;;; Eff.ret value
      end
  end.

(** [makeRequest(path, attempt)].  Attempts are numbered from 1, the
    default of the parameter, which [getDocumentation] leaves alone; from
    there on the factor [2 ** (attempt - 1)] is the integer
    [2 ^ (attempt - 1)].  Below 1 the source multiplies by a fraction,
    which [Z] does not hold, so what is stated of a delay is stated for
    [1 <= attempt]. *)
Equations? makeRequest (path : string) (attempt : Z) (w : Net) : Result json * Net
  by wf (Z.to_nat (maxRetryAttempts config - attempt)) lt :=
  makeRequest path attempt w
    with attemptRequest (baseUrl config +:+ "/" +:+ path) w => {
    | (Ok value, w') => (Ok value, w')
    | (Throw error, w') with Z_lt_dec attempt (maxRetryAttempts config) => {
      | left _ =>
          if isRetryableError error
          then
            let delayMs := baseRetryDelayMs config * 2 ^ (attempt - 1) in
            makeRequest path (attempt + 1) (snd (delay delayMs w'))
          else (Throw (FetchError error), w')
      | right _ => (Throw (FetchError error), w') } }.
Proof. lia. Qed.

(** [getDocumentation]. *)
Definition getDocumentation (path : string) : Eff Net json :=
  makeRequest (path +:+ ".json") 1.

End WithConfig.

(** [clearCache]. *)
Definition clearCache : Eff Net unit :=
  fun w =>
    (Ok tt,
     mkNet (transport w) (calls w) (delays w) (MemoryCache.clear (memory w)) (clock w)).

End HttpClient.

(** ** The documentation client ([apple-client.ts]) *)

Module AppleDevDocsClient.

Section WithEnvironment.

Variable sha256hex : string -> string.
Variable config : HttpConfig.

(** The client's world: the cache directory and the network. *)
Definition World : Type := (FileSystem * Net)%type.

Definition getFramework (frameworkName : string) : Eff World json :=
  cached <~ Eff.onFst (FileCache.loadFramework frameworkName) ;;
  match cached with
  | Some value => Eff.ret value
  | None =>
      value <~ Eff.onSnd (HttpClient.getDocumentation config ("documentation/" +:+ frameworkName)) ;;
      Eff.onFst (FileCache.saveFramework frameworkName value) ;;;
      Eff.ret value
  end.

Definition refreshFramework (frameworkName : string) : Eff World json :=
  value <~ Eff.onSnd (HttpClient.getDocumentation config ("documentation/" +:+ frameworkName)) ;;
  Eff.onFst (FileCache.saveFramework frameworkName value) ;;;
  Eff.ret value.

Definition getSymbol (path : string) : Eff World json :=
  let cleanPath :=
    match path with
    | String "/"%char rest => rest
    | _ => path
    end in
  cached <~ Eff.onFst (FileCache.loadSymbol sha256hex cleanPath) ;;
  match cached with
  | Some value => Eff.ret value
  | None =>
      value <~ Eff.onSnd (HttpClient.getDocumentation config cleanPath) ;;
      Eff.onFst (FileCache.saveSymbol sha256hex cleanPath value) ;;;
      Eff.ret value
  end.

End WithEnvironment.

(** *** The list of technologies *)

(** The type guard [isTechnology]. *)
Definition isTechnology (value : json) : bool :=
  match value with
  | JObj _ =>
      bool_decide (is_Some (Json.getString "identifier" value))
      && bool_decide (is_Some (Json.getString "title" value))
      && bool_decide (is_Some (Json.getString "url" value))
  | _ => false
  end.

(** An own property [k] of an object set to [v]: the value of a key the
    object has is replaced where it stands, a new key comes last.  (The
    keys are written in the property order of the table they are read
    from, in which integer-like keys come first: that is then the property
    order of the object written.) *)
Fixpoint put (props : list (string * json)) (k : string) (v : json)
  : list (string * json) :=
  match props with
  | [] => [(k, v)]
  | (k', v') :: rest =>
      if String.eqb k k' then (k, v) :: rest else (k', v') :: put rest k v
  end.

(** [o[k] = v] on an object [o] that was made by [{}], given by its own
    properties.  The key [__proto__] names no property of [o] but the
    accessor that [o] inherits from [Object.prototype]: assigning to it
    replaces the prototype of [o] when [v] is an object, does nothing
    otherwise, and in neither case adds an own property.  The prototype is
    not part of the model: [Object.keys], [Object.values], [Object.entries]
    and [JSON.stringify], through which the table is read, list own
    properties only. *)
Definition assign (props : list (string * json)) (k : string) (v : json)
  : list (string * json) :=
  if String.eqb k "__proto__" then props else put props k v.

Definition parseTechnologiesResponse (response : json) : json :=
  match response with
  | JObj props =>
      let refs :=
        match Json.lookup "references" props with
        | Some (JObj references) => references
        | _ => props
        end in
      JObj (fold_left
              (fun technologies kv =>
                 if isTechnology (snd kv) then assign technologies (fst kv) (snd kv)
                 else technologies)
              refs [])
  | _ => JObj []
  end.

Section WithTransport.

Variable config : HttpConfig.

Definition fetchAndSaveTechnologies : Eff World json :=
  response <~ Eff.onSnd (HttpClient.getDocumentation config "documentation/technologies") ;;
  let technologies := parseTechnologiesResponse response in
  (if (0 <? FileCache.keyCount technologies)%nat
   then Eff.onFst (FileCache.saveTechnologies technologies)
   else Eff.ret tt) ;;;
  Eff.ret technologies.

Definition getTechnologies : Eff World json :=
  cached <~ Eff.onFst FileCache.loadTechnologies ;;
  match cached with
  | Some value =>
      if Json.truthy value && (0 <? FileCache.keyCount value)%nat then Eff.ret value
      else fetchAndSaveTechnologies
  | None => fetchAndSaveTechnologies
  end.

Definition refreshTechnologies : Eff World json := fetchAndSaveTechnologies.

End WithTransport.

End AppleDevDocsClient.

(** * The vocabulary of the properties, and sample data *)

(** ** Strings, character by character *)

Module StringSpec.

(** [s.replace(/./g, f)]: every character replaced by a string. *)
Fixpoint concatMap (f : ascii -> string) (s : string) : string :=
  match s with
  | EmptyString => EmptyString
  | String c s' => f c +:+ concatMap f s'
  end.

(** [[...s].every(p)]. *)
Fixpoint allChars (p : ascii -> bool) (s : string) : bool :=
  match s with
  | EmptyString => true
  | String c s' => p c && allChars p s'
  end.

End StringSpec.

(** ** Reading printed JSON back *)

Module JsonSpec.

Import JsonText StringSpec.

(** A state in which the tokens read so far, once a pending number or
    word is completed, are [T]. *)
Inductive Settles : LexState -> list token -> Prop :=
| Settles_idle T : Settles (Idle, T) T
| Settles_number lexeme T n :
    numberOfLexeme lexeme = Some n -> Settles (InNum lexeme, T) (T ++ [TNum n])
| Settles_word lexeme T t :
    wordToken lexeme = Some t -> Settles (InWord lexeme, T) (T ++ [t]).

(** A character that ends a number or a word. *)
Definition breaks (c : ascii) : bool := negb (isDigit c) && negb (isLetter c).

(** [s] starts with such a character. *)
Definition breaksFirst (s : string) : Prop :=
  exists c rest, s = String c rest /\ breaks c = true.

(** [s] reads as the tokens [ts], possibly leaving the last one pending. *)
Definition Lexes (s : string) (ts : list token) : Prop :=
  forall T, exists st, run s (Idle, T) = Some st /\ Settles st (T ++ ts).

(** [s] reads as the tokens [ts] and leaves nothing pending. *)
Definition LexesIdle (s : string) (ts : list token) : Prop :=
  forall T, run s (Idle, T) = Some (Idle, T ++ ts).

(** The tokens of a value, in the order [JSON.stringify] prints them. *)
Fixpoint tokensOf (j : json) : list token :=
  match j with
  | JNull => [TNull]
  | JBool true => [TTrue]
  | JBool false => [TFalse]
  | JNum n => [TNum n]
  | JStr s => [TStr s]
  | JArr [] => [TLBracket; TRBracket]
  | JArr (x :: xs) =>
      TLBracket :: tokensOf x
      ++ List.concat (map (fun y => TComma :: tokensOf y) xs) ++ [TRBracket]
  | JObj [] => [TLBrace; TRBrace]
  | JObj ((k, x) :: ps) =>
      TLBrace :: TStr k :: TColon :: tokensOf x
      ++ List.concat (map (fun kv => TComma :: TStr (fst kv) :: TColon :: tokensOf (snd kv)) ps)
      ++ [TRBrace]
  end.

(** A piece of text that can be followed by more text which starts with
    a breaking character. *)
Definition Element (text : string) (ts : list token) : Prop :=
  breaksFirst text
  /\ forall rest tr, breaksFirst rest -> LexesIdle rest tr ->
                     LexesIdle (text +:+ rest) (ts ++ tr).

(** A value parses back from its tokens, whatever follows them, with fuel
    for each of its tokens. *)
Definition ParsesBack (j : json) : Prop :=
  forall fuel rest,
    (length (tokensOf j) <= fuel)%nat ->
    parseValue fuel (tokensOf j ++ rest) = Some (j, rest).

(** The tokens of the items of an array after the first, each with the
    comma before it; likewise for the members of an object. *)
Definition itemTokens (xs : list json) : list token :=
  List.concat (map (fun y => TComma :: tokensOf y) xs).

Definition memberTokens (ps : list (string * json)) : list token :=
  List.concat (map (fun kv => TComma :: TStr (fst kv) :: TColon :: tokensOf (snd kv)) ps).

End JsonSpec.

(** ** Sessions *)

Module StateSpec.

Import State.

Definition swiftUI : Technology :=
  mkTechnology (Some "doc://com.apple.documentation/documentation/swiftui")
               (Some "SwiftUI") (Some "/documentation/swiftui")
               (Some "symbol") (Some "collection").

Definition uiKit : Technology :=
  mkTechnology (Some "doc://com.apple.documentation/documentation/uikit")
               (Some "UIKit") (Some "/documentation/uikit")
               (Some "symbol") (Some "collection").

Definition swiftUIFramework : json :=
  JObj [("metadata", JObj [("title", JStr "SwiftUI"); ("role", JStr "collection")])].

(** A session that has SwiftUI selected, with framework data, a framework
    index, one expanded identifier and a local symbol index in place. *)
Definition busySession : ServerState :=
  setLocalSymbolIndex
    (markIdentifierExpanded
       (setFrameworkIndex
          (setActiveFrameworkData (setActiveTechnology initial (Some swiftUI))
                                  (Some swiftUIFramework))
          (Some [("test", mkFrameworkIndexEntry "test" (JObj [("title", JStr "Test")]) [])]))
       "doc://test")
    (Index.create "/cache" (Some "swiftui")).

End StateSpec.

(** ** What a build of the index stores *)

Module IndexSpec.

Import Index.

(** The index filters by [technology] and every entry it holds has the
    property [P]. *)
Definition Stored (technology : option string)
    (P : string * LocalSymbolIndexEntry -> Prop) (index : LocalSymbolIndex) : Prop :=
  technologyIdentifier index = technology /\ Forall P (symbols index).

Definition viewDocument : json :=
  JObj [("metadata",
         JObj [("title", JStr "View"); ("url", JStr "/documentation/swiftui/view");
               ("symbolKind", JStr "protocol");
               ("platforms", JArr [JObj [("name", JStr "iOS"); ("introducedAt", JStr "13.0")]])]);
        ("abstract", JArr [JObj [("text", JStr "A type that represents your UI.");
                                 ("type", JStr "text")]]);
        ("references",
         JObj [("doc://Text",
                JObj [("title", JStr "Text"); ("url", JStr "/documentation/swiftui/text");
                      ("kind", JStr "symbol")])])].

Definition viewControllerDocument : json :=
  JObj [("metadata",
         JObj [("title", JStr "UIViewController");
               ("url", JStr "/documentation/uikit/uiviewcontroller");
               ("symbolKind", JStr "class");
               ("platforms", JArr [JObj [("name", JStr "iOS"); ("introducedAt", JStr "2.0")]])]);
        ("abstract", JArr []);
        ("references", JObj [])].

Definition uiKitFramework : json :=
  JObj [("metadata",
         JObj [("title", JStr "UIKit"); ("role", JStr "collection");
               ("platforms", JArr [JObj [("name", JStr "iOS"); ("introducedAt", JStr "2.0")]])]);
        ("references",
         JObj [("doc://UIView",
                JObj [("title", JStr "UIView"); ("url", JStr "/documentation/uikit/uiview");
                      ("kind", JStr "symbol")])])].

Definition mixedCache : FileSystem :=
  mkFileSystem DirPresent
    (<["view.json" := FileText (JsonText.JSON_stringify viewDocument)]>
       (<["uiviewcontroller.json" := FileText (JsonText.JSON_stringify viewControllerDocument)]>
          (<["UIKit.json" := FileText (JsonText.JSON_stringify uiKitFramework)]> ∅)))
    None.

Definition builtFrom (fs : FileSystem) (technology : option string) : LocalSymbolIndex :=
  snd (buildIndexFromCache 10 fs (create "/cache" technology)).

(** The invariant as the data model words it. *)
Definition identityInvariant (e : LocalSymbolIndexEntry) : Prop :=
  id e = Js.orElse (path e) (title e).

Definition textReferenceEntry : LocalSymbolIndexEntry :=
  referenceEntry "doc://Text"
    (JObj [("title", JStr "Text"); ("url", JStr "/documentation/swiftui/text");
           ("kind", JStr "symbol")])
    "/cache/view.json".

(** Where an entry stored by a build comes from. *)
Definition Origin (kv : string * LocalSymbolIndexEntry) : Prop :=
  fst kv = id (snd kv)
  /\ ((exists data file, snd kv = documentEntry data file)
      \/ (exists refId ref file,
            isSymbolReference ref = true /\ snd kv = referenceEntry refId ref file)).

(** What the technology-filtering property asks of a stored entry. *)
Definition pathContains (t : string) (e : LocalSymbolIndexEntry) : Prop :=
  Js.includes (Js.toLowerCase (path e)) (Js.toLowerCase t) = true.

End IndexSpec.

(** ** Unusable cache files *)

Module FileCacheSpec.

Import JsonText Schema FileCache.

(** A cache file that cannot be used: it is absent, its text does not
    parse, or what it parses to does not validate. *)
Inductive Unusable (schema : Schema.Schema) (name : string) (fs : FileSystem) : Prop :=
| Absent :
    fst (Fs.readFile name fs) = Throw Fs.ENOENT -> Unusable schema name fs
| Corrupted raw :
    fst (Fs.readFile name fs) = Ok raw -> JSON_parse raw = None ->
    Unusable schema name fs
| Invalid raw parsed :
    fst (Fs.readFile name fs) = Ok raw -> JSON_parse raw = Some parsed ->
    schema parsed = false -> Unusable schema name fs.

Definition unwritableHome : FileSystem := mkFileSystem (DirMissing (Some "EACCES")) ∅ None.

Definition brokenCache : FileSystem :=
  mkFileSystem DirPresent
    (<["SwiftUI.json" := FileText "{ invalid json"]>
       (<["UIKit.json" := FileText "{}"]> ∅))
    None.

(** A home directory in which the cache directory is yet to be made. *)
Definition emptyCache : FileSystem := mkFileSystem (DirMissing None) ∅ None.

(** A stand-in for the SHA-256 digest in file names. *)
Definition digest (path : string) : string := "00112233445566778899aabbccddeeff".

(** A framework document with properties its schema does not know:
    [schemaVersion] and, under [metadata], [modules]. *)
Definition annotatedFramework : json :=
  JObj [("schemaVersion", JObj [("major", JNum 0); ("minor", JNum 3); ("patch", JNum 0)]);
        ("metadata",
         JObj [("title", JStr "SwiftUI"); ("role", JStr "collection");
               ("modules", JArr [JObj [("name", JStr "SwiftUI")]])]);
        ("references",
         JObj [("doc://View",
                JObj [("title", JStr "View"); ("url", JStr "/documentation/swiftui/view");
                      ("kind", JStr "symbol")])])].

End FileCacheSpec.

(** ** Read-through fetches *)

Module ClientSpec.

Import AppleDevDocsClient FileCacheSpec.

(** What a miss followed by a successful fetch turns into, given the
    outcome of the write. *)
Definition afterSave (value : json) (saved : Result unit * FileSystem) (net : Net)
  : Result json * World :=
  match saved with
  | (Ok _, fs) => (Ok value, (fs, net))
  | (Throw e, fs) => (Throw e, (fs, net))
  end.

Definition swiftUIData : json :=
  JObj [("metadata", JObj [("title", JStr "SwiftUI"); ("role", JStr "collection")])].

Definition fullDisk : FileSystem := mkFileSystem DirPresent ∅ (Some "ENOSPC").

Definition reliableNet : Net :=
  mkNet (fun _ _ => Ok swiftUIData) 0 [] (MemoryCache.create 600000 100) 0.

End ClientSpec.

(** ** Attempts, delays and retryable failures *)

Module HttpSpec.

Import HttpClient.

(** The world after one more call of [axios.get]. *)
Definition called (w : Net) : Net :=
  mkNet (transport w) (S (calls w)) (delays w) (memory w) (clock w).

(** The world after sleeping [ms]. *)
Definition slept (ms : Z) (w : Net) : Net :=
  mkNet (transport w) (calls w) (delays w ++ [ms]) (memory w) (clock w + ms).

Definition cacheMisses (url : string) (w : Net) : Prop :=
  MemoryCache.lookup url (MemoryCache.cache (memory w)) = None.

(** The codes and statuses that [isRetryableError] retries. *)
Definition retryableCode (code : string) : Prop :=
  code = "ECONNRESET" \/ code = "ETIMEDOUT" \/ code = "ECONNABORTED".

Definition retryableStatus (status : Z) : Prop :=
  status = 429 \/ status = 500 \/ status = 502 \/ status = 503 \/ status = 504.

Definition serviceUnavailable : Thrown := AxiosError None (Some 503).
Definition connectionReset : Thrown := AxiosError (Some "ECONNRESET") None.

Definition frameworkPayload : json :=
  JObj [("metadata", JObj [("title", JStr "SwiftUI")])].

(** A transport that fails twice and then delivers. *)
Definition flakyNet : Net :=
  mkNet (fun _ n =>
           match n with
           | 0%nat => Throw serviceUnavailable
           | 1%nat => Throw connectionReset
           | _ => Ok frameworkPayload
           end)
        0 [] (MemoryCache.create 600000 100) 0.

(** A transport that is down. *)
Definition deadNet : Net :=
  mkNet (fun _ _ => Throw serviceUnavailable) 0 [] (MemoryCache.create 600000 100) 0.

End HttpSpec.

(** ** Words, parts and tokens *)

Module TokenizerSpec.

Import Tokenizer.

(** The words of a text: its maximal runs of characters that are not
    delimiters. *)
Definition words (text : string) : list string :=
  Js.splitOn isDelimiter EmptyString text.

(** The parts of a word: the word cut before each of its upper-case
    letters. *)
Definition parts (word : string) : list string :=
  Js.splitBeforeUpper EmptyString word.

(** What a word contributes to the tokens: itself, its parts, and the
    lower-case forms of these. *)
Definition tokenOf (word token : string) : Prop :=
  token = word \/ token = Js.toLowerCase word
  \/ exists part, In part (parts word) /\ (token = part \/ token = Js.toLowerCase part).

(** A text that can be a token: not empty, and free of delimiters. *)
Definition clean (token : string) : Prop :=
  token <> EmptyString
  /\ StringSpec.allChars (fun c => negb (isDelimiter c)) token = true.

End TokenizerSpec.

(** ** Token scores *)

Module SearchSpec.

Import Index.

(** What one query token adds to the score of an entry: 50 for a title
    hit, 30 for an exact token, 10 for an abstract hit. *)
Definition tierScore (entry : LocalSymbolIndexEntry) (queryToken : string) : Z :=
  (if Js.includes (Js.toLowerCase (title entry)) (Js.toLowerCase queryToken) then 50 else 0)
  + (if Js.arrayIncludes (tokens entry) queryToken then 30 else 0)
  + (if Js.includes (Js.toLowerCase (abstract entry)) (Js.toLowerCase queryToken)
     then 10 else 0).

(** The sum over all query tokens. *)
Definition tokenScore (entry : LocalSymbolIndexEntry) (query : string) : Z :=
  fold_right Z.add 0 (map (tierScore entry) (Tokenizer.tokenize query)).

(** The score that a list of query tokens gives an entry: the sum of what
    each token adds. *)
Definition scoreOver (entry : LocalSymbolIndexEntry) (queryTokens : list string) : Z :=
  fold_right Z.add 0 (map (tierScore entry) queryTokens).

(** The entries to which a list of query tokens gives a positive score,
    with that score, in index order. *)
Definition scored (index : LocalSymbolIndex) (queryTokens : list string)
  : list (LocalSymbolIndexEntry * Z) :=
  filter (fun es => 0 < snd es)
         (map (fun kv => (snd kv, scoreOver (snd kv) queryTokens)) (symbols index)).

(** [a] may stand before [b] in a descending ranking. *)
Definition notBelow (a b : LocalSymbolIndexEntry * Z) : Prop := snd b <= snd a.

(** The entries with a positive token score, in index order. *)
Definition survivors (index : LocalSymbolIndex) (query : string)
  : list (LocalSymbolIndexEntry * Z) :=
  filter (fun es => 0 < snd es)
         (map (fun kv => (snd kv, tokenScore (snd kv) query)) (symbols index)).

(** An index with [Button] (whose abstract mentions a control) and
    [NavigationView]. *)
Definition buttonEntry : LocalSymbolIndexEntry :=
  documentEntry
    (JObj [("metadata", JObj [("title", JStr "Button");
                              ("url", JStr "/documentation/swiftui/button");
                              ("symbolKind", JStr "struct")]);
           ("abstract", JArr [JObj [("text", JStr "A control that shows a view.");
                                    ("type", JStr "text")]])])
    "/cache/button.json".

Definition navigationViewEntry : LocalSymbolIndexEntry :=
  documentEntry
    (JObj [("metadata", JObj [("title", JStr "NavigationView");
                              ("url", JStr "/documentation/swiftui/navigationview");
                              ("symbolKind", JStr "struct")]);
           ("abstract", JArr [JObj [("text", JStr "A view for presenting a stack.");
                                    ("type", JStr "text")]])])
    "/cache/navigationview.json".

Definition twoEntries : LocalSymbolIndex :=
  mkIndex [(id buttonEntry, buttonEntry); (id navigationViewEntry, navigationViewEntry)]
          "/cache" None Ready.

End SearchSpec.

(** ** Patterns of wildcard queries *)

Module WildcardSpec.

Import Index StringSpec SearchSpec.

(** A character that stands for itself in a pattern. *)
Definition plain (c : ascii) : bool := negb (RegExp.isSyntaxChar c).

(** The pattern bodies that the substitution pipeline can produce. *)
Inductive Safe : string -> Prop :=
| Safe_nil : Safe EmptyString
| Safe_plain c s : plain c = true -> Safe s -> Safe (String c s)
| Safe_escaped m s : isEscaped m = true -> Safe s -> Safe (String "\"%char (String m s))
| Safe_dot s : Safe s -> Safe (String "."%char s)
| Safe_dotstar s : Safe s -> Safe (String "."%char (String "*"%char s)).

Definition noWildcard (c : ascii) : bool :=
  negb (Ascii.eqb c "*"%char) && negb (Ascii.eqb c "?"%char).

(** What the pipeline is meant to turn one character of the query into. *)
Definition translateChar (c : ascii) : string :=
  if Ascii.eqb c "*"%char then ".*"
  else if Ascii.eqb c "?"%char then "."
  else if isEscaped c then String "\"%char (String c EmptyString)
  else String (Js.lowerChar c) EmptyString.

Definition translate (query : string) : string := concatMap translateChar query.

(** The query with its wildcards as placeholders and its special
    characters escaped. *)
Definition withPlaceholders (star question : string) (c : ascii) : string :=
  if Ascii.eqb c "*"%char then star
  else if Ascii.eqb c "?"%char then question
  else if isEscaped c then String "\"%char (String c EmptyString)
  else String c EmptyString.

Definition notNul (c : ascii) : bool := negb (Ascii.eqb c NUL).

(** The test [search] applies to an entry for a wildcard query. *)
Definition wildcardMatches (re : RegExp.RegExp) (entry : LocalSymbolIndexEntry) : bool :=
  RegExp.test re (Js.toLowerCase (title entry))
  || RegExp.test re (Js.toLowerCase (path entry))
  || existsb (RegExp.test re) (tokens entry).

(** The test of the fallback branch. *)
Definition literalMatches (query : string) (entry : LocalSymbolIndexEntry) : bool :=
  Js.includes (Js.toLowerCase (title entry)) (Js.toLowerCase query)
  || Js.includes (Js.toLowerCase (path entry)) (Js.toLowerCase query).

(** An index with [GridItem], [View] and [Button]. *)
Definition gridItemEntry : LocalSymbolIndexEntry :=
  documentEntry
    (JObj [("metadata", JObj [("title", JStr "GridItem");
                              ("url", JStr "/documentation/swiftui/griditem");
                              ("symbolKind", JStr "struct")])])
    "/cache/griditem.json".

Definition viewEntry : LocalSymbolIndexEntry :=
  documentEntry
    (JObj [("metadata", JObj [("title", JStr "View");
                              ("url", JStr "/documentation/swiftui/view");
                              ("symbolKind", JStr "protocol")]);
           ("abstract", JArr [JObj [("text", JStr "A type that represents your UI.");
                                    ("type", JStr "text")]])])
    "/cache/view.json".

Definition plainButtonEntry : LocalSymbolIndexEntry :=
  documentEntry
    (JObj [("metadata", JObj [("title", JStr "Button");
                              ("url", JStr "/documentation/swiftui/button");
                              ("symbolKind", JStr "struct")]);
           ("abstract", JArr [JObj [("text", JStr "A control for buttons.");
                                    ("type", JStr "text")]])])
    "/cache/button.json".

Definition threeEntries : LocalSymbolIndex :=
  mkIndex [(id gridItemEntry, gridItemEntry); (id viewEntry, viewEntry);
           (id plainButtonEntry, plainButtonEntry)]
          "/cache" None Ready.

End WildcardSpec.

(** ** The response cache as a bounded map *)

Module MemoryCacheSpec.

Import MemoryCache.

(** The keys of the cache, least recently used first. *)
Definition keys (c : MemoryCache) : list string := map fst (cache c).

(** The number of entries the cache makes room for: [maxSize] of them,
    and still one when [maxSize] is 0, where [set] evicts the only entry
    and then stores the new one. *)
Definition capacity (c : MemoryCache) : nat := Nat.max 1 (maxSize c).

(** What the underlying [Map] guarantees, and the capacity. *)
Definition Bounded (c : MemoryCache) : Prop :=
  List.NoDup (keys c) /\ (length (cache c) <= capacity c)%nat.

Definition sampleEntry (n : Z) : CacheEntry := mkCacheEntry (JNum n) 0.

(** A cache made with [maxSize] 0, after a first write. *)
Definition noRoom : MemoryCache := mkMemoryCache [("a", sampleEntry 1)] 1000 0.

(** A full cache of three entries written at time 0, kept for 1000 ms. *)
Definition fullCache : MemoryCache :=
  mkMemoryCache [("a", sampleEntry 1); ("b", sampleEntry 2); ("c", sampleEntry 3)] 1000 3.

End MemoryCacheSpec.

(** ** Requests: backoff, cached responses, acceptable responses *)

Module RequestSpec.

Import HttpClient.

(** The delays slept when attempts [attempt], [attempt + 1], ... fail
    [k] times in a row. *)
Definition backoff (config : HttpConfig) (attempt : Z) (k : nat) : list Z :=
  map (fun i => baseRetryDelayMs config * 2 ^ (attempt - 1 + Z.of_nat i)) (seq 0 k).

(** The [n]-th call of the transport for [url] fails with an error that
    [makeRequest] retries. *)
Definition failsRetryably (url : string) (w : Net) (n : nat) : bool :=
  match transport w url n with
  | Throw error => isRetryableError error
  | Ok _ => false
  end.

(** The number of retries of a request that may retry [budget] times and
    whose first call is call [n]: the calls from [n] on that fail retryably
    in a row, [budget] of them at most. *)
Fixpoint retries (url : string) (w : Net) (budget n : nat) : nat :=
  match budget with
  | O => O
  | S budget' => if failsRetryably url w n then S (retries url w budget' (S n)) else O
  end.

(** What the caller gets when [result] is the result of the last call of
    a request. *)
Definition outcome (url : string) (result : Result json) : Result json :=
  match result with
  | Ok value =>
      match validateResponse value url with
      | Ok _ => Ok value
      | Throw error => Throw (FetchError error)
      end
  | Throw error => Throw (FetchError error)
  end.

(** The response cache holds [value] for [url], and it is still fresh. *)
Definition Cached (url : string) (value : json) (w : Net) : Prop :=
  exists e,
    MemoryCache.lookup url (MemoryCache.cache (memory w)) = Some e
    /\ MemoryCache.data e = value
    /\ clock w - MemoryCache.timestamp e < MemoryCache.cacheTimeout (memory w).

(** The responses [validateResponse] lets through. *)
Definition Acceptable (value : json) : Prop :=
  exists props,
    value = JObj props /\ props <> []
    /\ (forall e, Json.lookup "error" props = Some e -> Json.truthy e = false)
    /\ (forall x xs, Json.lookup "errors" props <> Some (JArr (x :: xs))).

(** A transport that answers 404, and one that answers [{}]. *)
Definition notFoundNet : Net :=
  mkNet (fun _ _ => Throw (AxiosError None (Some 404))) 0 [] (MemoryCache.create 600000 100) 0.

Definition emptyObjectNet : Net :=
  mkNet (fun _ _ => Ok (JObj [])) 0 [] (MemoryCache.create 600000 100) 0.

(** A transport that always delivers the same document. *)
Definition steadyNet : Net :=
  mkNet (fun _ _ => Ok (JObj [("metadata", JObj [("title", JStr "SwiftUI")])]))
        0 [] (MemoryCache.create 600000 100) 0.

End RequestSpec.

(** ** The technologies table *)

Module TechnologiesSpec.

Import FileCache AppleDevDocsClient.

(** The table [parseTechnologiesResponse] reads from a response object:
    its [references] when that is an object, else the response itself. *)
Definition technologyTable (props : list (string * json)) : list (string * json) :=
  match Json.lookup "references" props with
  | Some (JObj references) => references
  | _ => props
  end.

(** The entries of a table that end up in the result: the technologies,
    but for the one under the key [__proto__]. *)
Definition kept (kv : string * json) : bool :=
  isTechnology (snd kv) && negb (String.eqb (fst kv) "__proto__").

(** What the loop of [parseTechnologiesResponse] keeps true of the table
    it fills: every value is a technology, no key comes twice and none is
    [__proto__]. *)
Definition Technologies (found : list (string * json)) : Prop :=
  List.Forall (fun kv => isTechnology (snd kv) = true) found
  /\ List.NoDup (map fst found)
  /\ ~ In "__proto__" (map fst found).

Definition swiftUITechnology : json :=
  JObj [("identifier", JStr "doc://com.apple.documentation/documentation/swiftui");
        ("title", JStr "SwiftUI"); ("url", JStr "/documentation/swiftui");
        ("kind", JStr "symbol"); ("role", JStr "collection")].

Definition uiKitTechnology : json :=
  JObj [("identifier", JStr "doc://com.apple.documentation/documentation/uikit");
        ("title", JStr "UIKit"); ("url", JStr "/documentation/uikit");
        ("kind", JStr "symbol"); ("role", JStr "collection")].

(** What the technologies endpoint answers: the table under [references],
    with an entry that is no technology. *)
Definition technologiesResponse : json :=
  JObj [("metadata", JObj [("title", JStr "Technologies")]);
        ("references",
         JObj [("doc://com.apple.documentation/documentation/swiftui", swiftUITechnology);
               ("doc://com.apple.documentation/documentation/uikit", uiKitTechnology);
               ("technologies-hero.png", JObj [("type", JStr "image")])])].

Definition technologies : list (string * json) :=
  [("doc://com.apple.documentation/documentation/swiftui", swiftUITechnology);
   ("doc://com.apple.documentation/documentation/uikit", uiKitTechnology)].

(** An answer that lists a technology under the key [__proto__]. *)
Definition protoResponse : json :=
  JObj [("references",
         JObj [("__proto__", uiKitTechnology);
               ("doc://com.apple.documentation/documentation/swiftui", swiftUITechnology)])].

(** A cache directory that holds no file. *)
Definition emptyDirectory : FileSystem := mkFileSystem DirPresent ∅ None.

(** A directory whose technologies file is cut short. *)
Definition tornTechnologies : FileSystem :=
  mkFileSystem DirPresent (<["technologies.json" := FileText "{ torn"]> ∅) None.

(** The directory after the table was saved. *)
Definition savedTechnologies : FileSystem :=
  snd (saveTechnologies (JObj technologies) emptyDirectory).

(** A transport that delivers the answer of the technologies endpoint. *)
Definition technologiesNet : Net :=
  mkNet (fun _ _ => Ok technologiesResponse) 0 [] (MemoryCache.create 600000 100) 0.

End TechnologiesSpec.

(** ** Names of cache files *)

Module FileNameSpec.

Import FileCache.

(** The characters a cache file name is made of. *)
Definition safeName (s : string) : Prop :=
  StringSpec.allChars isWordOrHyphen s = true.

(** A stand-in for the SHA-256 digest in file names. *)
Definition sampleDigest (path : string) : string := "00112233445566778899aabbccddeeff".

End FileNameSpec.

(** ** Occurrences of a text *)

Module FindSpec.

Import Index.

(** [needle] occurs in [s]. *)
Definition Substring (needle s : string) : Prop :=
  exists before after, s = before +:+ needle +:+ after.

(** An index of three entries, built from documents. *)
Definition gridEntry : LocalSymbolIndexEntry :=
  documentEntry
    (JObj [("metadata", JObj [("title", JStr "GridItem");
                              ("url", JStr "/documentation/swiftui/griditem");
                              ("symbolKind", JStr "struct")])])
    "/cache/griditem.json".

Definition lazyGridEntry : LocalSymbolIndexEntry :=
  documentEntry
    (JObj [("metadata", JObj [("title", JStr "LazyVGrid");
                              ("url", JStr "/documentation/swiftui/lazyvgrid");
                              ("symbolKind", JStr "struct")])])
    "/cache/lazyvgrid.json".

Definition gridIndex : LocalSymbolIndex :=
  mkIndex [(id gridEntry, gridEntry); (id lazyGridEntry, lazyGridEntry)]
          "/cache" None Ready.

End FindSpec.

(** ** Batches of a build *)

Module BuildSpec.

Import Index.

(** The batches [buildIndexFromCache] cuts a list of files into. *)
Definition batches (batchSize : positive) (fileNames : list string) : list (list string) :=
  map (fun start => slice start (start + Pos.to_nat batchSize) fileNames)
      (batchStarts (length fileNames) (Pos.to_nat batchSize)).

(** A directory with two documents, a text that is no JSON and a file
    that is no [.json] file. *)
Definition untidyCache : FileSystem :=
  mkFileSystem DirPresent
    (<["view.json" :=
         FileText (JsonText.JSON_stringify
                     (JObj [("metadata", JObj [("title", JStr "View");
                                               ("url", JStr "/documentation/swiftui/view")])]))]>
       (<["text.json" :=
            FileText (JsonText.JSON_stringify
                        (JObj [("metadata", JObj [("title", JStr "Text");
                                                  ("url", JStr "/documentation/swiftui/text")])]))]>
          (<["torn.json" := FileText "{ torn"]>
             (<["readme.txt" := FileText "notes"]> ∅))))
    None.

End BuildSpec.

(** ** Reasons to choose a technology *)

Module SelectionSpec.

Import State ChooseTechnology.

(** [s?.toLowerCase().trim()], when that is a non-empty string. *)
Definition normalized (s : option string) : option string :=
  truthyString (option_map (fun s => Js.trim (Js.toLowerCase s)) s).

(** [a <= b] on fuzzy scores, [None] being infinity. *)
Definition scoreLe (a b : option nat) : Prop := scoreGt a b = false.

(** Why [resolve] may choose a candidate. *)
Definition Justified (candidates : list Technology) (name identifier_ : option string)
    (chosen : Technology) : Prop :=
  (exists wanted, normalized identifier_ = Some wanted
                  /\ option_map Js.toLowerCase (identifier chosen) = Some wanted)
  \/ (exists wanted, normalized name = Some wanted
                     /\ option_map Js.toLowerCase (title chosen) = Some wanted)
  \/ (exists score,
        fuzzyScore (title chosen) name = Some score /\ (score < 3)%nat
        /\ forall other, In other candidates ->
                         scoreLe (Some score) (fuzzyScore (title other) name)).

Definition swiftUICollection : Technology :=
  mkTechnology (Some "doc://com.apple.documentation/documentation/swiftui")
               (Some "SwiftUI") (Some "/documentation/swiftui")
               (Some "symbol") (Some "collection").

Definition swiftArticle : Technology :=
  mkTechnology (Some "doc://com.apple.documentation/documentation/swift-article")
               (Some "Swift Article") (Some "/documentation/swift-article")
               (Some "article") (Some "article").

End SelectionSpec.

(** * Properties *)

(** ** Strings *)

Module StringFacts.

Import StringSpec.

Lemma append_nil_l (s : string) : EmptyString +:+ s = s.
Proof. reflexivity. Qed.

Lemma append_cons (c : ascii) (s t : string) : String c s +:+ t = String c (s +:+ t).
Proof. reflexivity. Qed.

Lemma append_nil_r (s : string) : s +:+ EmptyString = s.
Proof.
  induction s as [| c s IH]; [reflexivity |].
  rewrite append_cons, IH. reflexivity.
Qed.

Lemma append_assoc (a b c : string) : (a +:+ b) +:+ c = a +:+ (b +:+ c).
Proof.
  induction a as [| x a IH]; [reflexivity |].
  rewrite !append_cons, IH. reflexivity.
Qed.

Lemma length_append (a b : string) :
  String.length (a +:+ b) = (String.length a + String.length b)%nat.
Proof.
  induction a as [| x a IH]; [reflexivity |].
  rewrite append_cons. simpl. rewrite IH. reflexivity.
Qed.

Lemma concatMap_append f (a b : string) :
  concatMap f (a +:+ b) = concatMap f a +:+ concatMap f b.
Proof.
  induction a as [| x a IH]; [reflexivity |].
  rewrite append_cons. simpl. rewrite IH, append_assoc. reflexivity.
Qed.

Lemma concatMap_concatMap f g (s : string) :
  concatMap f (concatMap g s) = concatMap (fun c => concatMap f (g c)) s.
Proof.
  induction s as [| x s IH]; simpl; [reflexivity |].
  rewrite concatMap_append, IH. reflexivity.
Qed.

Lemma concatMap_ext f g (s : string) :
  (forall c, f c = g c) -> concatMap f s = concatMap g s.
Proof.
  intros H. induction s as [| x s IH]; simpl; [reflexivity |].
  rewrite H, IH. reflexivity.
Qed.

Lemma allChars_append p (a b : string) :
  allChars p (a +:+ b) = allChars p a && allChars p b.
Proof.
  induction a as [| x a IH]; [reflexivity |].
  rewrite append_cons. simpl. rewrite IH, andb_assoc. reflexivity.
Qed.

Lemma allChars_concatMap (p q : ascii -> bool) f (s : string) :
  (forall c, p c = true -> allChars q (f c) = true) ->
  allChars p s = true -> allChars q (concatMap f s) = true.
Proof.
  intros H. induction s as [| x s IH]; simpl; [reflexivity |].
  rewrite andb_true_iff. intros [Hx Hs].
  rewrite allChars_append, (H x Hx), (IH Hs). reflexivity.
Qed.

Lemma startsWith_nil (s : string) : Js.startsWith s EmptyString = true.
Proof. destruct s; reflexivity. Qed.

Lemma startsWith_append (p s : string) : Js.startsWith (p +:+ s) p = true.
Proof.
  induction p as [| x p IH]; [destruct s; reflexivity |].
  rewrite append_cons. simpl. rewrite Ascii.eqb_refl, IH. reflexivity.
Qed.

Lemma startsWith_split (s p : string) :
  Js.startsWith s p = true -> exists rest, s = p +:+ rest.
Proof.
  revert s. induction p as [| x p IH]; intros s; simpl.
  - intros _. exists s. reflexivity.
  - destruct s as [| y s]; [discriminate |].
    intros H. apply andb_prop in H. destruct H as [Hxy Hp].
    apply Ascii.eqb_eq in Hxy. subst y.
    destruct (IH s Hp) as [rest ->]. exists rest. reflexivity.
Qed.

(** A match in progress drops the rest of the needle. *)
Lemma replaceAll_from_skip needle repl (p s : string) :
  Js.replaceAll_from needle repl (String.length p) (p +:+ s)
  = Js.replaceAll_from needle repl 0 s.
Proof.
  induction p as [| x p IH]; [reflexivity |].
  rewrite append_cons. simpl. exact IH.
Qed.

(** With a one-character pattern, [replaceAll] works character by
    character. *)
Lemma replaceAll_single (s : string) (d : ascii) (repl : string) :
  Js.replaceAll s (String d EmptyString) repl
  = concatMap (fun c => if Ascii.eqb d c then repl else String c EmptyString) s.
Proof.
  unfold Js.replaceAll. induction s as [| c s IH]; [reflexivity |].
  cbn [Js.replaceAll_from Js.startsWith concatMap String.length Nat.pred].
  rewrite startsWith_nil, andb_true_r, IH.
  destruct (Ascii.eqb d c); reflexivity.
Qed.

End StringFacts.

(** ** [JSON.parse] after [JSON.stringify] *)

Module JsonFacts.

Import JsonText StringSpec StringFacts JsonSpec.

(** *** Numbers *)

Lemma digits_of_uint (d : Decimal.uint) :
  allChars isDigit (NilEmpty.string_of_uint d) = true.
Proof. induction d; simpl; assumption || reflexivity. Qed.

Lemma to_int_regular (n : Z) :
  Z.to_int n <> Decimal.Pos Decimal.Nil /\ Z.to_int n <> Decimal.Neg Decimal.Nil.
Proof.
  destruct n as [| p | p]; simpl; split; try discriminate;
    intros [= H]; exact (DecimalPos.Unsigned.to_uint_nonnil p H).
Qed.

Lemma numberOfLexeme_numberToString (n : Z) :
  numberOfLexeme (numberToString n) = Some n.
Proof.
  unfold numberOfLexeme, numberToString.
  destruct (to_int_regular n) as [H1 H2].
  rewrite (NilZero.isi _ H1 H2), DecimalZ.of_to, String.eqb_refl. reflexivity.
Qed.

(** The shape of a printed number: a digit or a minus sign, then digits. *)
Lemma numberToString_shape (n : Z) :
  exists c rest,
    numberToString n = String c rest
    /\ (isDigit c || (nat_of_ascii c =? 45)%nat) = true
    /\ allChars isDigit rest = true.
Proof.
  unfold numberToString.
  assert (Hu : forall d, d <> Decimal.Nil ->
             exists c rest, NilZero.string_of_uint d = String c rest
                            /\ isDigit c = true /\ allChars isDigit rest = true).
  { intros d Hd. pose proof (digits_of_uint d) as Hall.
    destruct d; try congruence; simpl in *; eexists _, _;
      (split; [reflexivity | split; [reflexivity | exact Hall]]). }
  destruct n as [| p | p]; simpl.
  - exists "0"%char, EmptyString. repeat split.
  - destruct (Hu (Pos.to_uint p) (DecimalPos.Unsigned.to_uint_nonnil p))
      as (c & rest & -> & Hc & Hrest).
    exists c, rest. rewrite Hc. repeat split. exact Hrest.
  - destruct (Hu (Pos.to_uint p) (DecimalPos.Unsigned.to_uint_nonnil p))
      as (c & rest & Heq & Hc & Hrest).
    exists "-"%char, (String c rest). rewrite Heq. repeat split.
    cbn [allChars]. rewrite Hc, Hrest. reflexivity.
Qed.

(** *** The lexical machine on printed text *)

Lemma run_append (a b : string) (st : LexState) :
  run (a +:+ b) st = match run a st with Some st' => run b st' | None => None end.
Proof.
  revert st. induction a as [| c a IH]; intros st; [reflexivity |].
  rewrite append_cons. cbn [run]. destruct (step st c); [apply IH | reflexivity].
Qed.

Lemma step_settled (st : LexState) (T : list token) (c : ascii) :
  Settles st T -> breaks c = true -> step st c = stepIdle T c.
Proof.
  intros HS Hc. unfold breaks in Hc. apply andb_prop in Hc. destruct Hc as [Hd Hl].
  apply negb_true_iff in Hd, Hl.
  destruct HS as [T | lexeme T n Hn | lexeme T t Ht]; cbn [step].
  - reflexivity.
  - rewrite Hd, Hn. reflexivity.
  - rewrite Hl, Ht. reflexivity.
Qed.

Lemma finish_settled (st : LexState) (T : list token) :
  Settles st T -> finish st = Some T.
Proof.
  intros HS. destruct HS as [T | lexeme T n Hn | lexeme T t Ht]; cbn [finish].
  - reflexivity.
  - rewrite Hn. reflexivity.
  - rewrite Ht. reflexivity.
Qed.

Lemma run_settled (st : LexState) (T : list token) (s : string) :
  Settles st T -> breaksFirst s -> run s st = run s (Idle, T).
Proof.
  intros HS (c & rest & -> & Hc). cbn [run].
  rewrite (step_settled st T c HS Hc). reflexivity.
Qed.

Lemma LexesIdle_Lexes s ts : LexesIdle s ts -> Lexes s ts.
Proof. intros H T. exists (Idle, T ++ ts). split; [apply H | constructor]. Qed.

Lemma LexesIdle_append a b ta tb :
  LexesIdle a ta -> LexesIdle b tb -> LexesIdle (a +:+ b) (ta ++ tb).
Proof.
  intros Ha Hb T. rewrite run_append, Ha, Hb, app_assoc. reflexivity.
Qed.

Lemma LexesIdle_then a b ta tb :
  LexesIdle a ta -> Lexes b tb -> Lexes (a +:+ b) (ta ++ tb).
Proof.
  intros Ha Hb T. rewrite run_append, Ha.
  destruct (Hb (T ++ ta)) as (st & Hrun & HS).
  exists st. split; [exact Hrun |]. rewrite app_assoc. exact HS.
Qed.

Lemma Lexes_then a b ta tb :
  Lexes a ta -> breaksFirst b -> Lexes b tb -> Lexes (a +:+ b) (ta ++ tb).
Proof.
  intros Ha Hfirst Hb T. rewrite run_append.
  destruct (Ha T) as (st & Hrun & HS). rewrite Hrun.
  rewrite (run_settled st _ b HS Hfirst).
  destruct (Hb (T ++ ta)) as (st' & Hrun' & HS').
  exists st'. split; [exact Hrun' |]. rewrite app_assoc. exact HS'.
Qed.

Lemma Lexes_then_idle a b ta tb :
  Lexes a ta -> breaksFirst b -> LexesIdle b tb -> LexesIdle (a +:+ b) (ta ++ tb).
Proof.
  intros Ha Hfirst Hb T. rewrite run_append.
  destruct (Ha T) as (st & Hrun & HS). rewrite Hrun.
  rewrite (run_settled st _ b HS Hfirst), Hb, app_assoc. reflexivity.
Qed.

Lemma breaksFirst_append (a b : string) : breaksFirst a -> breaksFirst (a +:+ b).
Proof.
  intros (c & rest & -> & Hc). exists c, (rest +:+ b). split; [reflexivity | exact Hc].
Qed.

(** **** Punctuation and white space *)

Lemma lex_newline (level : nat) : LexesIdle (newline level) [].
Proof.
  intros T. rewrite app_nil_r. unfold newline. cbn [run step stepIdle].
  change (isWs NL) with true. cbn iota.
  induction level as [| k IH]; [reflexivity | exact IH].
Qed.

Lemma breaksFirst_newline (level : nat) : breaksFirst (newline level).
Proof. exists NL, (indent level). split; reflexivity. Qed.

(** **** Strings *)

Lemma run_quoteChar (c : ascii) (rest acc : string) (T : list token) :
  run (quoteChar c +:+ rest) (InStr acc, T) = run rest (InStr (snoc acc c), T).
Proof.
  destruct c as [[] [] [] [] [] [] [] []]; reflexivity.
Qed.

Lemma snoc_append (acc : string) (c : ascii) (s : string) :
  snoc acc c +:+ s = acc +:+ String c s.
Proof. unfold snoc, str1. rewrite append_assoc. reflexivity. Qed.

Lemma run_quoteBody (s rest acc : string) (T : list token) :
  run (quoteBody s +:+ rest) (InStr acc, T) = run rest (InStr (acc +:+ s), T).
Proof.
  revert acc. induction s as [| c s IH]; intros acc.
  - rewrite append_nil_r. reflexivity.
  - cbn [quoteBody]. rewrite append_assoc, run_quoteChar, IH, snoc_append. reflexivity.
Qed.

Lemma lex_quote (s : string) : LexesIdle (quote s) [TStr s].
Proof.
  intros T. unfold quote. cbn [run step stepIdle].
  change (run (quoteBody s +:+ str1 DQ) (InStr EmptyString, T)
          = Some (Idle, T ++ [TStr s])).
  rewrite run_quoteBody. reflexivity.
Qed.

(** **** Numbers and words *)

Lemma stepIdle_number (c : ascii) (T : list token) :
  (isDigit c || (nat_of_ascii c =? 45)%nat) = true ->
  stepIdle T c = Some (InNum (str1 c), T).
Proof.
  destruct c as [[] [] [] [] [] [] [] []]; intros H; try discriminate H; reflexivity.
Qed.

Lemma run_digits (s lexeme : string) (T : list token) :
  allChars isDigit s = true ->
  run s (InNum lexeme, T) = Some (InNum (lexeme +:+ s), T).
Proof.
  revert lexeme. induction s as [| c s IH]; intros lexeme.
  - intros _. rewrite append_nil_r. reflexivity.
  - cbn [allChars]. intros H. apply andb_prop in H. destruct H as [Hc Hs].
    cbn [run step]. rewrite Hc, (IH _ Hs), snoc_append. reflexivity.
Qed.

Lemma lex_number (n : Z) : Lexes (numberToString n) [TNum n].
Proof.
  intros T. destruct (numberToString_shape n) as (c & rest & Heq & Hc & Hrest).
  exists (InNum (numberToString n), T). split.
  - rewrite Heq. cbn [run step]. rewrite (stepIdle_number c T Hc).
    rewrite (run_digits rest _ T Hrest). reflexivity.
  - apply Settles_number, numberOfLexeme_numberToString.
Qed.

Lemma lex_word (w : string) (t : token) :
  run w (Idle, []) = Some (InWord w, []) -> wordToken w = Some t ->
  (forall T, run w (Idle, T) = Some (InWord w, T)) -> Lexes w [t].
Proof.
  intros _ Ht Hrun T. exists (InWord w, T). split; [apply Hrun |].
  apply Settles_word, Ht.
Qed.

(** *** The tokens of a value *)

(** Induction on a JSON tree, with the property at hand for every item of
    an array and every property value of an object. *)
Lemma json_induction (P : json -> Prop) :
  P JNull ->
  (forall b, P (JBool b)) ->
  (forall n, P (JNum n)) ->
  (forall s, P (JStr s)) ->
  (forall items, Forall P items -> P (JArr items)) ->
  (forall props, Forall (fun kv => P (snd kv)) props -> P (JObj props)) ->
  forall j, P j.
Proof.
  intros Hnull Hbool Hnum Hstr Harr Hobj.
  fix IH 1. intros [| b | n | s | items | props].
  - exact Hnull.
  - apply Hbool.
  - apply Hnum.
  - apply Hstr.
  - apply Harr. induction items as [| x items IHitems]; constructor.
    + apply IH.
    + exact IHitems.
  - apply Hobj. induction props as [| [k x] props IHprops]; constructor.
    + apply IH.
    + exact IHprops.
Qed.

Lemma lex_elements {A} (text : A -> string) (toks : A -> list token)
    (close : string) (tc : list token) (xs : list A) :
  Forall (fun y => Element (text y) (toks y)) xs ->
  breaksFirst close -> LexesIdle close tc ->
  breaksFirst (Js.join (map text xs) +:+ close)
  /\ LexesIdle (Js.join (map text xs) +:+ close)
               (List.concat (map toks xs) ++ tc).
Proof.
  intros Hxs Hfirst Hclose. induction Hxs as [| y xs [Hy1 Hy2] Hxs [IH1 IH2]].
  - split; assumption.
  - cbn [map Js.join fold_right List.concat].
    fold (Js.join (map text xs)).
    rewrite append_assoc, <- app_assoc. split.
    + apply breaksFirst_append, Hy1.
    + apply Hy2; assumption.
Qed.

Lemma lex_char (c : ascii) (t : token) :
  (forall T, stepIdle T c = Some (Idle, T ++ [t])) -> LexesIdle (String c EmptyString) [t].
Proof. intros H T. cbn [run step]. rewrite H. reflexivity. Qed.

Lemma lex_comma : LexesIdle "," [TComma].
Proof. intros T. reflexivity. Qed.

Lemma lex_colon : LexesIdle ": " [TColon].
Proof. intros T. reflexivity. Qed.

Lemma element_of_item (level : nat) (text : string) (ts : list token) :
  Lexes text ts ->
  Element ("," +:+ newline level +:+ text) (TComma :: ts).
Proof.
  intros Hv. split.
  - exists ","%char, (newline level +:+ text). split; reflexivity.
  - intros rest tr Hfirst Hrest.
    rewrite !append_assoc.
    apply (LexesIdle_append "," _ [TComma] (ts ++ tr) lex_comma).
    apply (LexesIdle_append (newline level) _ [] (ts ++ tr) (lex_newline level)).
    apply Lexes_then_idle; assumption.
Qed.

Lemma element_of_member (level : nat) (k text : string) (ts : list token) :
  Lexes text ts ->
  Element ("," +:+ newline level +:+ quote k +:+ ": " +:+ text)
          (TComma :: TStr k :: TColon :: ts).
Proof.
  intros Hv. split.
  - exists ","%char, (newline level +:+ quote k +:+ ": " +:+ text). split; reflexivity.
  - intros rest tr Hfirst Hrest.
    rewrite !append_assoc.
    apply (LexesIdle_append "," _ [TComma] (TStr k :: TColon :: ts ++ tr) lex_comma).
    apply (LexesIdle_append (newline level) _ [] (TStr k :: TColon :: ts ++ tr)
             (lex_newline level)).
    apply (LexesIdle_append (quote k) _ [TStr k] (TColon :: ts ++ tr) (lex_quote k)).
    apply (LexesIdle_append ": " _ [TColon] (ts ++ tr) lex_colon).
    apply Lexes_then_idle; assumption.
Qed.

Lemma lex_close (level : nat) (c : ascii) (t : token) :
  (forall T, stepIdle T c = Some (Idle, T ++ [t])) ->
  breaksFirst (newline level +:+ String c EmptyString)
  /\ LexesIdle (newline level +:+ String c EmptyString) [t].
Proof.
  intros H. split.
  - apply breaksFirst_append, breaksFirst_newline.
  - apply (LexesIdle_append (newline level) _ [] [t] (lex_newline level)).
    apply lex_char, H.
Qed.

(** Printed values read as their tokens. *)
Lemma lex_value (j : json) : forall level, Lexes (stringifyAt level j) (tokensOf j).
Proof.
  induction j as [| b | n | s | items IH | props IH] using json_induction; intros level.
  - apply (lex_word "null" TNull); [reflexivity | reflexivity | intros T; reflexivity].
  - destruct b.
    + apply (lex_word "true" TTrue); [reflexivity | reflexivity | intros T; reflexivity].
    + apply (lex_word "false" TFalse); [reflexivity | reflexivity | intros T; reflexivity].
  - apply lex_number.
  - apply LexesIdle_Lexes, lex_quote.
  - destruct items as [| x xs].
    + apply LexesIdle_Lexes.
      apply (LexesIdle_append "[" "]" [TLBracket] [TRBracket]); intros T; reflexivity.
    + apply LexesIdle_Lexes. cbn [stringifyAt tokensOf].
      inversion IH as [| x' xs' Hx Hxs]; subst.
      destruct (lex_close level "]"%char TRBracket (fun T => eq_refl)) as [Hc1 Hc2].
      destruct (lex_elements
                  (fun y => "," +:+ newline (S level) +:+ stringifyAt (S level) y)
                  (fun y => TComma :: tokensOf y)
                  (newline level +:+ "]") [TRBracket] xs) as [Ht1 Ht2];
        [| exact Hc1 | exact Hc2 |].
      { eapply List.Forall_impl; [| exact Hxs].
        intros y Hy. apply element_of_item, Hy. }
      apply (LexesIdle_append "[" _ [TLBracket]
               (tokensOf x ++ List.concat (map (fun y => TComma :: tokensOf y) xs)
                ++ [TRBracket])); [intros T; reflexivity |].
      apply (LexesIdle_append (newline (S level)) _ []
               (tokensOf x ++ List.concat (map (fun y => TComma :: tokensOf y) xs)
                ++ [TRBracket]) (lex_newline (S level))).
      apply Lexes_then_idle; [apply Hx | exact Ht1 | exact Ht2].
  - destruct props as [| [k x] ps].
    + apply LexesIdle_Lexes.
      apply (LexesIdle_append "{" "}" [TLBrace] [TRBrace]); intros T; reflexivity.
    + apply LexesIdle_Lexes. cbn [stringifyAt tokensOf].
      inversion IH as [| kv' ps' Hx Hps]; subst. cbn [snd] in Hx.
      destruct (lex_close level "}"%char TRBrace (fun T => eq_refl)) as [Hc1 Hc2].
      destruct (lex_elements
                  (fun kv => "," +:+ newline (S level) +:+ quote (fst kv) +:+ ": "
                             +:+ stringifyAt (S level) (snd kv))
                  (fun kv => TComma :: TStr (fst kv) :: TColon :: tokensOf (snd kv))
                  (newline level +:+ "}") [TRBrace] ps) as [Ht1 Ht2];
        [| exact Hc1 | exact Hc2 |].
      { eapply List.Forall_impl; [| exact Hps].
        intros kv Hkv. apply element_of_member, Hkv. }
      set (more := List.concat
                      (map (fun kv => TComma :: TStr (fst kv) :: TColon :: tokensOf (snd kv))
                           ps) ++ [TRBrace]) in *.
      apply (LexesIdle_append "{" _ [TLBrace] (TStr k :: TColon :: tokensOf x ++ more));
        [intros T; reflexivity |].
      apply (LexesIdle_append (newline (S level)) _ []
               (TStr k :: TColon :: tokensOf x ++ more) (lex_newline (S level))).
      apply (LexesIdle_append (quote k) _ [TStr k] (TColon :: tokensOf x ++ more)
               (lex_quote k)).
      apply (LexesIdle_append ": " _ [TColon] (tokensOf x ++ more) lex_colon).
      apply Lexes_then_idle; [apply Hx | exact Ht1 | exact Ht2].
Qed.

Lemma lex_stringify (j : json) : lex (JSON_stringify j) = Some (tokensOf j).
Proof.
  unfold lex, JSON_stringify.
  destruct (lex_value j 0 []) as (st & Hrun & HS).
  rewrite Hrun. apply finish_settled. exact HS.
Qed.

(** *** The parser on the tokens of a value *)

Lemma tokens_nonempty (j : json) : (1 <= length (tokensOf j))%nat.
Proof.
  destruct j as [| [] | n | s | [| x xs] | [| [k x] ps]]; cbn [tokensOf length]; lia.
Qed.

Lemma parseElements_back (xs : list json) :
  Forall ParsesBack xs ->
  forall x fuel rest,
    ParsesBack x ->
    (length (tokensOf x) + length (itemTokens xs) + 1 <= fuel)%nat ->
    parseElements fuel (tokensOf x ++ itemTokens xs ++ TRBracket :: rest)
    = Some (x :: xs, rest).
Proof.
  induction 1 as [| y xs Hy Hxs IH]; intros x fuel rest Hx Hlen.
  - destruct fuel as [| f]; [lia |]. cbn [parseElements itemTokens map List.concat app].
    rewrite (Hx f) by lia. reflexivity.
  - change (itemTokens (y :: xs)) with (TComma :: tokensOf y ++ itemTokens xs) in *.
    cbn [length] in Hlen. rewrite length_app in Hlen.
    pose proof (tokens_nonempty x) as Hx1.
    destruct fuel as [| f]; [lia |]. cbn [parseElements].
    rewrite (Hx f) by lia. cbn [app]. rewrite <- app_assoc.
    rewrite (IH y f rest Hy) by lia. reflexivity.
Qed.

Lemma parseMembers_back (ps : list (string * json)) :
  Forall (fun kv => ParsesBack (snd kv)) ps ->
  forall k x fuel rest,
    ParsesBack x ->
    (2 + length (tokensOf x) + length (memberTokens ps) + 1 <= fuel)%nat ->
    parseMembers fuel (TStr k :: TColon :: tokensOf x ++ memberTokens ps ++ TRBrace :: rest)
    = Some ((k, x) :: ps, rest).
Proof.
  induction 1 as [| [k' y] ps Hy Hps IH]; intros k x fuel rest Hx Hlen.
  - destruct fuel as [| f]; [lia |]. cbn [parseMembers memberTokens map List.concat app].
    rewrite (Hx f) by lia. reflexivity.
  - change (memberTokens ((k', y) :: ps))
      with (TComma :: TStr k' :: TColon :: tokensOf y ++ memberTokens ps) in *.
    cbn [length] in Hlen. rewrite length_app in Hlen. cbn [snd] in Hy.
    destruct fuel as [| f]; [lia |]. cbn [parseMembers].
    rewrite (Hx f) by lia. cbn [app]. rewrite <- app_assoc.
    rewrite (IH k' y f rest Hy) by lia. reflexivity.
Qed.

Lemma parses_back (j : json) : ParsesBack j.
Proof.
  induction j as [| b | n | s | items IH | props IH] using json_induction;
    intros fuel rest Hlen.
  - destruct fuel; [cbn in Hlen; lia | reflexivity].
  - destruct fuel; [destruct b; cbn in Hlen; lia | destruct b; reflexivity].
  - destruct fuel; [cbn in Hlen; lia | reflexivity].
  - destruct fuel; [cbn in Hlen; lia | reflexivity].
  - destruct items as [| x xs].
    + destruct fuel; [cbn in Hlen; lia | reflexivity].
    + inversion IH as [| x' xs' Hx Hxs]; subst.
      change (tokensOf (JArr (x :: xs)))
        with (TLBracket :: tokensOf x ++ itemTokens xs ++ [TRBracket]) in *.
      cbn [length] in Hlen. rewrite !length_app in Hlen. cbn [length] in Hlen.
      destruct fuel as [| f]; [lia |].
      assert (Hgo : parseValue (S f)
                      (TLBracket :: tokensOf x ++ itemTokens xs ++ TRBracket :: rest)
                    = match parseElements f
                              (tokensOf x ++ itemTokens xs ++ TRBracket :: rest) with
                      | Some (l, r') => Some (JArr l, r')
                      | None => None
                      end).
      { cbn [parseValue].
        destruct x as [| [] | n | s | [| x1 xs1] | [| [k1 x1] ps1]]; reflexivity. }
      cbn [app]. rewrite <- !app_assoc. cbn [app].
      rewrite Hgo, (parseElements_back xs Hxs x f rest Hx) by lia. reflexivity.
  - destruct props as [| [k x] ps].
    + destruct fuel; [cbn in Hlen; lia | reflexivity].
    + inversion IH as [| kv' ps' Hx Hps]; subst. cbn [snd] in Hx.
      change (tokensOf (JObj ((k, x) :: ps)))
        with (TLBrace :: TStr k :: TColon :: tokensOf x ++ memberTokens ps ++ [TRBrace]) in *.
      cbn [length] in Hlen. rewrite !length_app in Hlen. cbn [length] in Hlen.
      destruct fuel as [| f]; [lia |].
      cbn [app]. rewrite <- !app_assoc. cbn [app]. cbn [parseValue].
      rewrite (parseMembers_back ps Hps k x f rest Hx) by lia. reflexivity.
Qed.

(** [JSON.parse(JSON.stringify(v, null, 2))] is [v]. *)
Lemma JSON_parse_stringify (j : json) : JSON_parse (JSON_stringify j) = Some j.
Proof.
  unfold JSON_parse. rewrite lex_stringify.
  rewrite <- (app_nil_r (tokensOf j)) at 2.
  rewrite (parses_back j (S (length (tokensOf j))) []) by lia. reflexivity.
Qed.

End JsonFacts.

(** ** Session state *)

Module StateFacts.

Import State StateSpec.

Lemma hasChanged_false (ts : TechnologyState) (previous : option string) :
  TechnologyState_hasChanged ts previous = false <->
  previous = identifierOf (activeTechnology ts).
Proof.
  unfold TechnologyState_hasChanged.
  rewrite negb_false_iff, bool_decide_eq_true. reflexivity.
Qed.

Lemma hasChanged_true (ts : TechnologyState) (previous : option string) :
  TechnologyState_hasChanged ts previous = true <->
  previous <> identifierOf (activeTechnology ts).
Proof.
  unfold TechnologyState_hasChanged.
  rewrite negb_true_iff, bool_decide_eq_false. reflexivity.
Qed.

Lemma setActiveTechnology_changed (st : ServerState) (t : option Technology) :
  identifierOf t <> identifierOf (getActiveTechnology st) ->
  setActiveTechnology st t =
  mkServerState (mkTechnologyState t) (mkFrameworkState None None ∅)
                (mkSearchState (getLastDiscovery st) None).
Proof.
  intros Hne. unfold setActiveTechnology.
  destruct (TechnologyState_hasChanged _ _) eqn:Hc.
  - reflexivity.
  - apply hasChanged_false in Hc. simpl in Hc. congruence.
Qed.

Lemma setActiveTechnology_same (st : ServerState) (t : option Technology) :
  identifierOf t = identifierOf (getActiveTechnology st) ->
  setActiveTechnology st t =
  mkServerState (mkTechnologyState t) (frameworkState st) (searchState st).
Proof.
  intros Heq. unfold setActiveTechnology.
  destruct (TechnologyState_hasChanged _ _) eqn:Hc.
  - apply hasChanged_true in Hc. simpl in Hc. congruence.
  - reflexivity.
Qed.

(** C1.  [setActiveTechnology(t)] with an identifier that differs from the
    active one leaves no framework data, no framework index, no local
    symbol index and an empty set of expanded identifiers; with the same
    identifier it leaves all four as they were. *)
Theorem setActiveTechnology_resets_iff_changed (st : ServerState) (t : option Technology) :
  (identifierOf t <> identifierOf (getActiveTechnology st) ->
   getActiveFrameworkData (setActiveTechnology st t) = None
   /\ getFrameworkIndex (setActiveTechnology st t) = None
   /\ getLocalSymbolIndex (setActiveTechnology st t) = None
   /\ expandedIdentifiers (frameworkState (setActiveTechnology st t)) = ∅)
  /\ (identifierOf t = identifierOf (getActiveTechnology st) ->
      getActiveFrameworkData (setActiveTechnology st t) = getActiveFrameworkData st
      /\ getFrameworkIndex (setActiveTechnology st t) = getFrameworkIndex st
      /\ expandedIdentifiers (frameworkState (setActiveTechnology st t))
         = expandedIdentifiers (frameworkState st)
      /\ getLocalSymbolIndex (setActiveTechnology st t) = getLocalSymbolIndex st).
Proof.
  split; intros H.
  - rewrite (setActiveTechnology_changed st t H). repeat split.
  - rewrite (setActiveTechnology_same st t H). repeat split.
Qed.

Lemma setActiveTechnology_resets_iff_changed_witness :
  (getActiveFrameworkData (setActiveTechnology busySession (Some uiKit)) = None
   /\ getFrameworkIndex (setActiveTechnology busySession (Some uiKit)) = None
   /\ getLocalSymbolIndex (setActiveTechnology busySession (Some uiKit)) = None
   /\ expandedIdentifiers (frameworkState (setActiveTechnology busySession (Some uiKit))) = ∅)
  /\ (getActiveFrameworkData (setActiveTechnology busySession (Some swiftUI))
      = getActiveFrameworkData busySession
      /\ getFrameworkIndex (setActiveTechnology busySession (Some swiftUI))
         = getFrameworkIndex busySession
      /\ expandedIdentifiers (frameworkState (setActiveTechnology busySession (Some swiftUI)))
         = expandedIdentifiers (frameworkState busySession)
      /\ getLocalSymbolIndex (setActiveTechnology busySession (Some swiftUI))
         = getLocalSymbolIndex busySession).
Proof.
  split.
  - apply (proj1 (setActiveTechnology_resets_iff_changed busySession (Some uiKit))).
    vm_compute. discriminate.
  - apply (proj2 (setActiveTechnology_resets_iff_changed busySession (Some swiftUI))).
    reflexivity.
Defined.

End StateFacts.

(** ** The [choose_technology] handler *)

Module ChooseTechnologyFacts.

Import State ChooseTechnology.

(** C10.  When the handler resolves a framework technology, it selects it
    and then clears the active framework data whatever was selected
    before: [getActiveFrameworkData()] is [undefined] right after the
    selection, also when the chosen identifier is the active one, and in
    that case the framework index and the local symbol index stay in
    place. *)
Theorem handler_clears_framework_data
    (values : list Technology) (name identifier_ : option string)
    (st : ServerState) (chosen : Technology) :
  resolve (filter (fun tech => is_Some (title tech) ∧ is_Some (identifier tech)) values)
          name identifier_ = Some chosen ->
  ensureFramework chosen = Ok tt ->
  exists st',
    handler (Ok values) name identifier_ st = (Ok (TechnologySelected chosen), st')
    /\ getActiveTechnology st' = Some chosen
    /\ getActiveFrameworkData st' = None
    /\ (identifier chosen = identifierOf (getActiveTechnology st) ->
        getFrameworkIndex st' = getFrameworkIndex st
        /\ getLocalSymbolIndex st' = getLocalSymbolIndex st
        /\ expandedIdentifiers (frameworkState st')
           = expandedIdentifiers (frameworkState st)).
Proof.
  intros Hres Hfw.
  exists (clearActiveFrameworkData (setActiveTechnology st (Some chosen))).
  split; [| split; [| split]].
  - unfold handler. rewrite Hres, Hfw. reflexivity.
  - unfold setActiveTechnology.
    destruct (TechnologyState_hasChanged _ _); reflexivity.
  - reflexivity.
  - intros Hsame.
    rewrite (StateFacts.setActiveTechnology_same st (Some chosen) Hsame).
    repeat split.
Qed.

Lemma handler_clears_framework_data_witness :
  exists st',
    handler (Ok [StateSpec.uiKit; StateSpec.swiftUI]) (Some "swiftui") None
            StateSpec.busySession
    = (Ok (TechnologySelected StateSpec.swiftUI), st')
    /\ getActiveTechnology st' = Some StateSpec.swiftUI
    /\ getActiveFrameworkData st' = None
    /\ (identifier StateSpec.swiftUI
        = identifierOf (getActiveTechnology StateSpec.busySession) ->
        getFrameworkIndex st' = getFrameworkIndex StateSpec.busySession
        /\ getLocalSymbolIndex st' = getLocalSymbolIndex StateSpec.busySession
        /\ expandedIdentifiers (frameworkState st')
           = expandedIdentifiers (frameworkState StateSpec.busySession)).
Proof.
  apply (handler_clears_framework_data
           [StateSpec.uiKit; StateSpec.swiftUI] (Some "swiftui") None
           StateSpec.busySession StateSpec.swiftUI).
  - vm_compute. reflexivity.
  - reflexivity.
Defined.

End ChooseTechnologyFacts.

(** ** The local symbol index: what a build stores *)

Module IndexFacts.

Import Index IndexSpec.

Lemma mapSet_Forall (P : string * LocalSymbolIndexEntry -> Prop)
    (m : SymbolMap) (k : string) (v : LocalSymbolIndexEntry) :
  Forall P m -> P (k, v) -> Forall P (mapSet m k v).
Proof.
  intros Hm Hkv. induction Hm as [| [k' v'] rest Hx Hrest IH]; simpl.
  - constructor; [assumption | constructor].
  - destruct (String.eqb k k'); constructor; assumption.
Qed.

Lemma mapGet_In (m : SymbolMap) (k : string) (v : LocalSymbolIndexEntry) :
  mapGet m k = Some v -> In (k, v) m.
Proof.
  induction m as [| [k' v'] rest IH]; simpl; [discriminate |].
  destruct (String.eqb k k') eqn:Hk.
  - intros [= ->]. apply String.eqb_eq in Hk. subst. left. reflexivity.
  - intros H. right. apply IH, H.
Qed.

(** A property of stored entries is kept by a build as soon as the entry
    of every document and of every symbol reference that passes the
    technology filter has it. *)
Section StoredEntries.

Variable technology : option string.
Variable P : string * LocalSymbolIndexEntry -> Prop.

Hypothesis document_ok : forall data file,
  filteredOut technology (documentPath data) = false ->
  P (Js.orElse (documentPath data) (documentTitle data), documentEntry data file).

Hypothesis reference_ok : forall refId ref file,
  isSymbolReference ref = true ->
  filteredOut technology (default EmptyString (Json.getString "url" ref)) = false ->
  P (refId, referenceEntry refId ref file).

Lemma processReference_Stored index file reference :
  Stored technology P index -> Stored technology P (processReference index file reference).
Proof.
  intros [Ht Hs]. destruct reference as [refId ref]. unfold processReference.
  destruct (isSymbolReference ref) eqn:Hsym; [| split; assumption].
  destruct (filteredOut _ _) eqn:Hf; [split; assumption |].
  split; [exact Ht |]. simpl.
  apply mapSet_Forall; [assumption |].
  apply reference_ok; [assumption |]. rewrite <- Ht. exact Hf.
Qed.

Lemma processReferences_Stored index references file :
  Stored technology P index -> Stored technology P (processReferences index references file).
Proof.
  unfold processReferences.
  destruct references as [[| | | | | entries] |]; try (intros H; exact H).
  revert index. induction entries as [| r entries IH]; intros index H; simpl.
  - exact H.
  - apply IH. apply processReference_Stored. exact H.
Qed.

Lemma processSymbolData_Stored index data file :
  Stored technology P index -> Stored technology P (processSymbolData index data file).
Proof.
  intros [Ht Hs]. unfold processSymbolData.
  destruct (filteredOut _ _) eqn:Hf; [split; assumption |].
  apply processReferences_Stored. split; [exact Ht |]. simpl.
  apply mapSet_Forall; [assumption |].
  apply document_ok. rewrite <- Ht. exact Hf.
Qed.

Lemma processFile_Stored index file read :
  Stored technology P index -> Stored technology P (fst (processFile index file read)).
Proof.
  intros H. unfold processFile.
  destruct read as [raw | e]; [| exact H].
  destruct (JsonText.JSON_parse raw) as [parsed |]; [| exact H].
  destruct (Schema.safeParse Schema.SymbolDataSchema parsed) as [data |].
  - simpl. apply processSymbolData_Stored. exact H.
  - destruct (Schema.safeParse Schema.FrameworkDataSchema parsed) as [data |].
    + simpl. apply processSymbolData_Stored. exact H.
    + exact H.
Qed.

Lemma processBatch_Stored fs acc batch :
  Stored technology P (fst acc) -> Stored technology P (fst (processBatch fs acc batch)).
Proof.
  unfold processBatch. revert acc.
  induction batch as [| file batch IH]; intros acc H; simpl.
  - exact H.
  - apply IH. destruct acc as [index counts].
    pose proof (processFile_Stored index file (fst (Fs.readFile file fs)) H) as H'.
    destruct (processFile index file _) as [index' success]. exact H'.
Qed.

Lemma processAllBatches_Stored batchSize fs index fileNames :
  Stored technology P index -> Stored technology P (fst (processAllBatches batchSize fs index fileNames)).
Proof.
  unfold processAllBatches. intros H.
  generalize (batchStarts (length fileNames) (Pos.to_nat batchSize)).
  assert (Hacc : Stored technology P (fst (index, mkCounts 0 0))) by exact H.
  revert Hacc. generalize (index, mkCounts 0 0). clear H.
  intros acc Hacc starts. revert acc Hacc.
  induction starts as [| start starts IH]; intros acc Hacc; simpl.
  - exact Hacc.
  - apply IH. apply processBatch_Stored. exact Hacc.
Qed.

Lemma setState_Stored index s : Stored technology P index -> Stored technology P (setState index s).
Proof. intros [Ht Hs]. split; assumption. Qed.

Lemma buildIndexFromCache_Stored batchSize fs index :
  Stored technology P index -> Stored technology P (snd (buildIndexFromCache batchSize fs index)).
Proof.
  intros H. unfold buildIndexFromCache.
  destruct (state index); try exact H.
  - destruct (fst (Fs.access fs)); [| apply setState_Stored, setState_Stored, H].
    destruct (fst (Fs.readdir fs)) as [allFiles | e];
      [| apply setState_Stored, setState_Stored, H].
    pose proof (processAllBatches_Stored batchSize fs (setState index Building)
                  (filter (fun file => Js.endsWith file ".json" = true) allFiles)
                  (setState_Stored index Building H)) as H'.
    destruct (processAllBatches _ _ _ _) as [index' counts].
    apply setState_Stored. exact H'.
  - destruct (fst (Fs.access fs)); [| apply setState_Stored, setState_Stored, H].
    destruct (fst (Fs.readdir fs)) as [allFiles | e];
      [| apply setState_Stored, setState_Stored, H].
    pose proof (processAllBatches_Stored batchSize fs (setState index Building)
                  (filter (fun file => Js.endsWith file ".json" = true) allFiles)
                  (setState_Stored index Building H)) as H'.
    destruct (processAllBatches _ _ _ _) as [index' counts].
    apply setState_Stored. exact H'.
Qed.

Lemma create_Stored dir : Stored technology P (create dir technology).
Proof. split; [reflexivity | constructor]. Qed.

End StoredEntries.

(** *** Identity of stored entries *)




(** *** The technology filter *)

Lemma includes_empty (s : string) : Js.includes s EmptyString = true.
Proof. destruct s; reflexivity. Qed.

Lemma filteredOut_true (t p : string) :
  filteredOut (Some t) p = true <->
  t <> EmptyString /\ p <> EmptyString
  /\ Js.includes (Js.toLowerCase p) (Js.toLowerCase t) = false.
Proof.
  unfold filteredOut. rewrite !andb_true_iff, negb_true_iff.
  destruct t, p; simpl; intuition congruence.
Qed.

Lemma filteredOut_false (t p : string) :
  filteredOut (Some t) p = false ->
  p = EmptyString \/ Js.includes (Js.toLowerCase p) (Js.toLowerCase t) = true.
Proof.
  unfold filteredOut. destruct t as [| c t].
  - intros _. right. apply includes_empty.
  - destruct p as [| d p]; [left; reflexivity |].
    cbn [Js.nonEmpty andb]. rewrite negb_false_iff. intros H. right. exact H.
Qed.




End IndexFacts.

(** ** The persistent cache store: loading *)

Module FileCacheFacts.

Import JsonText Schema FileCache FileCacheSpec.

Lemma readFile_world (name : string) (fs : FileSystem) :
  snd (Fs.readFile name fs) = fs.
Proof.
  unfold Fs.readFile. destruct (dirStatus fs); [| reflexivity].
  destruct (files fs !! name) as [[content | code] |]; reflexivity.
Qed.

(** The [try]/[catch] of a load, on an unusable file. *)
Lemma load_body_unusable (schema : Schema.Schema) (name : string) (fs : FileSystem) :
  Unusable schema name fs ->
  Eff.tryCatch
    (raw <~ Fs.readFile name ;;
     parsed <~ parseJson raw ;;
     match safeParse schema parsed with
     | None => Eff.ret None
     | Some data => Eff.ret (Some data)
     end)
    onLoadError fs = (Ok None, fs).
Proof.
  intros H. unfold Eff.tryCatch, Eff.bind.
  pose proof (readFile_world name fs) as Hw.
  destruct H as [Hr | raw Hr Hp | raw parsed Hr Hp Hs];
    destruct (Fs.readFile name fs) as [r w]; simpl in Hw, Hr; subst w r.
  - reflexivity.
  - unfold parseJson. rewrite Hp. reflexivity.
  - unfold parseJson. rewrite Hp. unfold Eff.ret, safeParse. rewrite Hs. reflexivity.
Qed.

Lemma unusable_after_mkdir (schema : Schema.Schema) (name : string) (fs fs' : FileSystem) :
  Fs.mkdir fs = (Ok tt, fs') -> Unusable schema name fs -> Unusable schema name fs'.
Proof.
  unfold Fs.mkdir. destruct fs as [status fls wf]. simpl.
  destruct status as [| [code |]]; intros Heq; try discriminate;
    injection Heq as <-; [auto |].
  intros _. apply Absent. reflexivity.
Qed.

(** C7, as stated, fails for [loadFramework]: with no cache directory and
    no permission to create one the file is absent, and the load raises
    the error of [mkdir] instead of returning [undefined]. *)
Lemma loadFramework_raises_without_directory :
  Unusable FrameworkDataSchema (getCachePath "SwiftUI") unwritableHome
  /\ fst (loadFramework "SwiftUI" unwritableHome) = Throw (ErrnoException "EACCES").
Proof.
  split.
  - apply Absent. reflexivity.
  - reflexivity.
Qed.

(** C7, amended.  [loadSymbol] returns [undefined] and does not raise when
    the file is absent, unparseable or schema-invalid; [loadFramework] does
    so too once the cache directory exists or could be created, and raises
    the error of creating it otherwise. *)
Theorem load_unusable_is_miss :
  (forall sha256hex path fs,
     Unusable SymbolDataSchema (symbolFile sha256hex path) fs ->
     loadSymbol sha256hex path fs = (Ok None, fs))
  /\ (forall name fs,
        Unusable FrameworkDataSchema (getCachePath name) fs ->
        fst (Fs.mkdir fs) = Ok tt ->
        fst (loadFramework name fs) = Ok None)
  /\ (forall name fs e,
        fst (Fs.mkdir fs) = Throw e ->
        fst (loadFramework name fs) = Throw e).
Proof.
  split; [| split].
  - intros sha256hex path fs H. unfold loadSymbol. apply load_body_unusable, H.
  - intros name fs H Hmk. unfold loadFramework, ensureCacheDir.
    unfold Eff.bind at 1.
    destruct (Fs.mkdir fs) as [r fs'] eqn:Hm. simpl in Hmk. subst r.
    rewrite (load_body_unusable _ _ fs'); [reflexivity |].
    eapply unusable_after_mkdir; eassumption.
  - intros name fs e Hmk. unfold loadFramework, ensureCacheDir.
    unfold Eff.bind at 1.
    destruct (Fs.mkdir fs) as [r fs']. simpl in Hmk. subst r. reflexivity.
Qed.

Lemma load_unusable_is_miss_witness :
  loadSymbol (fun _ => "00112233445566778899aabbccddeeff") "documentation/swiftui/view"
             brokenCache = (Ok None, brokenCache)
  /\ fst (loadFramework "SwiftUI" brokenCache) = Ok None
  /\ fst (loadFramework "UIKit" brokenCache) = Ok None
  /\ fst (loadFramework "SwiftUI" unwritableHome) = Throw (ErrnoException "EACCES").
Proof.
  split; [| split; [| split]].
  - apply (proj1 load_unusable_is_miss). apply Absent. reflexivity.
  - apply (proj1 (proj2 load_unusable_is_miss)); [| reflexivity].
    apply Corrupted with (raw := "{ invalid json"); reflexivity.
  - apply (proj1 (proj2 load_unusable_is_miss)); [| reflexivity].
    apply Invalid with (raw := "{}") (parsed := JObj []); reflexivity.
  - apply (proj2 (proj2 load_unusable_is_miss)). reflexivity.
Defined.

(** *** Saving, then loading *)

(** A successful write leaves the text in the directory. *)
Lemma writeFile_ok (name content : string) (fs fs' : FileSystem) :
  Fs.writeFile name content fs = (Ok tt, fs') ->
  dirStatus fs' = DirPresent /\ files fs' !! name = Some (FileText content).
Proof.
  unfold Fs.writeFile. destruct (dirStatus fs); [| discriminate].
  destruct (writeFault fs); [discriminate |].
  intros [= <-]. split; [reflexivity |]. simpl. apply lookup_insert_eq.
Qed.

Lemma save_ok (name : string) (data : json) (fs fs' : FileSystem) :
  (ensureCacheDir ;;; Fs.writeFile name (JSON_stringify data)) fs = (Ok tt, fs') ->
  dirStatus fs' = DirPresent
  /\ files fs' !! name = Some (FileText (JSON_stringify data)).
Proof.
  unfold Eff.bind, ensureCacheDir.
  destruct (Fs.mkdir fs) as [[u | e] fs1]; [| discriminate].
  apply writeFile_ok.
Qed.

(** The [try]/[catch] of a load, on a file that holds a printed valid
    value. *)
Lemma load_body_saved (schema : Schema.Schema) (name : string) (data : json)
    (fs : FileSystem) :
  dirStatus fs = DirPresent ->
  files fs !! name = Some (FileText (JSON_stringify data)) ->
  schema data = true ->
  Eff.tryCatch
    (raw <~ Fs.readFile name ;;
     parsed <~ parseJson raw ;;
     match safeParse schema parsed with
     | None => Eff.ret None
     | Some data => Eff.ret (Some data)
     end)
    onLoadError fs = (Ok (Some data), fs).
Proof.
  intros Hdir Hfile Hvalid.
  unfold Eff.tryCatch, Eff.bind, Fs.readFile. rewrite Hdir, Hfile.
  unfold parseJson. rewrite JsonFacts.JSON_parse_stringify.
  unfold Eff.ret, safeParse. rewrite Hvalid. reflexivity.
Qed.



End FileCacheFacts.

(** ** The documentation client: read-through caching *)

Module ClientFacts.

Import AppleDevDocsClient FileCacheSpec ClientSpec.

Lemma onFst_run {W1 W2 A} (m : Eff W1 A) (w1 : W1) (w2 : W2) :
  Eff.onFst m (w1, w2) = (fst (m w1), (snd (m w1), w2)).
Proof. unfold Eff.onFst. simpl. destruct (m w1); reflexivity. Qed.

Lemma onSnd_run {W1 W2 A} (m : Eff W2 A) (w1 : W1) (w2 : W2) :
  Eff.onSnd m (w1, w2) = (fst (m w2), (w1, snd (m w2))).
Proof. unfold Eff.onSnd. simpl. destruct (m w2); reflexivity. Qed.

(** C3, as stated, fails: with a full disk the cache misses, the transport
    delivers the framework, the write fails, and [getFramework] fails with
    the error of the write. *)
Lemma getFramework_fails_when_save_fails :
  fst (FileCache.loadFramework "SwiftUI" fullDisk) = Ok None
  /\ fst (HttpClient.getDocumentation defaultHttpConfig "documentation/SwiftUI" reliableNet)
     = Ok swiftUIData
  /\ fst (getFramework defaultHttpConfig "SwiftUI" (fullDisk, reliableNet))
     = Throw (ErrnoException "ENOSPC").
Proof. repeat split; vm_compute; reflexivity. Qed.

(** C3, amended.  When the persistent cache misses and the transport
    delivers a value, [getFramework] and [getSymbol] write that value to
    the persistent store and return it if the write succeeds; if the write
    fails, the call fails with the error of the write. *)
Theorem miss_fetches_then_saves (sha256hex : string -> string) (config : HttpConfig) :
  (forall name fs net fs1 value net1,
     FileCache.loadFramework name fs = (Ok None, fs1) ->
     HttpClient.getDocumentation config ("documentation/" +:+ name) net = (Ok value, net1) ->
     getFramework config name (fs, net)
     = afterSave value (FileCache.saveFramework name value fs1) net1)
  /\ (forall path fs net fs1 value net1,
        let cleanPath := match path with String "/"%char rest => rest | _ => path end in
        FileCache.loadSymbol sha256hex cleanPath fs = (Ok None, fs1) ->
        HttpClient.getDocumentation config cleanPath net = (Ok value, net1) ->
        getSymbol sha256hex config path (fs, net)
        = afterSave value (FileCache.saveSymbol sha256hex cleanPath value fs1) net1).
Proof.
  split.
  - intros name fs net fs1 value net1 Hload Hget.
    unfold getFramework. unfold Eff.bind at 1. rewrite onFst_run, Hload. simpl.
    unfold Eff.bind at 1. rewrite onSnd_run, Hget. simpl.
    unfold Eff.bind. rewrite onFst_run. unfold afterSave.
    destruct (FileCache.saveFramework name value fs1) as [[u | e] fs2]; reflexivity.
  - intros path fs net fs1 value net1 cleanPath Hload Hget.
    unfold getSymbol. fold cleanPath.
    unfold Eff.bind at 1. rewrite onFst_run, Hload. simpl.
    unfold Eff.bind at 1. rewrite onSnd_run, Hget. simpl.
    unfold Eff.bind. rewrite onFst_run. unfold afterSave.
    destruct (FileCache.saveSymbol sha256hex cleanPath value fs1) as [[u | e] fs2];
      reflexivity.
Qed.

Lemma miss_fetches_then_saves_witness :
  fst (getFramework defaultHttpConfig "SwiftUI" (emptyCache, reliableNet)) = Ok swiftUIData
  /\ fst (getSymbol digest defaultHttpConfig "/documentation/swiftui" (fullDisk, reliableNet))
     = Throw (ErrnoException "ENOSPC").
Proof.
  split.
  - rewrite (proj1 (miss_fetches_then_saves digest defaultHttpConfig)
               "SwiftUI" emptyCache reliableNet
               (snd (FileCache.loadFramework "SwiftUI" emptyCache)) swiftUIData
               (snd (HttpClient.getDocumentation defaultHttpConfig
                       "documentation/SwiftUI" reliableNet))).
    + vm_compute. reflexivity.
    + vm_compute. reflexivity.
    + vm_compute. reflexivity.
  - rewrite (proj2 (miss_fetches_then_saves digest defaultHttpConfig)
               "/documentation/swiftui" fullDisk reliableNet
               (snd (FileCache.loadSymbol digest "documentation/swiftui" fullDisk))
               swiftUIData
               (snd (HttpClient.getDocumentation defaultHttpConfig
                       "documentation/swiftui" reliableNet))).
    + vm_compute. reflexivity.
    + vm_compute. reflexivity.
    + vm_compute. reflexivity.
Defined.

End ClientFacts.

(** ** The transport client: retry and backoff *)

Module HttpFacts.

Import HttpClient HttpSpec.

Lemma makeRequest_unfold (config : HttpConfig) (path : string) (attempt : Z) (w : Net) :
  makeRequest config path attempt w =
  match attemptRequest (baseUrl config +:+ "/" +:+ path) w with
  | (Ok value, w') => (Ok value, w')
  | (Throw error, w') =>
      if isRetryableError error && (attempt <? maxRetryAttempts config)
      then makeRequest config path (attempt + 1)
             (snd (delay (baseRetryDelayMs config * 2 ^ (attempt - 1)) w'))
      else (Throw (FetchError error), w')
  end.
Proof.
  simp makeRequest.
  destruct (attemptRequest _ w) as [[value | error] w']; simpl.
  - reflexivity.
  - destruct (Z_lt_dec attempt (maxRetryAttempts config)) as [Hlt | Hge]; simpl.
    + apply Z.ltb_lt in Hlt. rewrite Hlt, andb_true_r. reflexivity.
    + apply Z.ltb_nlt in Hge. rewrite Hge, andb_false_r. reflexivity.
Qed.

Lemma attemptRequest_failure (url : string) (w : Net) (error : Thrown) :
  cacheMisses url w ->
  transport w url (calls w) = Throw error ->
  attemptRequest url w = (Throw error, called w).
Proof.
  intros Hmiss Hcall. unfold attemptRequest, Eff.bind, cacheGet, MemoryCache.get.
  rewrite Hmiss. unfold axiosGet. simpl. rewrite Hcall.
  destruct w as [t c d [entries ttl size] k]. reflexivity.
Qed.

Lemma attemptRequest_success (url : string) (w : Net) (value : json) :
  cacheMisses url w ->
  transport w url (calls w) = Ok value ->
  validateResponse value url = Ok tt ->
  exists w',
    attemptRequest url w = (Ok value, w')
    /\ calls w' = S (calls w) /\ delays w' = delays w.
Proof.
  intros Hmiss Hcall Hvalid. unfold attemptRequest, Eff.bind, cacheGet, MemoryCache.get.
  rewrite Hmiss. unfold axiosGet. simpl. rewrite Hcall, Hvalid. simpl.
  eexists. split; [reflexivity |]. split; reflexivity.
Qed.

Lemma isRetryableError_code (code : string) (status : option Z) :
  retryableCode code -> isRetryableError (AxiosError (Some code) status) = true.
Proof. intros [-> | [-> | ->]]; reflexivity. Qed.

Lemma isRetryableError_status (code : option string) (status : Z) :
  retryableStatus status -> isRetryableError (AxiosError code (Some status)) = true.
Proof.
  intros H. unfold isRetryableError. apply orb_true_iff. right.
  destruct H as [-> | [-> | [-> | [-> | ->]]]]; reflexivity.
Qed.

(** C6.  The default maximum is 3 attempts.  A retryable failure of
    attempt [n] below the maximum is followed by exactly one delay of
    [baseDelay * 2^(n-1)] and then by attempt [n+1]; the network codes
    ECONNRESET/ETIMEDOUT/ECONNABORTED and the statuses
    429/500/502/503/504 are retryable; a transport that fails twice
    retryably and then succeeds is called exactly 3 times, with the delays
    [baseDelay] and [baseDelay*2] in between, and the third result is
    returned; and a failure of the last allowed attempt is raised wrapped,
    with that error as its cause. *)
Theorem retry_with_exponential_backoff (config : HttpConfig) (path : string) :
  let url := baseUrl config +:+ "/" +:+ path in
  maxRetryAttempts defaultHttpConfig = 3
  /\ (forall n w error w',
        attemptRequest url w = (Throw error, w') ->
        isRetryableError error = true ->
        1 <= n < maxRetryAttempts config ->
        makeRequest config path n w
        = makeRequest config path (n + 1) (slept (baseRetryDelayMs config * 2 ^ (n - 1)) w'))
  /\ (forall code status, retryableCode code ->
        isRetryableError (AxiosError (Some code) status) = true)
  /\ (forall code status, retryableStatus status ->
        isRetryableError (AxiosError code (Some status)) = true)
  /\ (forall w e1 e2 value,
        3 <= maxRetryAttempts config ->
        cacheMisses url w ->
        transport w url (calls w) = Throw e1 -> isRetryableError e1 = true ->
        transport w url (S (calls w)) = Throw e2 -> isRetryableError e2 = true ->
        transport w url (S (S (calls w))) = Ok value ->
        validateResponse value url = Ok tt ->
        exists w',
          makeRequest config path 1 w = (Ok value, w')
          /\ calls w' = (calls w + 3)%nat
          /\ delays w' = delays w ++ [baseRetryDelayMs config; baseRetryDelayMs config * 2])
  /\ (forall n w error w',
        attemptRequest url w = (Throw error, w') ->
        maxRetryAttempts config <= n ->
        makeRequest config path n w = (Throw (FetchError error), w')).
Proof.
  intros url. split; [reflexivity |]. split; [| split; [| split; [| split]]].
  - intros n w error w' Hfail Hretry [_ Hn].
    rewrite makeRequest_unfold. fold url. rewrite Hfail, Hretry.
    apply Z.ltb_lt in Hn. rewrite Hn. reflexivity.
  - intros code status. apply isRetryableError_code.
  - intros code status. apply isRetryableError_status.
  - intros w e1 e2 value Hmax Hmiss H1 Hr1 H2 Hr2 H3 Hvalid.
    rewrite makeRequest_unfold. fold url.
    rewrite (attemptRequest_failure url w e1 Hmiss H1), Hr1.
    replace (1 <? maxRetryAttempts config) with true by (symmetry; apply Z.ltb_lt; lia).
    cbn [andb]. rewrite makeRequest_unfold. fold url.
    rewrite (attemptRequest_failure url _ e2); [| exact Hmiss | exact H2].
    rewrite Hr2.
    replace (1 + 1 <? maxRetryAttempts config) with true by (symmetry; apply Z.ltb_lt; lia).
    cbn [andb]. rewrite makeRequest_unfold. fold url.
    destruct (attemptRequest_success url
                (snd (delay (baseRetryDelayMs config * 2 ^ (1 + 1 - 1))
                   (called (snd (delay (baseRetryDelayMs config * 2 ^ (1 - 1)) (called w))))))
                value)
      as (w' & Hok & Hcalls & Hdelays); [exact Hmiss | exact H3 | exact Hvalid |].
    rewrite Hok. exists w'. split; [reflexivity |]. split.
    + rewrite Hcalls. simpl. lia.
    + rewrite Hdelays. simpl. rewrite <- app_assoc. simpl.
      rewrite Z.mul_1_r. reflexivity.
  - intros n w error w' Hfail Hn.
    rewrite makeRequest_unfold. fold url. rewrite Hfail.
    replace (n <? maxRetryAttempts config) with false by (symmetry; apply Z.ltb_ge; lia).
    rewrite andb_false_r. reflexivity.
Qed.

Lemma retry_with_exponential_backoff_witness :
  (exists w',
     makeRequest defaultHttpConfig "documentation/swiftui.json" 1 flakyNet
     = (Ok frameworkPayload, w')
     /\ calls w' = 3%nat /\ delays w' = [500; 1000])
  /\ makeRequest defaultHttpConfig "documentation/swiftui.json" 2 deadNet
     = makeRequest defaultHttpConfig "documentation/swiftui.json" 3
         (slept 1000 (called deadNet))
  /\ makeRequest defaultHttpConfig "documentation/swiftui.json" 3 deadNet
     = (Throw (FetchError serviceUnavailable), called deadNet).
Proof.
  pose proof (retry_with_exponential_backoff defaultHttpConfig "documentation/swiftui.json")
    as (_ & Hstep & _ & _ & Hflaky & Hlast).
  split; [| split].
  - apply (Hflaky flakyNet serviceUnavailable connectionReset frameworkPayload);
      first [reflexivity | simpl; lia].
  - apply (Hstep 2 deadNet serviceUnavailable (called deadNet)).
    + reflexivity.
    + reflexivity.
    + simpl. lia.
  - apply (Hlast 3 deadNet serviceUnavailable (called deadNet)).
    + reflexivity.
    + simpl. lia.
Defined.

End HttpFacts.

(** ** The tokenizer *)

Module TokenizerFacts.

Import Tokenizer TokenizerSpec StringSpec StringFacts.

Lemma arrayIncludes_In (l : list string) (x : string) :
  Js.arrayIncludes l x = true <-> In x l.
Proof.
  unfold Js.arrayIncludes. rewrite existsb_exists. split.
  - intros (y & Hy & E). apply String.eqb_eq in E. subst. exact Hy.
  - intros H. exists x. split; [exact H | apply String.eqb_refl].
Qed.

Lemma setAdd_In (l : list string) (y x : string) :
  In x (Js.setAdd l y) <-> In x l \/ x = y.
Proof.
  unfold Js.setAdd. destruct (Js.arrayIncludes l y) eqn:E.
  - apply arrayIncludes_In in E. split; [auto |]. intros [H | ->]; assumption.
  - rewrite in_app_iff. simpl. intuition.
Qed.

Lemma setAdd_NoDup (l : list string) (y : string) :
  List.NoDup l -> List.NoDup (Js.setAdd l y).
Proof.
  intros H. unfold Js.setAdd. destruct (Js.arrayIncludes l y) eqn:E; [exact H |].
  assert (Hn : ~ In y l).
  { intros Hin. apply arrayIncludes_In in Hin. congruence. }
  clear E. induction H as [| x l Hx H IH]; simpl.
  - constructor; [intros [] | constructor].
  - constructor.
    + rewrite in_app_iff. simpl. intros [Hin | [-> | []]]; [contradiction |].
      apply Hn. left. reflexivity.
    + apply IH. intros Hin. apply Hn. right. exact Hin.
Qed.

Lemma addAll_In (more l : list string) (x : string) :
  In x (addAll l more) <-> In x l \/ In x more.
Proof.
  unfold addAll. revert l. induction more as [| y more IH]; intros l; simpl.
  - tauto.
  - rewrite IH, setAdd_In. intuition.
Qed.

Lemma addAll_NoDup (more l : list string) :
  List.NoDup l -> List.NoDup (addAll l more).
Proof.
  unfold addAll. revert l. induction more as [| y more IH]; intros l H; simpl.
  - exact H.
  - apply IH, setAdd_NoDup, H.
Qed.

Lemma splitBeforeUpper_join (s cur : string) :
  Js.join (Js.splitBeforeUpper cur s) = cur +:+ s.
Proof.
  revert cur. induction s as [| c s IH]; intros cur; simpl.
  - destruct cur; [reflexivity |]. simpl. rewrite !append_nil_r. reflexivity.
  - destruct (Js.isUpper c).
    + destruct cur as [| d cur].
      * rewrite IH. reflexivity.
      * unfold Js.join in *. simpl. rewrite IH. reflexivity.
    + rewrite IH, append_assoc. reflexivity.
Qed.

(** The loop over the parts of a word. *)
Lemma add_parts_In (camelParts tokens : list string) (x : string) :
  In x (fold_left (fun acc part => Js.setAdd (Js.setAdd acc (Js.toLowerCase part)) part)
                  camelParts tokens)
  <-> In x tokens
      \/ exists part, In part camelParts /\ (x = part \/ x = Js.toLowerCase part).
Proof.
  revert tokens. induction camelParts as [| p ps IH]; intros tokens; simpl.
  - split; [auto |]. intros [H | (part & [] & _)]. exact H.
  - rewrite IH, !setAdd_In. split.
    + intros [[[H | ->] | ->] | (part & Hin & Hx)].
      * left. exact H.
      * right. exists p. auto.
      * right. exists p. auto.
      * right. exists part. auto.
    + intros [H | (part & [-> | Hin] & Hx)].
      * auto.
      * destruct Hx as [-> | ->]; auto.
      * right. exists part. auto.
Qed.

Lemma add_parts_NoDup (camelParts tokens : list string) :
  List.NoDup tokens ->
  List.NoDup (fold_left (fun acc part => Js.setAdd (Js.setAdd acc (Js.toLowerCase part)) part)
                        camelParts tokens).
Proof.
  revert tokens. induction camelParts as [| p ps IH]; intros tokens H; simpl.
  - exact H.
  - apply IH. apply setAdd_NoDup, setAdd_NoDup, H.
Qed.

Lemma addToken_In (tokens : list string) (word x : string) :
  In x (addToken tokens word) <-> In x tokens \/ tokenOf word x.
Proof.
  unfold addToken, tokenOf, parts.
  pose proof (splitBeforeUpper_join word EmptyString) as Hjoin.
  rewrite append_nil_l in Hjoin.
  destruct (1 <? length (Js.splitBeforeUpper EmptyString word))%nat eqn:Hlen.
  - rewrite setAdd_In, add_parts_In, !setAdd_In, Hjoin. intuition.
  - rewrite !setAdd_In. apply Nat.ltb_ge in Hlen. split; [intuition |].
    intros [H | [-> | [-> | (part & Hin & Hx)]]]; auto.
    destruct (Js.splitBeforeUpper EmptyString word) as [| p [| q ps]];
      [destruct Hin | | simpl in Hlen; lia].
    destruct Hin as [<- | []]. unfold Js.join in Hjoin. simpl in Hjoin.
    rewrite append_nil_r in Hjoin. subst p. destruct Hx as [-> | ->]; auto.
Qed.

Lemma addToken_NoDup (tokens : list string) (word : string) :
  List.NoDup tokens -> List.NoDup (addToken tokens word).
Proof.
  intros H. unfold addToken.
  destruct (1 <? length _)%nat.
  - apply setAdd_NoDup, add_parts_NoDup, setAdd_NoDup, setAdd_NoDup, H.
  - apply setAdd_NoDup, setAdd_NoDup, H.
Qed.

Lemma fold_addToken_In (ws tokens : list string) (x : string) :
  In x (fold_left addToken ws tokens)
  <-> In x tokens \/ exists word, In word ws /\ tokenOf word x.
Proof.
  revert tokens. induction ws as [| w ws IH]; intros tokens; simpl.
  - split; [auto |]. intros [H | (word & [] & _)]. exact H.
  - rewrite IH, addToken_In. split.
    + intros [[H | H] | (word & Hin & H)]; [auto | |].
      * right. exists w. auto.
      * right. exists word. auto.
    + intros [H | (word & [-> | Hin] & H)]; [auto | auto |].
      right. exists word. auto.
Qed.

Lemma fold_addToken_NoDup (ws tokens : list string) :
  List.NoDup tokens -> List.NoDup (fold_left addToken ws tokens).
Proof.
  revert tokens. induction ws as [| w ws IH]; intros tokens H; simpl.
  - exact H.
  - apply IH, addToken_NoDup, H.
Qed.

Lemma words_nil : words EmptyString = [].
Proof. reflexivity. Qed.

Lemma tokenize_NoDup (text : string) : List.NoDup (tokenize text).
Proof.
  unfold tokenize. destruct text as [| c text]; [constructor |].
  apply fold_addToken_NoDup. constructor.
Qed.

Lemma tokenize_In (text token : string) :
  In token (tokenize text) <-> exists word, In word (words text) /\ tokenOf word token.
Proof.
  unfold tokenize, words. destruct text as [| c text].
  - simpl. split; [intros [] |]. intros (word & [] & _).
  - rewrite fold_addToken_In. split.
    + intros [[] | H]. exact H.
    + auto.
Qed.

(** X13.  The tokens of a text are, as a set, its words (the maximal runs
    of characters other than white space, [/], [.], [_] and [-]), the parts
    of each word cut before its upper-case letters, and the lower-case
    forms of all these; no token is listed twice. *)
Theorem tokenize_characterised (text : string) :
  List.NoDup (tokenize text)
  /\ forall token,
       In token (tokenize text) <-> exists word, In word (words text) /\ tokenOf word token.
Proof. split; [apply tokenize_NoDup | intros token; apply tokenize_In]. Qed.


Lemma splitOn_pieces (delim : ascii -> bool) (s cur : string) :
  allChars (fun c => negb (delim c)) cur = true ->
  List.Forall (fun piece => piece <> EmptyString
                            /\ allChars (fun c => negb (delim c)) piece = true)
              (Js.splitOn delim cur s).
Proof.
  revert cur. induction s as [| c s IH]; intros cur Hcur; simpl.
  - destruct cur; constructor; [split; [discriminate | exact Hcur] | constructor].
  - destruct (delim c) eqn:Hc.
    + destruct cur; [apply IH; reflexivity |].
      constructor; [split; [discriminate | exact Hcur] | apply IH; reflexivity].
    + apply IH. rewrite allChars_append, Hcur. simpl. rewrite Hc. reflexivity.
Qed.

Lemma splitBeforeUpper_pieces (p : ascii -> bool) (s cur : string) :
  allChars p cur = true -> allChars p s = true ->
  List.Forall (fun piece => piece <> EmptyString /\ allChars p piece = true)
              (Js.splitBeforeUpper cur s).
Proof.
  revert cur. induction s as [| c s IH]; intros cur Hcur Hs; simpl.
  - destruct cur; constructor; [split; [discriminate | exact Hcur] | constructor].
  - simpl in Hs. apply andb_prop in Hs as [Hc Hs].
    assert (H1 : allChars p (String c EmptyString) = true) by (simpl; rewrite Hc; reflexivity).
    destruct (Js.isUpper c).
    + destruct cur; [apply IH; assumption |].
      constructor; [split; [discriminate | exact Hcur] | apply IH; assumption].
    + apply IH; [| exact Hs]. rewrite allChars_append, Hcur, H1. reflexivity.
Qed.

Lemma isDelimiter_lowerChar (c : ascii) :
  isDelimiter (Js.lowerChar c) = isDelimiter c.
Proof.
  destruct c as [[] [] [] [] [] [] [] []]; reflexivity.
Qed.

Lemma clean_toLowerCase (token : string) : clean token -> clean (Js.toLowerCase token).
Proof.
  intros [Hne Hall]. split.
  - destruct token; [contradiction | discriminate].
  - clear Hne. induction token as [| c token IH]; [reflexivity |].
    simpl in *. apply andb_prop in Hall as [Hc Hall].
    rewrite isDelimiter_lowerChar, Hc. apply IH, Hall.
Qed.

Lemma clean_tokenOf (word token : string) : clean word -> tokenOf word token -> clean token.
Proof.
  intros Hw [-> | [-> | (part & Hin & Hx)]]; [exact Hw | apply clean_toLowerCase, Hw |].
  assert (Hp : clean part).
  { destruct Hw as [_ Hall].
    exact (proj1 (List.Forall_forall _ _)
                 (splitBeforeUpper_pieces _ word EmptyString eq_refl Hall) part Hin). }
  destruct Hx as [-> | ->]; [exact Hp | apply clean_toLowerCase, Hp].
Qed.

Lemma tokenize_clean (text : string) : List.Forall clean (tokenize text).
Proof.
  apply List.Forall_forall. intros token Hin.
  apply tokenize_In in Hin as (word & Hw & Ht).
  apply (clean_tokenOf word); [| exact Ht].
  exact (proj1 (List.Forall_forall _ _)
               (splitOn_pieces isDelimiter text EmptyString eq_refl) word Hw).
Qed.

Lemma tokenize_delimiters (text : string) :
  allChars isDelimiter text = true -> tokenize text = [].
Proof.
  intros Hall. unfold tokenize. destruct text as [| c text]; [reflexivity |].
  assert (Hw : Js.splitOn isDelimiter EmptyString (String c text) = []).
  { clear - Hall. induction (String c text) as [| d s IH]; [reflexivity |].
    simpl in *. apply andb_prop in Hall as [Hd Hs]. rewrite Hd. apply IH, Hs. }
  rewrite Hw. reflexivity.
Qed.

Lemma tokenize_characterised_witness : In "grid" (tokenize "GridItem").
Proof.
  apply (proj2 (proj2 (tokenize_characterised "GridItem") "grid")).
  exists "GridItem". split; [left; reflexivity |].
  right. right. exists "Grid". split; [left; reflexivity | right; reflexivity].
Defined.

(** X14.  A token is never empty and never holds a delimiter (white space,
    [/], [.], [_] or [-]); a text made of delimiters only, like the empty
    text, has no token at all. *)
Theorem tokens_are_clean (text : string) :
  List.Forall clean (tokenize text)
  /\ (allChars isDelimiter text = true -> tokenize text = []).
Proof. split; [apply tokenize_clean | apply tokenize_delimiters]. Qed.

Lemma tokens_are_clean_witness : tokenize "._- /" = [].
Proof. apply (proj2 (tokens_are_clean "._- /")). reflexivity. Defined.

Lemma createSearchTokens_tokens
    (title abstract path : string) (platforms : list string) :
  List.NoDup (createSearchTokens title abstract path platforms)
  /\ forall token,
       In token (createSearchTokens title abstract path platforms)
       <-> In token (tokenize title) \/ In token (tokenize abstract)
           \/ In token (tokenize path)
           \/ exists platform, In platform platforms /\ In token (tokenize platform).
Proof.
  unfold createSearchTokens.
  assert (Hfold : forall ps acc,
    (List.NoDup acc ->
     List.NoDup (fold_left (fun acc platform => addAll acc (tokenize platform)) ps acc))
    /\ forall token,
         In token (fold_left (fun acc platform => addAll acc (tokenize platform)) ps acc)
         <-> In token acc \/ exists platform, In platform ps /\ In token (tokenize platform)).
  { induction ps as [| p ps IH]; intros acc; simpl.
    - split; [auto |]. intros token. split; [auto |].
      intros [H | (platform & [] & _)]. exact H.
    - destruct (IH (addAll acc (tokenize p))) as [IH1 IH2]. split.
      + intros H. apply IH1, addAll_NoDup, H.
      + intros token. rewrite IH2, addAll_In. split.
        * intros [[H | H] | (platform & Hin & H)]; [auto | |].
          -- right. exists p. auto.
          -- right. exists platform. auto.
        * intros [H | (platform & [-> | Hin] & H)]; [auto | auto |].
          right. exists platform. auto. }
  destruct (Hfold platforms
              (addAll (addAll (addAll [] (tokenize title)) (tokenize abstract))
                      (tokenize path))) as [H1 H2].
  split.
  - apply H1. repeat apply addAll_NoDup. constructor.
  - intros token. rewrite H2, !addAll_In. simpl. tauto.
Qed.

(** X15.  The search tokens of an entry are, as a set, the tokens of its
    title, of its abstract, of its path and of each of its platforms, each
    listed once. *)
Theorem createSearchTokens_characterised
    (title abstract path : string) (platforms : list string) :
  List.NoDup (createSearchTokens title abstract path platforms)
  /\ forall token,
       In token (createSearchTokens title abstract path platforms)
       <-> In token (tokenize title) \/ In token (tokenize abstract)
           \/ In token (tokenize path)
           \/ exists platform, In platform platforms /\ In token (tokenize platform).
Proof. apply createSearchTokens_tokens. Qed.

Lemma createSearchTokens_characterised_witness :
  In "ios" (createSearchTokens "View" "A view." "/documentation/swiftui/view" ["iOS"]).
Proof.
  apply (proj2 (proj2 (createSearchTokens_characterised
                         "View" "A view." "/documentation/swiftui/view" ["iOS"]) "ios")).
  right. right. right. exists "iOS". split; [left; reflexivity |].
  vm_compute. left. reflexivity.
Defined.

End TokenizerFacts.

(** ** The local symbol index: ranked search *)

Module SearchFacts.

Import Index SearchSpec TokenizerSpec TokenizerFacts.

(** *** The loops of [search] *)

Lemma addTokenScore_tier entry score queryToken :
  addTokenScore entry score queryToken = score + tierScore entry queryToken.
Proof.
  unfold addTokenScore, tierScore.
  repeat match goal with |- context [if ?b then _ else _] => destruct b end; lia.
Qed.

Lemma fold_addTokenScore entry queryTokens score :
  fold_left (addTokenScore entry) queryTokens score
  = score + fold_right Z.add 0 (map (tierScore entry) queryTokens).
Proof.
  revert score. induction queryTokens as [| q qs IH]; intros score; simpl.
  - lia.
  - rewrite IH, addTokenScore_tier. lia.
Qed.

(** The loop over the entries collects, in index order, every entry with
    a positive score. *)
Lemma collect_results (score : LocalSymbolIndexEntry -> Z) (m : SymbolMap)
    (acc : list (LocalSymbolIndexEntry * Z)) :
  fold_left
    (fun results kv =>
       if 0 <? score (snd kv) then results ++ [(snd kv, score (snd kv))] else results)
    m acc
  = acc ++ filter (fun es => 0 < snd es) (map (fun kv => (snd kv, score (snd kv))) m).
Proof.
  revert acc. induction m as [| kv m IH]; intros acc; simpl.
  - rewrite app_nil_r. reflexivity.
  - rewrite IH. rewrite filter_cons. simpl.
    destruct (0 <? score (snd kv)) eqn:Hs.
    + apply Z.ltb_lt in Hs. rewrite decide_True by exact Hs.
      rewrite <- app_assoc. reflexivity.
    + apply Z.ltb_ge in Hs. rewrite decide_False by lia. reflexivity.
Qed.

(** *** [sortByScore] is a stable descending sort *)

Lemma insertByScore_perm x l : Permutation (x :: l) (insertByScore x l).
Proof.
  induction l as [| y l IH]; simpl.
  - apply Permutation_refl.
  - destruct (snd x <? snd y).
    + eapply perm_trans; [apply perm_swap |]. apply perm_skip, IH.
    + apply Permutation_refl.
Qed.

Lemma sortByScore_perm l : Permutation l (sortByScore l).
Proof.
  induction l as [| x l IH]; simpl.
  - apply Permutation_refl.
  - eapply perm_trans; [apply perm_skip, IH | apply insertByScore_perm].
Qed.

Lemma insertByScore_sorted x l :
  StronglySorted notBelow l -> StronglySorted notBelow (insertByScore x l).
Proof.
  induction 1 as [| y l Hs IH Hy]; simpl.
  - constructor; [constructor | constructor].
  - destruct (snd x <? snd y) eqn:Hxy.
    + apply Z.ltb_lt in Hxy. constructor; [exact IH |].
      eapply Permutation_Forall; [apply insertByScore_perm |].
      constructor; [unfold notBelow; lia | exact Hy].
    + apply Z.ltb_ge in Hxy. constructor.
      * constructor; assumption.
      * constructor; [exact Hxy |].
        eapply List.Forall_impl; [| exact Hy].
        unfold notBelow. intros z Hz. lia.
Qed.

Lemma sortByScore_sorted l : StronglySorted notBelow (sortByScore l).
Proof.
  induction l as [| x l IH]; simpl.
  - constructor.
  - apply insertByScore_sorted, IH.
Qed.

Lemma insertByScore_stable (s : Z) x l :
  filter (fun es => snd es = s) (insertByScore x l)
  = filter (fun es => snd es = s) (x :: l).
Proof.
  induction l as [| y l IH]; simpl; [reflexivity |].
  destruct (snd x <? snd y) eqn:Hxy; [| reflexivity].
  apply Z.ltb_lt in Hxy.
  rewrite (filter_cons _ y), IH, !filter_cons.
  destruct (decide (snd y = s)), (decide (snd x = s)); try reflexivity. lia.
Qed.

Lemma sortByScore_stable (s : Z) l :
  filter (fun es => snd es = s) (sortByScore l) = filter (fun es => snd es = s) l.
Proof.
  induction l as [| x l IH]; simpl; [reflexivity |].
  rewrite insertByScore_stable, !filter_cons, IH. reflexivity.
Qed.

(** *** Token-based ranking *)

Lemma scoreOf_tokens (re : option RegExp.RegExp) (query : string)
    (entry : LocalSymbolIndexEntry) :
  scoreOf false re query (Tokenizer.tokenize query) entry = tokenScore entry query.
Proof.
  unfold scoreOf, tokenScore. rewrite fold_addTokenScore. lia.
Qed.

Lemma search_tokens (index : LocalSymbolIndex) (query : string) (maxResults : nat) :
  hasWildcards query = false ->
  search index query maxResults
  = map fst (firstn maxResults (sortByScore (survivors index query))).
Proof.
  intros Hw. unfold search, searchWith. rewrite Hw.
  rewrite (collect_results
             (fun e => scoreOf false None query (Tokenizer.tokenize query) e)).
  rewrite app_nil_l. unfold survivors. do 4 f_equal.
  apply map_ext. intros kv. rewrite scoreOf_tokens. reflexivity.
Qed.



Example nav_view_ranking :
  scored twoEntries ["nav"; "view"] = [(buttonEntry, 40); (navigationViewEntry, 140)]
  /\ search twoEntries "nav view" 20 = [navigationViewEntry; buttonEntry]
  /\ search twoEntries "nav view" 1 = [navigationViewEntry].
Proof. repeat split; vm_compute; reflexivity. Qed.

End SearchFacts.

(** ** The local symbol index: wildcard search *)

Module WildcardFacts.

Import Index StringSpec StringFacts SearchSpec SearchFacts WildcardSpec.

Lemma syntax_split (c : ascii) :
  RegExp.isSyntaxChar c = isEscaped c || Ascii.eqb c "*"%char || Ascii.eqb c "?"%char.
Proof.
  unfold RegExp.isSyntaxChar, isEscaped. cbn [existsb].
  repeat match goal with |- context [Ascii.eqb c ?d] =>
    let b := fresh "b" in set (b := Ascii.eqb c d); clearbody b
  end.
  repeat match goal with b : bool |- _ => destruct b; try reflexivity end.
Qed.

Lemma isEscaped_facts (m : ascii) :
  isEscaped m = true ->
  RegExp.isAlphaNum m = false /\ Js.lowerChar m = m /\ Ascii.eqb m NUL = false
  /\ Ascii.eqb m "*"%char = false.
Proof.
  unfold isEscaped. rewrite existsb_exists. intros (d & Hin & Heq).
  apply Ascii.eqb_eq in Heq. subst d.
  cbn [In] in Hin.
  repeat (destruct Hin as [<- | Hin]; [repeat split; reflexivity |]).
  destruct Hin.
Qed.

Lemma plain_facts (c : ascii) :
  plain c = true ->
  Ascii.eqb c "\"%char = false /\ Ascii.eqb c "$"%char = false
  /\ Ascii.eqb c "."%char = false /\ Ascii.eqb c "*"%char = false
  /\ RegExp.isSyntaxChar c = false.
Proof.
  unfold plain. rewrite negb_true_iff. intros H. 
  assert (Hall : forall d, In d ["^"; "$"; "\"; "."; "*"; "+"; "?"; "("; ")"; "["; "]"; "{"; "}"; "|"]%char
                           -> Ascii.eqb c d = false).
  { intros d Hd. destruct (Ascii.eqb c d) eqn:E; [| reflexivity].
    unfold RegExp.isSyntaxChar in H.
    assert (existsb (Ascii.eqb c) ["^"; "$"; "\"; "."; "*"; "+"; "?"; "("; ")"; "["; "]"; "{"; "}"; "|"]%char = true).
    { apply existsb_exists. exists d. split; assumption. }
    congruence. }
  repeat split; try (apply Hall; cbn [In]; tauto). exact H.
Qed.

Lemma plain_lower (c : ascii) : plain c = true -> plain (Js.lowerChar c) = true.
Proof.
  destruct c as [[] [] [] [] [] [] [] []]; vm_compute; congruence.
Qed.

Lemma Safe_head (s : string) :
  Safe s -> forall q rest, s = String q rest -> Ascii.eqb q "*"%char = false.
Proof.
  intros HS q rest Heq. destruct HS; inversion Heq; subst.
  - apply plain_facts in H. tauto.
  - reflexivity.
  - reflexivity.
  - reflexivity.
Qed.

(** What [parsePieces] does after an atom that is followed by a safe
    rest. *)
Lemma after_atom (s : string) (X : Type) (many : string -> X) (one : X) :
  Safe s ->
  match s +:+ "$" with
  | String q rest' => if Ascii.eqb q "*"%char then many rest' else one
  | EmptyString => one
  end = one.
Proof.
  intros HS. destruct s as [| q rest].
  - reflexivity.
  - rewrite append_cons. rewrite (Safe_head _ HS q rest eq_refl). reflexivity.
Qed.

Lemma parsePieces_Safe (s : string) :
  Safe s -> exists pieces, RegExp.parsePieces (s +:+ "$") = Some pieces.
Proof.
  induction 1 as [| c s Hc HS [ps IH] | m s Hm HS [ps IH] | s HS [ps IH] | s HS [ps IH]].
  - exists []. reflexivity.
  - destruct (plain_facts c Hc) as (H1 & H2 & H3 & H4 & H5).
    rewrite append_cons. cbn [RegExp.parsePieces].
    rewrite H1, H2, H5, H3. cbn [andb].
    rewrite (after_atom s _ (fun rest' => option_map (cons (RegExp.Many (RegExp.Lit c)))
                                            (RegExp.parsePieces rest'))
               (option_map (cons (RegExp.One (RegExp.Lit c))) (RegExp.parsePieces (s +:+ "$"))) HS).
    rewrite IH. eexists. reflexivity.
  - destruct (isEscaped_facts m Hm) as (H1 & _ & _ & _).
    rewrite !append_cons. cbn [RegExp.parsePieces]. cbn [Ascii.eqb Bool.eqb].
    rewrite H1.
    rewrite (after_atom s _ (fun rest' => option_map (cons (RegExp.Many (RegExp.Lit m)))
                                            (RegExp.parsePieces rest'))
               (option_map (cons (RegExp.One (RegExp.Lit m))) (RegExp.parsePieces (s +:+ "$"))) HS).
    rewrite IH. eexists. reflexivity.
  - rewrite append_cons. cbn [RegExp.parsePieces]. cbn [Ascii.eqb Bool.eqb].
    cbn [RegExp.isSyntaxChar existsb Ascii.eqb Bool.eqb andb orb negb].
    rewrite (after_atom s _ (fun rest' => option_map (cons (RegExp.Many RegExp.AnyChar))
                                            (RegExp.parsePieces rest'))
               (option_map (cons (RegExp.One RegExp.AnyChar)) (RegExp.parsePieces (s +:+ "$"))) HS).
    rewrite IH. eexists. reflexivity.
  - rewrite !append_cons. cbn [RegExp.parsePieces]. cbn [Ascii.eqb Bool.eqb].
    cbn [RegExp.isSyntaxChar existsb Ascii.eqb Bool.eqb andb orb negb].
    rewrite IH. eexists. reflexivity.
Qed.

Lemma Safe_escapeSpecial (s : string) :
  allChars noWildcard s = true -> Safe (escapeSpecial s).
Proof.
  induction s as [| c s IH]; cbn [allChars escapeSpecial]; [constructor |].
  intros H. apply andb_prop in H. destruct H as [Hc Hs].
  destruct (isEscaped c) eqn:He.
  - apply Safe_escaped; [exact He | exact (IH Hs)].
  - apply Safe_plain; [| exact (IH Hs)].
    unfold plain. rewrite syntax_split, He.
    unfold noWildcard in Hc. apply andb_prop in Hc. destruct Hc as [H1 H2].
    apply negb_true_iff in H1, H2. rewrite H1, H2. reflexivity.
Qed.

Lemma Safe_toLowerCase (s : string) : Safe s -> Safe (Js.toLowerCase s).
Proof.
  induction 1 as [| c s Hc HS IH | m s Hm HS IH | s HS IH | s HS IH];
    cbn [Js.toLowerCase].
  - constructor.
  - apply Safe_plain; [apply plain_lower, Hc | exact IH].
  - destruct (isEscaped_facts m Hm) as (_ & Hl & _ & _). rewrite Hl.
    apply (Safe_escaped m); assumption.
  - apply Safe_dot. exact IH.
  - apply Safe_dotstar. exact IH.
Qed.

(** Dropping plain characters from the front of a safe string. *)
Lemma Safe_strip (p s : string) :
  allChars plain p = true -> Safe (p +:+ s) -> Safe s.
Proof.
  induction p as [| c p IH]; [intros _ H; exact H |].
  cbn [allChars]. intros Hp. apply andb_prop in Hp. destruct Hp as [Hc Hp].
  rewrite append_cons. intros HS.
  destruct (plain_facts c Hc) as (H1 & _ & H3 & _ & _).
  inversion HS; subst.
  - apply IH; assumption.
  - discriminate H1.
  - discriminate H3.
  - discriminate H3.
Qed.

Section Replace.

(** A placeholder: NUL followed by plain characters. *)
Variable tail : string.
Variable repl : string.
Hypothesis tail_plain : allChars plain tail = true.
Hypothesis repl_safe : forall s, Safe s -> Safe (repl +:+ s).

Lemma no_match (c : ascii) (s : string) :
  Ascii.eqb c NUL = false -> Js.startsWith (String c s) (String NUL tail) = false.
Proof.
  intros H. cbn [Js.startsWith].
  rewrite Ascii.eqb_sym, H. reflexivity.
Qed.

Lemma Safe_replaceAll_bounded (n : nat) (s : string) :
  (String.length s <= n)%nat -> Safe s ->
  Safe (Js.replaceAll_from (String NUL tail) repl 0 s).
Proof.
  revert s. induction n as [| n IH]; intros s Hlen HS.
  - destruct s; [constructor | simpl in Hlen; lia].
  - destruct s as [| c s']; [constructor |].
    cbn [Js.replaceAll_from].
    destruct (Js.startsWith (String c s') (String NUL tail)) eqn:Hm.
    + destruct (startsWith_split _ _ Hm) as [rest Hrest].
      rewrite append_cons in Hrest.
      injection Hrest as Hc Hs'. subst c s'.
      change (Nat.pred (String.length (String NUL tail))) with (String.length tail).
      rewrite replaceAll_from_skip. apply repl_safe. apply IH.
      * simpl in Hlen. rewrite length_append in Hlen. lia.
      * apply (Safe_strip (String NUL tail)).
        -- cbn [allChars]. rewrite tail_plain. reflexivity.
        -- rewrite append_cons. exact HS.
    + simpl in Hlen.
      inversion HS as [| c0 s0 Hc0 HS0 | m s0 Hm0 HS0 | s0 HS0 | s0 HS0]; subst.
      * apply Safe_plain; [assumption |]. apply IH; [lia | assumption].
      * destruct (isEscaped_facts m Hm0) as (_ & _ & Hnul & _).
        cbn [Js.replaceAll_from]. rewrite (no_match m s0 Hnul).
        apply Safe_escaped; [assumption |]. apply IH; [simpl in Hlen; lia | assumption].
      * apply Safe_dot. apply IH; [lia | assumption].
      * cbn [Js.replaceAll_from]. rewrite (no_match "*"%char s0 eq_refl).
        apply Safe_dotstar. apply IH; [simpl in Hlen; lia | assumption].
Qed.

Lemma Safe_replaceAll (s : string) : Safe s -> Safe (Js.replaceAll s (String NUL tail) repl).
Proof. apply (Safe_replaceAll_bounded (String.length s)). lia. Qed.

End Replace.

Lemma noWildcard_after_placeholders (query : string) :
  allChars noWildcard (Js.replaceAll (Js.replaceAll query "*" STAR) "?" QUESTION) = true.
Proof.
  rewrite !replaceAll_single.
  apply (allChars_concatMap (fun c => negb (Ascii.eqb c "*"%char))).
  - intros c Hc. destruct (Ascii.eqb "?"%char c) eqn:E; [reflexivity |].
    cbn [allChars]. unfold noWildcard. rewrite Hc.
    rewrite Ascii.eqb_sym, E. reflexivity.
  - apply (allChars_concatMap (fun _ => true)).
    + intros c _. destruct (Ascii.eqb "*"%char c) eqn:E; [reflexivity |].
      cbn [allChars]. rewrite Ascii.eqb_sym, E. reflexivity.
    + induction query; [reflexivity | assumption].
Qed.

Lemma Safe_escapeQuery (query : string) : Safe (escapeQuery query).
Proof.
  unfold escapeQuery. apply Safe_toLowerCase.
  apply (Safe_replaceAll ("QUESTION" +:+ String NUL EmptyString) ".");
    [reflexivity | apply Safe_dot |].
  apply (Safe_replaceAll ("STAR" +:+ String NUL EmptyString) ".*");
    [reflexivity | apply Safe_dotstar |].
  apply Safe_escapeSpecial, noWildcard_after_placeholders.
Qed.

(** The pattern that [search] builds always compiles. *)
Lemma compile_wildcardSource (query : string) :
  exists re, RegExp.compile (wildcardSource query) = Some re.
Proof.
  unfold wildcardSource, RegExp.compile. rewrite append_cons, append_nil_l.
  cbn [Ascii.eqb Bool.eqb]. apply parsePieces_Safe, Safe_escapeQuery.
Qed.

(** *** The pattern, character by character *)

Lemma escapeSpecial_concatMap (s : string) :
  escapeSpecial s
  = concatMap (fun c => if isEscaped c then String "\"%char (String c EmptyString)
                        else String c EmptyString) s.
Proof.
  induction s as [| c s IH]; [reflexivity |].
  cbn [escapeSpecial concatMap]. rewrite IH.
  destruct (isEscaped c); reflexivity.
Qed.

Lemma placeholders_in (query : string) :
  escapeSpecial (Js.replaceAll (Js.replaceAll query "*" STAR) "?" QUESTION)
  = concatMap (withPlaceholders STAR QUESTION) query.
Proof.
  rewrite !replaceAll_single, escapeSpecial_concatMap, !concatMap_concatMap.
  apply concatMap_ext. intros c. unfold withPlaceholders.
  rewrite (Ascii.eqb_sym "*"%char c).
  destruct (Ascii.eqb c "*"%char) eqn:Hs; [reflexivity |].
  cbn [concatMap]. rewrite (Ascii.eqb_sym "?"%char c).
  destruct (Ascii.eqb c "?"%char) eqn:Hq; [reflexivity |].
  cbn [concatMap append]. destruct (isEscaped c); reflexivity.
Qed.

Section Restore.

Variable tail repl : string.
Lemma replace_hit (s : string) :
  Js.replaceAll_from (String NUL tail) repl 0 ((String NUL tail) +:+ s)
  = repl +:+ Js.replaceAll_from (String NUL tail) repl 0 s.
Proof.
  rewrite append_cons. cbn [Js.replaceAll_from].
  change (String NUL (tail +:+ s)) with ((String NUL tail) +:+ s).
  rewrite startsWith_append.
  change (Nat.pred (String.length (String NUL tail))) with (String.length tail).
  rewrite replaceAll_from_skip. reflexivity.
Qed.

Lemma replace_miss (c : ascii) (s : string) :
  Js.startsWith (String c s) (String NUL tail) = false ->
  Js.replaceAll_from (String NUL tail) repl 0 (String c s)
  = String c (Js.replaceAll_from (String NUL tail) repl 0 s).
Proof. intros H. cbn [Js.replaceAll_from]. rewrite H. reflexivity. Qed.

Lemma replace_pass (c : ascii) (s : string) :
  Ascii.eqb c NUL = false ->
  Js.replaceAll_from (String NUL tail) repl 0 (String c s)
  = String c (Js.replaceAll_from (String NUL tail) repl 0 s).
Proof.
  intros H. apply replace_miss. cbn [Js.startsWith].
  rewrite Ascii.eqb_sym, H. reflexivity.
Qed.

End Restore.

Lemma star_hit (s : string) :
  Js.replaceAll_from STAR ".*" 0 (STAR +:+ s) = ".*" +:+ Js.replaceAll_from STAR ".*" 0 s.
Proof. exact (replace_hit ("STAR" +:+ String NUL EmptyString) ".*" s). Qed.

Lemma star_miss (c : ascii) (s : string) :
  Js.startsWith (String c s) STAR = false ->
  Js.replaceAll_from STAR ".*" 0 (String c s) = String c (Js.replaceAll_from STAR ".*" 0 s).
Proof. exact (replace_miss ("STAR" +:+ String NUL EmptyString) ".*" c s). Qed.

Lemma star_pass (c : ascii) (s : string) :
  Ascii.eqb c NUL = false ->
  Js.replaceAll_from STAR ".*" 0 (String c s) = String c (Js.replaceAll_from STAR ".*" 0 s).
Proof. exact (replace_pass ("STAR" +:+ String NUL EmptyString) ".*" c s). Qed.

Lemma question_hit (s : string) :
  Js.replaceAll_from QUESTION "." 0 (QUESTION +:+ s)
  = "." +:+ Js.replaceAll_from QUESTION "." 0 s.
Proof. exact (replace_hit ("QUESTION" +:+ String NUL EmptyString) "." s). Qed.

Lemma question_pass (c : ascii) (s : string) :
  Ascii.eqb c NUL = false ->
  Js.replaceAll_from QUESTION "." 0 (String c s)
  = String c (Js.replaceAll_from QUESTION "." 0 s).
Proof. exact (replace_pass ("QUESTION" +:+ String NUL EmptyString) "." c s). Qed.

Lemma star_at_nul (s : string) :
  Js.startsWith (String NUL s) STAR
  = Js.startsWith s ("STAR" +:+ String NUL EmptyString).
Proof. reflexivity. Qed.

(** An ordinary letter at the head of the placeholder form comes from the
    same letter at the head of the query. *)
Lemma head_letter (star question : string) (L : ascii) (x q : string) :
  (forall r, Js.startsWith (star +:+ r) (String L x) = false) ->
  (forall r, Js.startsWith (question +:+ r) (String L x) = false) ->
  Ascii.eqb L "\"%char = false ->
  Js.startsWith (concatMap (withPlaceholders star question) q) (String L x) = true ->
  exists q', q = String L q'
             /\ Js.startsWith (concatMap (withPlaceholders star question) q') x = true.
Proof.
  intros Hstar Hquestion Hbsl H. destruct q as [| c q']; [discriminate |].
  cbn [concatMap] in H. unfold withPlaceholders in H at 1.
  destruct (Ascii.eqb c "*"%char); [rewrite Hstar in H; discriminate |].
  destruct (Ascii.eqb c "?"%char); [rewrite Hquestion in H; discriminate |].
  destruct (isEscaped c).
  - rewrite append_cons in H. cbn [Js.startsWith] in H. rewrite Hbsl in H. discriminate.
  - rewrite append_cons, append_nil_l in H. cbn [Js.startsWith] in H.
    apply andb_prop in H. destruct H as [HL Hx].
    apply Ascii.eqb_eq in HL. subst c. exists q'. split; [reflexivity | exact Hx].
Qed.

Lemma includes_tail (c : ascii) (s needle : string) :
  Js.includes (String c s) needle = false ->
  Js.startsWith (String c s) needle = false /\ Js.includes s needle = false.
Proof. cbn [Js.includes]. intros H. apply orb_false_elim in H. exact H. Qed.

Lemma includes_head (s needle : string) :
  Js.includes s needle = false -> Js.startsWith s needle = false.
Proof.
  destruct s as [| c s]; cbn [Js.includes]; intros H;
    apply orb_false_elim in H; tauto.
Qed.

(** Restoring the star placeholders, for a query that has no NUL and does
    not spell out the placeholder text. *)
Lemma restore_stars (query : string) :
  allChars notNul query = true ->
  Js.includes query "STAR" = false ->
  Js.replaceAll (concatMap (withPlaceholders STAR QUESTION) query) STAR ".*"
  = concatMap (withPlaceholders ".*" QUESTION) query.
Proof.
  unfold Js.replaceAll.
  induction query as [| c q IH]; [reflexivity |].
  cbn [allChars]. intros Hn Hi. apply andb_prop in Hn. destruct Hn as [Hc Hn].
  apply includes_tail in Hi. destruct Hi as [_ Hi].
  specialize (IH Hn Hi). cbn [concatMap]. unfold withPlaceholders at 1 3.
  destruct (Ascii.eqb c "*"%char) eqn:Hs.
  - rewrite star_hit, IH. reflexivity.
  - destruct (Ascii.eqb c "?"%char) eqn:Hq.
    + unfold QUESTION at 1 3. rewrite !append_cons.
      rewrite star_miss by reflexivity.
      do 8 (rewrite star_pass by reflexivity).
      rewrite !append_nil_l, !append_cons, !append_nil_l.
      rewrite star_miss; [rewrite IH; reflexivity |].
      rewrite star_at_nul.
      destruct (Js.startsWith (concatMap (withPlaceholders STAR QUESTION) q)
                              ("STAR" +:+ String NUL EmptyString)) eqn:Hbad;
        [| reflexivity].
      exfalso.
      destruct (head_letter STAR QUESTION "S" _ q
                  (fun _ => eq_refl) (fun _ => eq_refl) eq_refl Hbad)
        as (q1 & -> & H1).
      destruct (head_letter STAR QUESTION "T" _ q1
                  (fun _ => eq_refl) (fun _ => eq_refl) eq_refl H1)
        as (q2 & -> & H2).
      destruct (head_letter STAR QUESTION "A" _ q2
                  (fun _ => eq_refl) (fun _ => eq_refl) eq_refl H2)
        as (q3 & -> & H3).
      destruct (head_letter STAR QUESTION "R" _ q3
                  (fun _ => eq_refl) (fun _ => eq_refl) eq_refl H3)
        as (q4 & -> & H4).
      apply includes_head in Hi. cbn [Js.startsWith Ascii.eqb Bool.eqb andb] in Hi.
      rewrite startsWith_nil in Hi. discriminate.
    + destruct (isEscaped c) eqn:He.
      * destruct (isEscaped_facts c He) as (_ & _ & Hnul & _).
        rewrite !append_cons, append_nil_l.
        rewrite star_pass by reflexivity.
        rewrite star_pass by exact Hnul.
        rewrite IH. reflexivity.
      * rewrite append_cons, append_nil_l.
        rewrite star_pass by (apply negb_true_iff; exact Hc).
        rewrite IH. reflexivity.
Qed.

Lemma restore_questions (query : string) :
  allChars notNul query = true ->
  Js.replaceAll (concatMap (withPlaceholders ".*" QUESTION) query) QUESTION "."
  = concatMap (withPlaceholders ".*" ".") query.
Proof.
  unfold Js.replaceAll.
  induction query as [| c q IH]; [reflexivity |].
  cbn [allChars]. intros Hn. apply andb_prop in Hn. destruct Hn as [Hc Hn].
  specialize (IH Hn). cbn [concatMap]. unfold withPlaceholders at 1 3.
  destruct (Ascii.eqb c "*"%char) eqn:Hs.
  - rewrite !append_cons, append_nil_l.
    do 2 (rewrite question_pass by reflexivity).
    rewrite IH. reflexivity.
  - destruct (Ascii.eqb c "?"%char) eqn:Hq.
    + rewrite question_hit, IH. reflexivity.
    + destruct (isEscaped c) eqn:He.
      * destruct (isEscaped_facts c He) as (_ & _ & Hnul & _).
        rewrite !append_cons, append_nil_l.
        rewrite question_pass by reflexivity.
        rewrite question_pass by exact Hnul.
        rewrite IH. reflexivity.
      * rewrite append_cons, append_nil_l.
        rewrite question_pass by (apply negb_true_iff; exact Hc).
        rewrite IH. reflexivity.
Qed.

Lemma toLowerCase_append (a b : string) :
  Js.toLowerCase (a +:+ b) = Js.toLowerCase a +:+ Js.toLowerCase b.
Proof.
  induction a as [| x a IH]; [reflexivity |].
  rewrite append_cons. cbn [Js.toLowerCase]. rewrite IH, append_cons. reflexivity.
Qed.

Lemma toLowerCase_concatMap f (s : string) :
  Js.toLowerCase (concatMap f s) = concatMap (fun c => Js.toLowerCase (f c)) s.
Proof.
  induction s as [| x s IH]; [reflexivity |].
  cbn [concatMap]. rewrite toLowerCase_append, IH. reflexivity.
Qed.

(** For a query without NUL that does not contain the text STAR, the
    pattern is the query translated character by character. *)
Lemma escapeQuery_translate (query : string) :
  allChars notNul query = true ->
  Js.includes query "STAR" = false ->
  escapeQuery query = translate query.
Proof.
  intros Hn Hi. unfold escapeQuery, translate.
  rewrite placeholders_in, (restore_stars query Hn Hi), (restore_questions query Hn).
  rewrite toLowerCase_concatMap. apply concatMap_ext. intros c.
  unfold withPlaceholders, translateChar.
  destruct (Ascii.eqb c "*"%char); [reflexivity |].
  destruct (Ascii.eqb c "?"%char); [reflexivity |].
  destruct (isEscaped c) eqn:He; [| reflexivity].
  destruct (isEscaped_facts c He) as (_ & Hl & _ & _).
  cbn [Js.toLowerCase]. rewrite Hl. reflexivity.
Qed.

(** *** Wildcard search *)

Lemma sortByScore_flat (c : Z) (l : list (LocalSymbolIndexEntry * Z)) :
  Forall (fun es => snd es = c) l -> sortByScore l = l.
Proof.
  induction 1 as [| x l Hx Hl IH]; [reflexivity |].
  cbn [sortByScore fold_right]. fold (sortByScore l). rewrite IH.
  destruct Hl as [| y l Hy Hl]; [reflexivity |].
  cbn [insertByScore]. rewrite Hx, Hy, Z.ltb_irrefl. reflexivity.
Qed.

(** With a flat score [c > 0] for the entries that pass [test], the
    ranking is the index order. *)
Lemma flat_ranking (test : LocalSymbolIndexEntry -> bool) (c : Z)
    (score : LocalSymbolIndexEntry -> Z) (m : SymbolMap) (maxResults : nat) :
  0 < c ->
  (forall e, score e = if test e then c else 0) ->
  map fst (firstn maxResults
             (sortByScore
                (filter (fun es => 0 < snd es)
                        (map (fun kv => (snd kv, score (snd kv))) m))))
  = firstn maxResults (filter (fun e => test e = true) (map snd m)).
Proof.
  intros Hc Hscore.
  assert (Hflat : Forall (fun es : LocalSymbolIndexEntry * Z => snd es = c)
                    (filter (fun es => 0 < snd es)
                            (map (fun kv => (snd kv, score (snd kv))) m))).
  { apply List.Forall_forall. intros es Hin.
    apply list_elem_of_In, list_elem_of_filter in Hin. destruct Hin as [Hpos Hin].
    apply list_elem_of_In, in_map_iff in Hin. destruct Hin as (kv & <- & _).
    simpl in *. rewrite Hscore in *. destruct (test (snd kv)); [reflexivity | lia]. }
  rewrite (sortByScore_flat c _ Hflat), <- firstn_map. f_equal.
  clear Hflat. induction m as [| kv m IH]; [reflexivity |].
  cbn [map]. rewrite !filter_cons. cbn [snd]. rewrite Hscore.
  destruct (test (snd kv)) eqn:Ht.
  - rewrite decide_True by exact Hc. rewrite decide_True by reflexivity.
    cbn [map fst]. rewrite IH. reflexivity.
  - rewrite decide_False by lia. rewrite decide_False by discriminate. exact IH.
Qed.

Lemma searchWith_wildcard (newRegExp : string -> option RegExp.RegExp)
    (index : LocalSymbolIndex) (query : string) (maxResults : nat) (re : RegExp.RegExp) :
  hasWildcards query = true ->
  newRegExp (wildcardSource query) = Some re ->
  searchWith newRegExp index query maxResults
  = firstn maxResults (filter (fun e => wildcardMatches re e = true)
                              (map snd (symbols index))).
Proof.
  intros Hw Hre. unfold searchWith. rewrite Hw, Hre.
  rewrite (collect_results
             (fun e => scoreOf true (Some re) query (Tokenizer.tokenize query) e)).
  rewrite app_nil_l. apply (flat_ranking (wildcardMatches re) 100); [lia |].
  intros e. reflexivity.
Qed.

Lemma searchWith_fallback (newRegExp : string -> option RegExp.RegExp)
    (index : LocalSymbolIndex) (query : string) (maxResults : nat) :
  hasWildcards query = true ->
  newRegExp (wildcardSource query) = None ->
  searchWith newRegExp index query maxResults
  = firstn maxResults (filter (fun e => literalMatches query e = true)
                              (map snd (symbols index))).
Proof.
  intros Hw Hre. unfold searchWith. rewrite Hw, Hre.
  rewrite (collect_results
             (fun e => scoreOf true None query (Tokenizer.tokenize query) e)).
  rewrite app_nil_l. apply (flat_ranking (literalMatches query) 50); [lia |].
  intros e. reflexivity.
Qed.

(** C4, as stated, fails twice.  An entry that the pattern matches is not
    returned when [maxResults] entries before it match too: [*] matches
    all three entries, and [search("*", 1)] returns the first only.  And
    the pattern is not always the character-wise translation: in
    [?STAR*] the end of the placeholder of [?], the text STAR and the start
    of the placeholder of [*] read as a placeholder of [*]. *)
Lemma wildcard_claim_fails :
  (exists re,
     RegExp.compile (wildcardSource "*") = Some re
     /\ wildcardMatches re viewEntry = true
     /\ In viewEntry (map snd (symbols threeEntries))
     /\ ~ In viewEntry (search threeEntries "*" 1))
  /\ wildcardSource "?STAR*" <> "^" +:+ translate "?STAR*" +:+ "$".
Proof.
  split.
  - exists [RegExp.Many RegExp.AnyChar]. split; [reflexivity |].
    split; [reflexivity |]. split.
    + apply in_cons, in_eq.
    + vm_compute. intros [H | []]. discriminate H.
  - vm_compute. discriminate.
Qed.

(** C4, amended.  For a query with [*] or [?], one anchored pattern is
    built and it always compiles; an entry scores a flat 100 exactly when
    the pattern matches its lower-cased title, its lower-cased path or one
    of its tokens, and the entries returned are the first [maxResults] of
    those, in index order.  When the query has no NUL character and does
    not contain the text STAR, the pattern is [^], the query with [*]
    turned into [.*], [?] into [.], the other special characters escaped
    and the rest lower-cased, and [$].  Should the pattern not compile,
    the entries returned are the first [maxResults] whose lower-cased
    title or path contains the lower-cased query.  [GridItem] is returned
    for [Grid*], [View] for [Vie?], and [Button] is not returned for
    [Grid*]. *)
Theorem wildcard_search_uses_one_pattern :
  (forall index query maxResults,
     hasWildcards query = true ->
     exists re,
       RegExp.compile (wildcardSource query) = Some re
       /\ (forall e, scoreOf true (Some re) query (Tokenizer.tokenize query) e
                     = if wildcardMatches re e then 100 else 0)
       /\ search index query maxResults
          = firstn maxResults (filter (fun e => wildcardMatches re e = true)
                                      (map snd (symbols index))))
  /\ (forall query,
        allChars notNul query = true -> Js.includes query "STAR" = false ->
        wildcardSource query = "^" +:+ translate query +:+ "$")
  /\ (forall newRegExp index query maxResults,
        hasWildcards query = true ->
        newRegExp (wildcardSource query) = None ->
        searchWith newRegExp index query maxResults
        = firstn maxResults (filter (fun e => literalMatches query e = true)
                                    (map snd (symbols index))))
  /\ search threeEntries "Grid*" 20 = [gridItemEntry]
  /\ search threeEntries "Vie?" 20 = [viewEntry]
  /\ ~ In plainButtonEntry (search threeEntries "Grid*" 20).
Proof.
  split; [| split; [| split; [| split; [| split]]]].
  - intros index query maxResults Hw.
    destruct (compile_wildcardSource query) as [re Hre]. exists re.
    split; [exact Hre |]. split; [intros e; reflexivity |].
    apply searchWith_wildcard; assumption.
  - intros query Hn Hi. unfold wildcardSource.
    rewrite (escapeQuery_translate query Hn Hi). reflexivity.
  - intros newRegExp index query maxResults Hw Hre.
    apply searchWith_fallback; assumption.
  - vm_compute. reflexivity.
  - vm_compute. reflexivity.
  - vm_compute. intros [H | []]. discriminate H.
Qed.

Lemma wildcard_search_uses_one_pattern_witness :
  (exists re,
     RegExp.compile (wildcardSource "Grid*") = Some re
     /\ (forall e, scoreOf true (Some re) "Grid*" (Tokenizer.tokenize "Grid*") e
                   = if wildcardMatches re e then 100 else 0)
     /\ search threeEntries "Grid*" 20
        = firstn 20 (filter (fun e => wildcardMatches re e = true)
                            (map snd (symbols threeEntries))))
  /\ wildcardSource "Grid*" = "^" +:+ translate "Grid*" +:+ "$"
  /\ searchWith (fun _ => None) threeEntries "Grid*" 20
     = firstn 20 (filter (fun e => literalMatches "Grid*" e = true)
                         (map snd (symbols threeEntries))).
Proof.
  split; [| split].
  - apply (proj1 wildcard_search_uses_one_pattern threeEntries "Grid*" 20%nat). reflexivity.
  - apply (proj1 (proj2 wildcard_search_uses_one_pattern) "Grid*"); reflexivity.
  - apply (proj1 (proj2 (proj2 wildcard_search_uses_one_pattern))
             (fun _ => None) threeEntries "Grid*" 20%nat); reflexivity.
Defined.

End WildcardFacts.

(** ** The response cache: expiry, capacity, eviction *)

Module MemoryCacheFacts.

Import MemoryCache MemoryCacheSpec.

Lemma delete_cons (key : string) (kv : string * CacheEntry) (l : list (string * CacheEntry)) :
  delete key (kv :: l)
  = if String.eqb key (fst kv) then delete key l else kv :: delete key l.
Proof.
  unfold delete. rewrite filter_cons.
  destruct (String.eqb key (fst kv)); simpl.
  - destruct (decide (false = true)); [discriminate | reflexivity].
  - destruct (decide (true = true)); [reflexivity | contradiction].
Qed.

Lemma lookup_delete_same (key : string) (l : list (string * CacheEntry)) :
  lookup key (delete key l) = None.
Proof.
  induction l as [| [k e] l IH]; [reflexivity |].
  rewrite delete_cons. simpl. destruct (String.eqb key k) eqn:E; [exact IH |].
  simpl. rewrite E. exact IH.
Qed.

Lemma lookup_delete_other (key other : string) (l : list (string * CacheEntry)) :
  key <> other -> lookup key (delete other l) = lookup key l.
Proof.
  intros Hne. induction l as [| [k e] l IH]; [reflexivity |].
  rewrite delete_cons. simpl. destruct (String.eqb other k) eqn:E.
  - apply String.eqb_eq in E. subst k.
    destruct (String.eqb key other) eqn:E'; [apply String.eqb_eq in E'; contradiction |].
    exact IH.
  - simpl. destruct (String.eqb key k); [reflexivity | exact IH].
Qed.

Lemma lookup_app_last (key : string) (e : CacheEntry) (l : list (string * CacheEntry)) :
  lookup key l = None -> lookup key (l ++ [(key, e)]) = Some e.
Proof.
  induction l as [| [k e'] l IH]; simpl.
  - intros _. rewrite String.eqb_refl. reflexivity.
  - destruct (String.eqb key k); [discriminate | exact IH].
Qed.

Lemma lookup_app_other (key other : string) (e : CacheEntry)
    (l : list (string * CacheEntry)) :
  key <> other -> lookup key (l ++ [(other, e)]) = lookup key l.
Proof.
  intros Hne. induction l as [| [k e'] l IH]; simpl.
  - destruct (String.eqb key other) eqn:E; [apply String.eqb_eq in E; contradiction |].
    reflexivity.
  - destruct (String.eqb key k); [reflexivity | exact IH].
Qed.

Lemma lookup_None_notin (key : string) (l : list (string * CacheEntry)) :
  lookup key l = None <-> ~ In key (map fst l).
Proof.
  induction l as [| [k e] l IH]; simpl.
  - split; [intros _ [] | reflexivity].
  - destruct (String.eqb key k) eqn:E.
    + apply String.eqb_eq in E. subst k. split; [discriminate | intros H; exfalso; auto].
    + apply String.eqb_neq in E. rewrite IH. split.
      * intros H [Hk | Hin]; [congruence | contradiction].
      * intros H Hin. apply H. right. exact Hin.
Qed.

Lemma delete_notin (key : string) (l : list (string * CacheEntry)) :
  ~ In key (map fst l) -> delete key l = l.
Proof.
  induction l as [| [k e] l IH]; [reflexivity |].
  intros Hn. rewrite delete_cons. simpl in *.
  destruct (String.eqb key k) eqn:E.
  - apply String.eqb_eq in E. subst k. exfalso. auto.
  - f_equal. apply IH. auto.
Qed.

Lemma length_delete_le (key : string) (l : list (string * CacheEntry)) :
  (length (delete key l) <= length l)%nat.
Proof.
  induction l as [| kv l IH]; [reflexivity |].
  rewrite delete_cons. destruct (String.eqb key (fst kv)); simpl; lia.
Qed.

Lemma length_delete_lt (key : string) (e : CacheEntry) (l : list (string * CacheEntry)) :
  lookup key l = Some e -> (length (delete key l) < length l)%nat.
Proof.
  induction l as [| [k e'] l IH]; simpl; [discriminate |].
  rewrite delete_cons. simpl. destruct (String.eqb key k).
  - intros _. pose proof (length_delete_le key l). simpl. lia.
  - intros H. apply IH in H. simpl. lia.
Qed.

Lemma keys_delete_incl (key : string) (l : list (string * CacheEntry)) (k : string) :
  In k (map fst (delete key l)) -> In k (map fst l) /\ k <> key.
Proof.
  induction l as [| [k' e] l IH]; simpl; [intros [] |].
  rewrite delete_cons. simpl. destruct (String.eqb key k') eqn:E.
  - intros H. apply IH in H. tauto.
  - apply String.eqb_neq in E. simpl. intros [-> | H].
    + split; [left; reflexivity | congruence].
    + apply IH in H. tauto.
Qed.

Lemma NoDup_delete (key : string) (l : list (string * CacheEntry)) :
  List.NoDup (map fst l) -> List.NoDup (map fst (delete key l)).
Proof.
  induction l as [| [k e] l IH]; simpl; [intros _; constructor |].
  intros H. apply List.NoDup_cons_iff in H as [H1 H2].
  rewrite delete_cons. simpl. destruct (String.eqb key k); [auto |].
  simpl. apply List.NoDup_cons_iff. split.
  - intros Hin. apply keys_delete_incl in Hin. tauto.
  - auto.
Qed.

Lemma NoDup_snoc (key : string) (l : list string) :
  List.NoDup l -> ~ In key l -> List.NoDup (l ++ [key]).
Proof.
  induction l as [| k l IH]; simpl; intros Hn Hk.
  - apply List.NoDup_cons_iff. split; [intros [] | constructor].
  - apply List.NoDup_cons_iff in Hn as [H1 H2]. apply List.NoDup_cons_iff. split.
    + rewrite in_app_iff. simpl. intros [Hin | [-> | []]]; auto.
    + apply IH; auto.
Qed.

(** The entries [set] keeps before it appends the new one. *)
Lemma set_cache (key : string) (value : json) (now : Z) (c : MemoryCache) :
  exists kept,
    cache (set key value now c) = kept ++ [(key, mkCacheEntry value now)]
    /\ lookup key kept = None
    /\ (forall k, In k (map fst kept) -> In k (keys c))
    /\ (List.NoDup (keys c) -> List.NoDup (map fst kept))
    /\ (length (cache c) <= capacity c -> S (length kept) <= capacity c)%nat.
Proof.
  unfold set, keys, capacity.
  destruct (lookup key (cache c)) as [old |] eqn:Hl; simpl.
  - exists (delete key (cache c)). split; [reflexivity |].
    split; [apply lookup_delete_same |].
    split; [intros k Hk; apply keys_delete_incl in Hk; tauto |].
    split; [apply NoDup_delete |].
    intros Hb. pose proof (length_delete_lt _ _ _ Hl). lia.
  - destruct (maxSize c <=? length (cache c))%nat eqn:Hfull.
    + destruct (cache c) as [| [oldest e] rest] eqn:Hc.
      * exists []. simpl. repeat split; try tauto; try constructor; intros; lia.
      * exists (delete oldest ((oldest, e) :: rest)). split; [reflexivity |].
        split.
        { destruct (String.eqb key oldest) eqn:E.
          - apply String.eqb_eq in E. subst. apply lookup_delete_same.
          - apply String.eqb_neq in E. rewrite lookup_delete_other by exact E. exact Hl. }
        split; [intros k Hk; apply keys_delete_incl in Hk; tauto |].
        split; [apply NoDup_delete |].
        intros Hb.
        assert (Hlt : (length (delete oldest ((oldest, e) :: rest))
                       < length ((oldest, e) :: rest))%nat).
        { apply (length_delete_lt oldest e). simpl. rewrite String.eqb_refl. reflexivity. }
        lia.
    + exists (cache c). split; [reflexivity |]. split; [exact Hl |].
      split; [tauto |]. split; [tauto |].
      intros _. apply Nat.leb_gt in Hfull. lia.
Qed.

Lemma get_hit (key : string) (now : Z) (c : MemoryCache) (e : CacheEntry) :
  lookup key (cache c) = Some e -> now - timestamp e < cacheTimeout c ->
  get key now c
  = (Some (data e),
     mkMemoryCache (delete key (cache c) ++ [(key, e)]) (cacheTimeout c) (maxSize c)).
Proof.
  intros Hl Hf. unfold get. rewrite Hl.
  apply Z.ltb_lt in Hf. rewrite Hf. reflexivity.
Qed.

Lemma get_expired (key : string) (now : Z) (c : MemoryCache) (e : CacheEntry) :
  lookup key (cache c) = Some e -> cacheTimeout c <= now - timestamp e ->
  get key now c
  = (None, mkMemoryCache (delete key (cache c)) (cacheTimeout c) (maxSize c)).
Proof.
  intros Hl Hf. unfold get. rewrite Hl.
  apply Z.ltb_ge in Hf. rewrite Hf. reflexivity.
Qed.

Lemma set_config (key : string) (value : json) (now : Z) (c : MemoryCache) :
  cacheTimeout (set key value now c) = cacheTimeout c
  /\ maxSize (set key value now c) = maxSize c.
Proof. split; reflexivity. Qed.

Lemma get_config (key : string) (now : Z) (c : MemoryCache) :
  cacheTimeout (snd (get key now c)) = cacheTimeout c
  /\ maxSize (snd (get key now c)) = maxSize c.
Proof.
  unfold get. destruct (lookup key (cache c)); [| split; reflexivity].
  destruct (_ <? _); split; reflexivity.
Qed.

Lemma lookup_set_same (key : string) (value : json) (now : Z) (c : MemoryCache) :
  lookup key (cache (set key value now c)) = Some (mkCacheEntry value now).
Proof.
  destruct (set_cache key value now c) as (kept & -> & Hk & _).
  apply lookup_app_last, Hk.
Qed.

(** X1.  A value written under a key is what a read of that key returns
    for as long as less than the time-to-live has passed since the write;
    from then on the read returns [undefined] and drops the entry.  A read
    does not prolong the life of an entry. *)
Theorem set_then_get (c : MemoryCache) (key : string) (value : json) (now : Z) :
  (forall later,
     later - now < cacheTimeout c ->
     fst (get key later (set key value now c)) = Some value)
  /\ (forall later,
        cacheTimeout c <= later - now ->
        fst (get key later (set key value now c)) = None
        /\ lookup key (cache (snd (get key later (set key value now c)))) = None)
  /\ (forall sooner later,
        sooner - now < cacheTimeout c ->
        fst (get key later (snd (get key sooner (set key value now c))))
        = fst (get key later (set key value now c))).
Proof.
  pose proof (lookup_set_same key value now c) as Hl.
  split; [| split].
  - intros later Hf. rewrite (get_hit _ _ _ _ Hl); [reflexivity | exact Hf].
  - intros later Hf. rewrite (get_expired _ _ _ _ Hl); [| exact Hf].
    split; [reflexivity |]. simpl. apply lookup_delete_same.
  - intros sooner later Hf.
    rewrite (get_hit _ _ _ _ Hl) by exact Hf. simpl snd.
    unfold get at 1. simpl cache.
    rewrite lookup_app_last by apply lookup_delete_same. simpl.
    destruct (Z.ltb_spec (later - now) (cacheTimeout c)) as [Hlt | Hge].
    + rewrite (get_hit _ _ _ _ Hl) by exact Hlt. reflexivity.
    + rewrite (get_expired _ _ _ _ Hl) by exact Hge. reflexivity.
Qed.

Lemma set_then_get_witness :
  fst (get "a" 999 (set "a" (JStr "v") 0 fullCache)) = Some (JStr "v")
  /\ fst (get "a" 1000 (set "a" (JStr "v") 0 fullCache)) = None
  /\ fst (get "a" 1500 (snd (get "a" 999 (set "a" (JStr "v") 0 fullCache))))
     = fst (get "a" 1500 (set "a" (JStr "v") 0 fullCache)).
Proof.
  split; [| split].
  - apply (proj1 (set_then_get fullCache "a" (JStr "v") 0) 999). reflexivity.
  - apply (proj1 (proj2 (set_then_get fullCache "a" (JStr "v") 0)) 1000). vm_compute.
    discriminate.
  - apply (proj2 (proj2 (set_then_get fullCache "a" (JStr "v") 0)) 999 1500). reflexivity.
Defined.

(** X2.  The cache never holds one key twice, nor more than [maxSize]
    entries, one entry being allowed when [maxSize] is 0: [create] gives
    such a cache, and [set], [get] and [clear] keep it so.  With [maxSize]
    0, after every write the cache holds the entry just written and
    nothing else. *)
Theorem cache_stays_bounded :
  (forall timeoutMs size, Bounded (create timeoutMs size))
  /\ (forall c key value now, Bounded c -> Bounded (set key value now c))
  /\ (forall c key now, Bounded c -> Bounded (snd (get key now c)))
  /\ (forall c, Bounded (clear c))
  /\ (forall c key value now,
        maxSize c = 0%nat -> Bounded c ->
        cache (set key value now c) = [(key, mkCacheEntry value now)]).
Proof.
  split; [| split; [| split; [| split]]].
  - intros t n. split; [constructor | unfold capacity; simpl; lia].
  - intros c key value now [Hn Hb].
    destruct (set_cache key value now c) as (kept & Hc & Hk & _ & Hnd & Hlen).
    unfold Bounded, keys. rewrite Hc. split.
    + rewrite map_app. simpl. apply NoDup_snoc; [auto |].
      apply lookup_None_notin, Hk.
    + rewrite length_app. simpl. specialize (Hlen Hb).
      change (capacity (set key value now c)) with (capacity c). lia.
  - intros c key now [Hn Hb]. unfold get.
    destruct (lookup key (cache c)) as [e |] eqn:Hl; [| split; assumption].
    pose proof (length_delete_lt _ _ _ Hl) as Hlt.
    destruct (_ <? _); unfold Bounded, keys, capacity in *; simpl.
    + split.
      * rewrite map_app. simpl. apply NoDup_snoc; [apply NoDup_delete, Hn |].
        apply lookup_None_notin, lookup_delete_same.
      * rewrite length_app. simpl. lia.
    + split; [apply NoDup_delete, Hn | lia].
  - intros c. split; [constructor | unfold capacity; simpl; lia].
  - intros [entries ttl size] key value now Hsize [_ Hb].
    unfold capacity in Hb. simpl in Hsize, Hb. subst size.
    destruct entries as [| [k e] [| kv rest]]; [| | simpl in Hb; lia].
    + reflexivity.
    + unfold set. cbn [cache maxSize cacheTimeout lookup].
      destruct (String.eqb key k) eqn:E.
      * rewrite delete_cons. cbn [fst]. rewrite E. reflexivity.
      * cbn [length Nat.leb]. rewrite delete_cons. cbn [fst].
        rewrite String.eqb_refl. reflexivity.
Qed.

Lemma cache_stays_bounded_witness :
  Bounded (set "d" (JNum 4) 10 fullCache) /\ Bounded (snd (get "a" 10 fullCache))
  /\ cache (set "b" (JNum 2) 10 noRoom) = [("b", mkCacheEntry (JNum 2) 10)].
Proof.
  assert (H : Bounded fullCache).
  { split; [| unfold capacity; simpl; lia].
    repeat (apply List.NoDup_cons_iff; split;
            [simpl; intros H; repeat destruct H as [H | H]; try discriminate H; exact H |]).
    constructor. }
  assert (H0 : Bounded noRoom).
  { split; [| unfold capacity; simpl; lia].
    apply List.NoDup_cons_iff. split; [intros [] | constructor]. }
  split; [| split].
  - apply (proj1 (proj2 cache_stays_bounded) fullCache "d" (JNum 4) 10). exact H.
  - apply (proj1 (proj2 (proj2 cache_stays_bounded)) fullCache "a" 10). exact H.
  - apply (proj2 (proj2 (proj2 (proj2 cache_stays_bounded))) noRoom "b" (JNum 2) 10);
      [reflexivity | exact H0].
Defined.

(** X3.  Eviction is by least recent use.  Writing a new key into a full
    cache drops the first entry and nothing else; after a read that hits
    the first entry, that entry is the last one and the write drops the
    second entry instead. *)
Theorem set_evicts_least_recently_used
    (c : MemoryCache) (k0 k1 : string) (e0 e1 : CacheEntry)
    (rest : list (string * CacheEntry)) (key : string) (value : json) (now : Z) :
  cache c = (k0, e0) :: (k1, e1) :: rest ->
  List.NoDup (keys c) ->
  length (cache c) = maxSize c ->
  lookup key (cache c) = None ->
  cache (set key value now c)
  = (k1, e1) :: rest ++ [(key, mkCacheEntry value now)]
  /\ (forall read,
        read - timestamp e0 < cacheTimeout c ->
        cache (set key value now (snd (get k0 read c)))
        = rest ++ [(k0, e0); (key, mkCacheEntry value now)]).
Proof.
  intros Hc Hn Hfull Hnew. unfold keys in Hn. rewrite Hc in Hn. simpl in Hn.
  apply List.NoDup_cons_iff in Hn as [Hk0 Hn].
  apply List.NoDup_cons_iff in Hn as [Hk1 Hn].
  assert (Hd0 : delete k0 (cache c) = (k1, e1) :: rest).
  { rewrite Hc, delete_cons. simpl. rewrite String.eqb_refl.
    apply (delete_notin k0 ((k1, e1) :: rest)). exact Hk0. }
  split.
  - unfold set. rewrite Hnew. rewrite <- Hfull, Nat.leb_refl.
    rewrite Hc at 1. rewrite Hd0. reflexivity.
  - intros read Hf.
    assert (Hl0 : lookup k0 (cache c) = Some e0).
    { rewrite Hc. simpl. rewrite String.eqb_refl. reflexivity. }
    rewrite (get_hit _ _ _ _ Hl0 Hf). simpl snd. rewrite Hd0.
    assert (Hne : key <> k0).
    { intros ->. rewrite Hl0 in Hnew. discriminate. }
    assert (Hnew' : lookup key (((k1, e1) :: rest) ++ [(k0, e0)]) = None).
    { rewrite lookup_app_other by exact Hne.
      rewrite <- Hd0. rewrite lookup_delete_other by exact Hne. exact Hnew. }
    assert (Hlen : (maxSize c <=? length (((k1, e1) :: rest) ++ [(k0, e0)]))%nat = true).
    { apply Nat.leb_le. rewrite <- Hfull, Hc, length_app. simpl. lia. }
    assert (Hk1' : ~ In k1 (map fst (rest ++ [(k0, e0)]))).
    { rewrite map_app, in_app_iff. simpl. intros [H | [H | []]]; [contradiction |].
      apply Hk0. left. symmetry. exact H. }
    remember (((k1, e1) :: rest) ++ [(k0, e0)]) as entries eqn:He.
    unfold set. cbn [cache maxSize cacheTimeout]. rewrite Hnew', Hlen.
    rewrite He at 1. cbn [app]. rewrite He. cbn [app].
    rewrite delete_cons. cbn [fst]. rewrite String.eqb_refl.
    rewrite (delete_notin k1 _ Hk1'). rewrite <- app_assoc. reflexivity.
Qed.

Lemma set_evicts_least_recently_used_witness :
  cache (set "d" (JNum 4) 10 fullCache)
  = [("b", sampleEntry 2); ("c", sampleEntry 3); ("d", mkCacheEntry (JNum 4) 10)]
  /\ cache (set "d" (JNum 4) 10 (snd (get "a" 5 fullCache)))
     = [("c", sampleEntry 3); ("a", sampleEntry 1); ("d", mkCacheEntry (JNum 4) 10)].
Proof.
  assert (Hn : List.NoDup (keys fullCache)).
  { repeat (apply List.NoDup_cons_iff; split;
            [simpl; intros H; repeat destruct H as [H | H]; try discriminate H; exact H |]).
    constructor. }
  pose proof (set_evicts_least_recently_used fullCache "a" "b" (sampleEntry 1)
                (sampleEntry 2) [("c", sampleEntry 3)] "d" (JNum 4) 10
                eq_refl Hn eq_refl eq_refl) as [H1 H2].
  split; [exact H1 |]. apply (H2 5). reflexivity.
Defined.

End MemoryCacheFacts.

(** ** The transport client: schedule, cached replies, final failures *)

Module RequestFacts.

Import HttpClient HttpSpec HttpFacts RequestSpec MemoryCacheFacts.

Lemma validateResponse_Ok (value : json) (url : string) :
  validateResponse value url = Ok tt <-> Acceptable value.
Proof.
  unfold Acceptable. split.
  - destruct value as [| b | n | s | items | props]; simpl; try discriminate.
    destruct props as [| p props]; [discriminate |].
    remember (p :: props) as ps eqn:Hps. intros H.
    exists ps. split; [reflexivity |]. split; [subst; discriminate |].
    assert (Hps' : match ps with [] => False | _ => True end) by (subst; exact I).
    destruct ps as [| q qs]; [contradiction |]. clear Hps Hps'.
    destruct (Json.lookup "error" (q :: qs)) as [e |] eqn:He.
    + destruct (Json.truthy e) eqn:Ht; [discriminate |].
      split; [intros e' [= <-]; exact Ht |].
      intros x xs Hx. rewrite Hx in H. discriminate.
    + split; [discriminate |].
      intros x xs Hx. rewrite Hx in H. discriminate.
  - intros (props & -> & Hne & Herr & Herrs). simpl.
    destruct props as [| p props]; [contradiction |].
    destruct (Json.lookup "error" (p :: props)) as [e |] eqn:He.
    + rewrite (Herr e eq_refl).
      destruct (Json.lookup "errors" (p :: props)) as [[| | | | [| x xs] |] |] eqn:Hx;
        try reflexivity.
      exfalso. exact (Herrs x xs eq_refl).
    + destruct (Json.lookup "errors" (p :: props)) as [[| | | | [| x xs] |] |] eqn:Hx;
        try reflexivity.
      exfalso. exact (Herrs x xs eq_refl).
Qed.

Lemma validateResponse_Throw (value : json) (url : string) (error : Thrown) :
  validateResponse value url = Throw error -> isRetryableError error = false.
Proof.
  unfold validateResponse.
  repeat match goal with
         | |- context [match ?x with _ => _ end] => destruct x
         end; intros [= <-]; reflexivity.
Qed.

Lemma validateResponse_truthy (value : json) (url : string) :
  validateResponse value url = Ok tt -> Json.truthy value = true.
Proof.
  intros H. apply validateResponse_Ok in H as (props & -> & _). reflexivity.
Qed.

(** What one attempt leaves alone. *)
Lemma attemptRequest_frame (url : string) (w : Net) :
  let w' := snd (attemptRequest url w) in
  transport w' = transport w /\ delays w' = delays w /\ clock w' = clock w
  /\ (calls w <= calls w' <= S (calls w))%nat
  /\ MemoryCache.cacheTimeout (memory w') = MemoryCache.cacheTimeout (memory w).
Proof.
  unfold attemptRequest, Eff.bind, cacheGet, axiosGet, cacheSet, Eff.ret, Eff.throw.
  pose proof (get_config url (clock w) (memory w)) as [Ht _].
  destruct (MemoryCache.get url (clock w) (memory w)) as [hit c].
  simpl in Ht. simpl.
  destruct hit as [value |]; [destruct (Json.truthy value) |]; simpl;
    try (destruct (transport w url (calls w)) as [v | e]; simpl;
         [destruct (validateResponse v url); simpl |]);
    repeat split; auto; lia.
Qed.

(** A successful attempt leaves its value in the response cache. *)
Lemma attemptRequest_caches (url : string) (w : Net) (value : json) (w' : Net) :
  0 < MemoryCache.cacheTimeout (memory w) ->
  attemptRequest url w = (Ok value, w') ->
  Cached url value w' /\ Json.truthy value = true.
Proof.
  intros Hpos. unfold attemptRequest, Eff.bind, cacheGet, axiosGet, cacheSet, Eff.ret, Eff.throw.
  assert (Hfetch : forall c,
    MemoryCache.cacheTimeout c = MemoryCache.cacheTimeout (memory w) ->
    forall v, validateResponse v url = Ok tt ->
    Cached url v (mkNet (transport w) (S (calls w)) (delays w)
                        (MemoryCache.set url v (clock w) c) (clock w))
    /\ Json.truthy v = true).
  { intros c Hc v Hv. split; [| exact (validateResponse_truthy _ _ Hv)].
    exists (MemoryCache.mkCacheEntry v (clock w)). simpl.
    split; [apply lookup_set_same |]. split; [reflexivity |].
    rewrite Hc. lia. }
  pose proof (get_config url (clock w) (memory w)) as [Ht _].
  unfold MemoryCache.get in *.
  destruct (MemoryCache.lookup url (MemoryCache.cache (memory w))) as [e |] eqn:Hl.
  - destruct (Z.ltb_spec (clock w - MemoryCache.timestamp e)
                         (MemoryCache.cacheTimeout (memory w))) as [Hf | Hf]; simpl.
    + destruct (Json.truthy (MemoryCache.data e)) eqn:Htr; simpl.
      * intros [= <- <-]. split; [| exact Htr].
        exists e. simpl. split; [| split; [reflexivity | exact Hf]].
        apply lookup_app_last, lookup_delete_same.
      * destruct (transport w url (calls w)) as [v | err]; [| discriminate].
        destruct (validateResponse v url) as [[] | err] eqn:Hv; [| discriminate].
        simpl. intros [= <- <-]. apply Hfetch; [reflexivity | exact Hv].
    + destruct (transport w url (calls w)) as [v | err]; [| discriminate].
      destruct (validateResponse v url) as [[] | err] eqn:Hv; [| discriminate].
      simpl. intros [= <- <-]. apply Hfetch; [reflexivity | exact Hv].
  - simpl. destruct (transport w url (calls w)) as [v | err]; [| discriminate].
    destruct (validateResponse v url) as [[] | err] eqn:Hv; [| discriminate].
    simpl. intros [= <- <-]. apply Hfetch; [reflexivity | exact Hv].
Qed.

(** A fresh truthy value in the cache answers the attempt by itself. *)
Lemma attemptRequest_hit (url : string) (value : json) (w : Net) :
  Cached url value w -> Json.truthy value = true ->
  exists w',
    attemptRequest url w = (Ok value, w')
    /\ calls w' = calls w /\ delays w' = delays w /\ clock w' = clock w
    /\ transport w' = transport w.
Proof.
  intros (e & Hl & <- & Hf) Htr.
  unfold attemptRequest, Eff.bind, cacheGet.
  rewrite (get_hit _ _ _ _ Hl Hf). simpl. rewrite Htr.
  eexists. split; [reflexivity |]. repeat split.
Qed.

Lemma delay_frame (ms : Z) (w : Net) :
  let w' := snd (delay ms w) in
  transport w' = transport w /\ delays w' = delays w ++ [ms]
  /\ calls w' = calls w /\ memory w' = memory w.
Proof. repeat split. Qed.

Lemma backoff_S (config : HttpConfig) (attempt : Z) (k : nat) :
  backoff config attempt (S k)
  = (baseRetryDelayMs config * 2 ^ (attempt - 1)) :: backoff config (attempt + 1) k.
Proof.
  unfold backoff. simpl. rewrite Z.add_0_r. f_equal.
  rewrite <- seq_shift, map_map. apply map_ext. intros i.
  do 2 f_equal. lia.
Qed.

Lemma attemptRequest_refused (url : string) (w : Net) (value : json) (error : Thrown) :
  cacheMisses url w ->
  transport w url (calls w) = Ok value ->
  validateResponse value url = Throw error ->
  attemptRequest url w = (Throw error, called w).
Proof.
  intros Hmiss Hcall Hv. unfold attemptRequest, Eff.bind, cacheGet, MemoryCache.get.
  unfold cacheMisses in Hmiss. rewrite Hmiss. unfold axiosGet. simpl.
  rewrite Hcall, Hv. destruct w as [t c d [entries ttl size] k]. reflexivity.
Qed.

(** A request whose first call does not fail retryably, or which has no
    attempt left, ends with that call. *)
Lemma makeRequest_last (config : HttpConfig) (path : string) (attempt : Z) (w : Net) :
  let url := baseUrl config +:+ "/" +:+ path in
  cacheMisses url w ->
  failsRetryably url w (calls w) = false \/ maxRetryAttempts config <= attempt ->
  delays (snd (makeRequest config path attempt w)) = delays w
  /\ calls (snd (makeRequest config path attempt w)) = S (calls w)
  /\ fst (makeRequest config path attempt w) = outcome url (transport w url (calls w)).
Proof.
  intros url Hmiss Hlast. rewrite makeRequest_unfold. fold url.
  unfold failsRetryably, outcome in *.
  destruct (transport w url (calls w)) as [value | error] eqn:Hcall.
  - destruct (validateResponse value url) as [[] | error] eqn:Hv.
    + destruct (attemptRequest_success url w value Hmiss Hcall Hv) as (w' & -> & Hc & Hd).
      repeat split; assumption.
    + rewrite (attemptRequest_refused url w value error Hmiss Hcall Hv).
      rewrite (validateResponse_Throw _ _ _ Hv). repeat split.
  - rewrite (attemptRequest_failure url w error Hmiss Hcall).
    replace (isRetryableError error && (attempt <? maxRetryAttempts config)) with false.
    + repeat split.
    + symmetry. apply andb_false_iff.
      destruct Hlast as [H | H]; [left; exact H | right; apply Z.ltb_ge; exact H].
Qed.

Lemma retries_transport (url : string) (w w' : Net) (budget n : nat) :
  transport w' = transport w -> retries url w' budget n = retries url w budget n.
Proof.
  intros Ht. revert n. induction budget as [| budget IH]; intros n; simpl; [reflexivity |].
  unfold failsRetryably. rewrite Ht, IH. reflexivity.
Qed.

(** [retries] counts the retryable failures in a row. *)
Lemma retries_counted (url : string) (w : Net) (budget n : nat) :
  (forall i, (i < retries url w budget n)%nat -> failsRetryably url w (n + i) = true)
  /\ (failsRetryably url w (n + retries url w budget n) = false
      \/ retries url w budget n = budget)
  /\ (retries url w budget n <= budget)%nat.
Proof.
  revert n. induction budget as [| budget IH]; intros n; simpl.
  - split; [intros i Hi; lia |]. split; [right; reflexivity | lia].
  - destruct (failsRetryably url w n) eqn:Hf.
    + destruct (IH (S n)) as (H1 & H2 & H3). split; [| split; [| lia]].
      * intros [| i] Hi; [rewrite Nat.add_0_r; exact Hf |].
        replace (n + S i)%nat with (S n + i)%nat by lia. apply H1. lia.
      * replace (n + S (retries url w budget (S n)))%nat
          with (S n + retries url w budget (S n))%nat by lia.
        destruct H2 as [H2 | H2]; [left; exact H2 | right; rewrite H2; reflexivity].
    + split; [intros i Hi; lia |]. split; [left; rewrite Nat.add_0_r; exact Hf | lia].
Qed.

Lemma makeRequest_retries (config : HttpConfig) (path : string) (budget : nat) :
  forall (attempt : Z) (w : Net),
    let url := baseUrl config +:+ "/" +:+ path in
    let k := retries url w budget (calls w) in
    budget = Z.to_nat (maxRetryAttempts config - attempt) ->
    cacheMisses url w ->
    delays (snd (makeRequest config path attempt w)) = delays w ++ backoff config attempt k
    /\ calls (snd (makeRequest config path attempt w)) = (calls w + k + 1)%nat
    /\ fst (makeRequest config path attempt w) = outcome url (transport w url (calls w + k)).
Proof.
  induction budget as [| budget IH]; intros attempt w url k Hbudget Hmiss; subst k.
  - destruct (makeRequest_last config path attempt w Hmiss) as (Hd & Hc & Hr);
      [right; lia |].
    cbn [retries]. unfold backoff. cbn [seq map]. rewrite app_nil_r, !Nat.add_0_r.
    split; [exact Hd |]. split; [rewrite Hc; lia | exact Hr].
  - cbn [retries]. destruct (failsRetryably url w (calls w)) eqn:Hf.
    + unfold failsRetryably in Hf.
      destruct (transport w url (calls w)) as [value | error] eqn:Hcall; [discriminate |].
      rewrite makeRequest_unfold. fold url.
      rewrite (attemptRequest_failure url w error Hmiss Hcall), Hf.
      replace (attempt <? maxRetryAttempts config) with true
        by (symmetry; apply Z.ltb_lt; lia).
      cbn [andb].
      set (w2 := snd (delay (baseRetryDelayMs config * 2 ^ (attempt - 1)) (called w))).
      destruct (IH (attempt + 1) w2) as (Hd & Hc & Hr); [lia | exact Hmiss |].
      fold url in Hd, Hc, Hr.
      rewrite (retries_transport url w w2 budget (calls w2) eq_refl) in Hd, Hc, Hr.
      change (calls w2) with (S (calls w)) in Hd, Hc, Hr.
      change (transport w2) with (transport w) in Hr.
      change (delays w2)
        with (delays w ++ [baseRetryDelayMs config * 2 ^ (attempt - 1)]) in Hd.
      rewrite backoff_S. split; [| split].
      * rewrite Hd, <- app_assoc. reflexivity.
      * rewrite Hc. lia.
      * rewrite Hr. do 2 f_equal. lia.
    + destruct (makeRequest_last config path attempt w Hmiss) as (Hd & Hc & Hr);
        [left; exact Hf |].
      unfold backoff. cbn [seq map]. rewrite app_nil_r, !Nat.add_0_r.
      split; [exact Hd |]. split; [rewrite Hc; lia | exact Hr].
Qed.

(** X4.  A request that finds nothing in the response cache, started at
    attempt [attempt] (1 or more), retries exactly [k] times, where [k] is
    the number of its first calls that fail retryably in a row, at most the
    attempts left below [maxRetryAttempts]: it makes [k + 1] calls, sleeps
    exactly the delays [baseDelay * 2^(attempt-1)], ...,
    [baseDelay * 2^(attempt+k-2)] in between, and ends with what its last
    call gives: the response if [validateResponse] accepts it, else the
    failure, wrapped. *)
Theorem makeRequest_sleeps_the_schedule
    (config : HttpConfig) (path : string) (attempt : Z) (w : Net) :
  let url := baseUrl config +:+ "/" +:+ path in
  let k := retries url w (Z.to_nat (maxRetryAttempts config - attempt)) (calls w) in
  1 <= attempt ->
  cacheMisses url w ->
  (forall i, (i < k)%nat -> failsRetryably url w (calls w + i) = true)
  /\ (failsRetryably url w (calls w + k) = false
      \/ maxRetryAttempts config <= attempt + Z.of_nat k)
  /\ (k = 0%nat \/ attempt + Z.of_nat k <= maxRetryAttempts config)
  /\ delays (snd (makeRequest config path attempt w)) = delays w ++ backoff config attempt k
  /\ calls (snd (makeRequest config path attempt w)) = (calls w + k + 1)%nat
  /\ fst (makeRequest config path attempt w) = outcome url (transport w url (calls w + k)).
Proof.
  intros url k Hattempt Hmiss.
  destruct (retries_counted url w (Z.to_nat (maxRetryAttempts config - attempt)) (calls w))
    as (H1 & H2 & H3).
  fold k in H1, H2, H3.
  split; [exact H1 |]. split; [| split].
  - destruct H2 as [H2 | H2]; [left; exact H2 | right; lia].
  - destruct k; [left; reflexivity | right; lia].
  - apply (makeRequest_retries config path _ attempt w eq_refl Hmiss).
Qed.

Lemma makeRequest_sleeps_the_schedule_witness :
  delays (snd (makeRequest defaultHttpConfig "documentation/swiftui.json" 1 flakyNet))
  = [500; 1000]
  /\ calls (snd (makeRequest defaultHttpConfig "documentation/swiftui.json" 1 flakyNet))
     = 3%nat
  /\ fst (makeRequest defaultHttpConfig "documentation/swiftui.json" 1 flakyNet)
     = Ok frameworkPayload
  /\ delays (snd (makeRequest defaultHttpConfig "documentation/swiftui.json" 1 deadNet))
     = [500; 1000]
  /\ calls (snd (makeRequest defaultHttpConfig "documentation/swiftui.json" 1 deadNet))
     = 3%nat
  /\ fst (makeRequest defaultHttpConfig "documentation/swiftui.json" 1 deadNet)
     = Throw (FetchError serviceUnavailable).
Proof.
  pose proof (makeRequest_sleeps_the_schedule defaultHttpConfig
                "documentation/swiftui.json" 1 flakyNet ltac:(lia) eq_refl)
    as (_ & _ & _ & H1 & H2 & H3).
  pose proof (makeRequest_sleeps_the_schedule defaultHttpConfig
                "documentation/swiftui.json" 1 deadNet ltac:(lia) eq_refl)
    as (_ & _ & _ & H4 & H5 & H6).
  repeat split; assumption.
Defined.

Lemma makeRequest_Ok (config : HttpConfig) (path : string) (attempt : Z) (w : Net)
    (value : json) (w' : Net) :
  makeRequest config path attempt w = (Ok value, w') ->
  exists w0,
    attemptRequest (baseUrl config +:+ "/" +:+ path) w0 = (Ok value, w')
    /\ MemoryCache.cacheTimeout (memory w0) = MemoryCache.cacheTimeout (memory w).
Proof.
  remember (Z.to_nat (maxRetryAttempts config - attempt)) as fuel eqn:Hfuel.
  revert attempt w Hfuel.
  induction fuel as [fuel IH] using lt_wf_ind. intros attempt w Hfuel.
  rewrite makeRequest_unfold.
  pose proof (attemptRequest_frame (baseUrl config +:+ "/" +:+ path) w)
    as (_ & _ & _ & _ & Ht).
  destruct (attemptRequest _ w) as [[v | error] w1] eqn:Ha; cbn [snd] in *.
  - intros [= <- <-]. exists w. split; [exact Ha | reflexivity].
  - destruct (isRetryableError error && (attempt <? maxRetryAttempts config)) eqn:Hretry;
      [| discriminate].
    apply andb_prop in Hretry as [_ Hlt]. apply Z.ltb_lt in Hlt.
    assert (Hfuel' : (Z.to_nat (maxRetryAttempts config - (attempt + 1)) < fuel)%nat)
      by (subst fuel; clear - Hlt; lia).
    intros H. destruct (IH _ Hfuel' _ _ eq_refl H) as (w0 & H0 & Ht0).
    exists w0. split; [exact H0 |]. rewrite Ht0. exact Ht.
Qed.

(** X5.  A request that has succeeded is answered from the response cache
    when it is made again before time passes: the same value comes back
    with no further call, no delay and, whatever the attempt number, no
    retry (the cache keeps entries for a positive time). *)
Theorem repeated_request_is_served_from_cache
    (config : HttpConfig) (path : string) (attempt : Z) (w : Net)
    (value : json) (w' : Net) :
  0 < MemoryCache.cacheTimeout (memory w) ->
  makeRequest config path attempt w = (Ok value, w') ->
  forall again, exists w'',
    makeRequest config path again w' = (Ok value, w'')
    /\ calls w'' = calls w' /\ delays w'' = delays w' /\ clock w'' = clock w'.
Proof.
  intros Hpos Hok again.
  destruct (makeRequest_Ok _ _ _ _ _ _ Hok) as (w0 & H0 & Ht0).
  rewrite <- Ht0 in Hpos.
  destruct (attemptRequest_caches _ _ _ _ Hpos H0) as [Hc Htr].
  destruct (attemptRequest_hit _ _ _ Hc Htr) as (w'' & Hhit & H1 & H2 & H3 & _).
  exists w''. rewrite makeRequest_unfold, Hhit. repeat split; assumption.
Qed.

Lemma repeated_request_is_served_from_cache_witness :
  exists w'',
    makeRequest defaultHttpConfig "documentation/swiftui.json" 2
      (snd (makeRequest defaultHttpConfig "documentation/swiftui.json" 1 steadyNet))
    = (Ok (JObj [("metadata", JObj [("title", JStr "SwiftUI")])]), w'')
    /\ calls w'' = calls (snd (makeRequest defaultHttpConfig "documentation/swiftui.json" 1
                                          steadyNet))
    /\ delays w'' = delays (snd (makeRequest defaultHttpConfig "documentation/swiftui.json" 1
                                            steadyNet))
    /\ clock w'' = clock (snd (makeRequest defaultHttpConfig "documentation/swiftui.json" 1
                                          steadyNet)).
Proof.
  apply (repeated_request_is_served_from_cache defaultHttpConfig
           "documentation/swiftui.json" 1 steadyNet).
  - reflexivity.
  - rewrite makeRequest_unfold. reflexivity.
Defined.

(** X6.  A failure that is not retryable is raised at once, wrapped, after
    one call and no delay, whatever the attempt number; so is a response
    that [validateResponse] refuses, which is not stored in the cache.  The
    responses that pass are the non-empty objects with no truthy [error]
    and no non-empty [errors] array. *)
Theorem final_failures_are_raised_at_once
    (config : HttpConfig) (path : string) (attempt : Z) (w : Net) :
  let url := baseUrl config +:+ "/" +:+ path in
  cacheMisses url w ->
  (forall error,
     transport w url (calls w) = Throw error -> isRetryableError error = false ->
     makeRequest config path attempt w = (Throw (FetchError error), called w))
  /\ (forall value,
        transport w url (calls w) = Ok value -> ~ Acceptable value ->
        exists error,
          makeRequest config path attempt w = (Throw (FetchError error), called w)
          /\ cacheMisses url (called w)).
Proof.
  intros url Hmiss. split.
  - intros error Hcall Hno. rewrite makeRequest_unfold.
    fold url. rewrite (attemptRequest_failure url w error Hmiss Hcall), Hno.
    reflexivity.
  - intros value Hcall Hbad.
    destruct (validateResponse value url) as [[] | error] eqn:Hv.
    + exfalso. apply Hbad. apply (validateResponse_Ok value url). exact Hv.
    + exists error. split; [| exact Hmiss].
      rewrite makeRequest_unfold. fold url.
      assert (Ha : attemptRequest url w = (Throw error, called w)).
      { unfold attemptRequest, Eff.bind, cacheGet, MemoryCache.get.
        unfold cacheMisses in Hmiss. rewrite Hmiss. unfold axiosGet. simpl.
        rewrite Hcall, Hv. destruct w as [t c d [entries ttl size] k]. reflexivity. }
      rewrite Ha, (validateResponse_Throw _ _ _ Hv). reflexivity.
Qed.

Lemma final_failures_are_raised_at_once_witness :
  makeRequest defaultHttpConfig "documentation/swiftui.json" 1 notFoundNet
  = (Throw (FetchError (AxiosError None (Some 404))), called notFoundNet)
  /\ exists error,
       makeRequest defaultHttpConfig "documentation/swiftui.json" 1 emptyObjectNet
       = (Throw (FetchError error), called emptyObjectNet)
       /\ cacheMisses "https://developer.apple.com/tutorials/data/documentation/swiftui.json"
            (called emptyObjectNet).
Proof.
  split.
  - apply (proj1 (final_failures_are_raised_at_once defaultHttpConfig
                    "documentation/swiftui.json" 1 notFoundNet eq_refl));
      reflexivity.
  - apply (proj2 (final_failures_are_raised_at_once defaultHttpConfig
                    "documentation/swiftui.json" 1 emptyObjectNet eq_refl) (JObj []));
      [reflexivity |].
    intros (props & Hp & Hne & _). apply Hne. injection Hp as <-. reflexivity.
Defined.

End RequestFacts.

(** ** The list of technologies *)

Module TechnologiesFacts.

Import JsonText FileCache AppleDevDocsClient FileCacheFacts ClientSpec ClientFacts
  TechnologiesSpec.

Lemma put_fresh (props : list (string * json)) (k : string) (v : json) :
  ~ In k (map fst props) -> put props k v = props ++ [(k, v)].
Proof.
  induction props as [| [k0 v0] props IH]; simpl; [reflexivity |].
  intros Hn. destruct (String.eqb k k0) eqn:E.
  - apply String.eqb_eq in E. subst. exfalso. auto.
  - f_equal. apply IH. auto.
Qed.

Lemma put_keys (props : list (string * json)) (k : string) (v : json) (k' : string) :
  In k' (map fst (put props k v)) <-> k' = k \/ In k' (map fst props).
Proof.
  induction props as [| [k0 v0] props IH]; simpl.
  - intuition.
  - destruct (String.eqb k k0) eqn:E; simpl.
    + apply String.eqb_eq in E. subst k0. intuition.
    + rewrite IH. intuition.
Qed.

Lemma put_Forall (P : string * json -> Prop) (props : list (string * json))
    (k : string) (v : json) :
  List.Forall P props -> P (k, v) -> List.Forall P (put props k v).
Proof.
  intros H Hv. induction H as [| [k0 v0] props H0 H IH]; simpl.
  - constructor; [exact Hv | constructor].
  - destruct (String.eqb k k0).
    + constructor; assumption.
    + constructor; assumption.
Qed.

Lemma put_NoDup (props : list (string * json)) (k : string) (v : json) :
  List.NoDup (map fst props) -> List.NoDup (map fst (put props k v)).
Proof.
  induction props as [| [k0 v0] props IH]; simpl; intros H.
  - constructor; [intros [] | constructor].
  - apply List.NoDup_cons_iff in H as [H1 H2].
    destruct (String.eqb k k0) eqn:E; simpl.
    + apply String.eqb_eq in E. subst k0. apply List.NoDup_cons_iff. auto.
    + apply String.eqb_neq in E. apply List.NoDup_cons_iff. split; [| auto].
      rewrite put_keys. intros [-> | Hin]; [congruence | contradiction].
Qed.

Lemma assign_Technologies (found : list (string * json)) (k : string) (v : json) :
  Technologies found -> isTechnology v = true -> Technologies (assign found k v).
Proof.
  intros (Hf & Hn & Hp) Hv. unfold assign.
  destruct (String.eqb k "__proto__") eqn:E; [repeat split; assumption |].
  apply String.eqb_neq in E. split; [| split].
  - apply put_Forall; assumption.
  - apply put_NoDup, Hn.
  - rewrite put_keys. intros [H | H]; [congruence | contradiction].
Qed.

(** The loop of [parseTechnologiesResponse], from any start. *)
Lemma collect_technologies (refs acc : list (string * json)) :
  Technologies acc ->
  let out := fold_left
               (fun technologies kv =>
                  if isTechnology (snd kv) then assign technologies (fst kv) (snd kv)
                  else technologies)
               refs acc in
  Technologies out
  /\ (forall k, In k (map fst out) -> In k (map fst acc) \/ In k (map fst refs))
  /\ (List.NoDup (map fst acc ++ map fst refs) ->
      out = acc ++ List.filter kept refs).
Proof.
  revert acc. induction refs as [| [k v] refs IH]; intros acc Hacc; simpl.
  - split; [exact Hacc |]. split; [auto |].
    intros _. rewrite app_nil_r. reflexivity.
  - unfold kept at 1. cbn [fst snd]. destruct (isTechnology v) eqn:Ht.
    + destruct (IH (assign acc k v)) as (H1 & H3 & H4).
      { apply assign_Technologies; assumption. }
      split; [exact H1 |]. split.
      * intros k' Hk'. destruct (H3 k' Hk') as [Hin | Hin]; [| auto].
        unfold assign in Hin. destruct (String.eqb k "__proto__"); [auto |].
        apply put_keys in Hin. destruct Hin as [-> | Hin]; auto.
      * intros Hnd.
        assert (Hk : ~ In k (map fst acc)).
        { intros Hin. apply List.NoDup_remove_2 in Hnd. apply Hnd.
          apply in_or_app. left. exact Hin. }
        unfold assign in H4 |- *. destruct (String.eqb k "__proto__"); cbn [andb negb].
        -- apply H4. apply List.NoDup_remove_1 in Hnd. exact Hnd.
        -- rewrite (put_fresh acc k v Hk) in H4 |- *.
           rewrite H4; [rewrite <- app_assoc; reflexivity |].
           rewrite map_app, <- app_assoc. exact Hnd.
    + destruct (IH acc Hacc) as (H1 & H3 & H4).
      split; [exact H1 |]. split.
      * intros k' Hk'. destruct (H3 k' Hk'); auto.
      * intros Hnd. cbn [andb]. apply H4. apply List.NoDup_remove_1 in Hnd. exact Hnd.
Qed.

Lemma isTechnology_object (v : json) :
  isTechnology v = true ->
  exists props, v = JObj props
                /\ is_Some (Json.lookup "identifier" props)
                /\ is_Some (Json.lookup "title" props).
Proof.
  destruct v as [| | | | | props]; try discriminate. simpl.
  intros H. apply andb_prop in H as [H _]. apply andb_prop in H as [Hi Ht].
  apply bool_decide_eq_true in Hi, Ht.
  exists props. split; [reflexivity |].
  unfold Json.getString, Json.asString, Json.get in *.
  destruct (Json.lookup "identifier" props); [| destruct Hi; discriminate].
  destruct (Json.lookup "title" props); [| destruct Ht; discriminate].
  split; eexists; reflexivity.
Qed.

(** X7.  What [parseTechnologiesResponse] returns is always an object, all
    of whose values are technologies (objects with string [identifier],
    [title] and [url]), with no key twice and without the key [__proto__]:
    an assignment to that key sets the prototype of the result and adds no
    property to it.  For a table with distinct keys the result is the
    technologies of the table, but for the one under [__proto__], in table
    order.  The table is [references] when that is an object, else the
    response itself; a response that is no object gives the empty
    object. *)
Theorem parseTechnologiesResponse_keeps_technologies :
  (forall response, exists found,
     parseTechnologiesResponse response = JObj found
     /\ List.Forall (fun kv => isTechnology (snd kv) = true) found
     /\ List.NoDup (map fst found)
     /\ ~ In "__proto__" (map fst found))
  /\ (forall props,
        List.NoDup (map fst (technologyTable props)) ->
        parseTechnologiesResponse (JObj props)
        = JObj (List.filter kept (technologyTable props)))
  /\ (forall response,
        (forall props, response <> JObj props) ->
        parseTechnologiesResponse response = JObj []).
Proof.
  assert (Hnil : Technologies []).
  { split; [constructor | split; [constructor | intros []]]. }
  split; [| split].
  - intros response.
    destruct response as [| b | n | s | items | props];
      try (exists []; split; [reflexivity | exact Hnil]).
    eexists. split; [reflexivity |].
    destruct (collect_technologies (technologyTable props) [] Hnil) as (H1 & _).
    exact H1.
  - intros props Hn.
    destruct (collect_technologies (technologyTable props) [] Hnil) as (_ & _ & H4).
    simpl. unfold technologyTable in *. f_equal. apply H4. exact Hn.
  - intros response H. destruct response; try reflexivity.
    exfalso. eapply H. reflexivity.
Qed.

Lemma parseTechnologiesResponse_keeps_technologies_witness :
  parseTechnologiesResponse technologiesResponse = JObj technologies
  /\ parseTechnologiesResponse protoResponse
     = JObj [("doc://com.apple.documentation/documentation/swiftui", swiftUITechnology)]
  /\ parseTechnologiesResponse (JArr [swiftUITechnology]) = JObj [].
Proof.
  split; [| split].
  - apply (proj1 (proj2 parseTechnologiesResponse_keeps_technologies)).
    vm_compute.
    repeat (apply List.NoDup_cons_iff; split;
            [simpl; intros H; repeat destruct H as [H | H]; try discriminate H; exact H |]).
    constructor.
  - apply (proj1 (proj2 parseTechnologiesResponse_keeps_technologies)).
    vm_compute.
    repeat (apply List.NoDup_cons_iff; split;
            [simpl; intros H; repeat destruct H as [H | H]; try discriminate H; exact H |]).
    constructor.
  - apply (proj2 (proj2 parseTechnologiesResponse_keeps_technologies)).
    intros props. discriminate.
Defined.


Lemma lookup_In (k : string) (v : json) (props : list (string * json)) :
  Json.lookup k props = Some v -> In (k, v) props.
Proof.
  induction props as [| [k0 v0] props IH]; simpl; [discriminate |].
  destruct (String.eqb k k0) eqn:E.
  - apply String.eqb_eq in E. intros [= ->]. left. subst. reflexivity.
  - intros H. right. apply IH, H.
Qed.

Lemma isTechnology_read (v : json) :
  isTechnology v = true ->
  Json.truthy v = true /\ isObject v = true /\ (0 <? keyCount v)%nat = true
  /\ hasKey "identifier" v = true.
Proof.
  intros H. destruct (isTechnology_object v H) as (props & -> & Hi & _).
  simpl. split; [reflexivity |]. split; [reflexivity |].
  split.
  - destruct props; [destruct Hi; discriminate | reflexivity].
  - apply bool_decide_eq_true. exact Hi.
Qed.

(** What [readTechnologies] makes of a saved table. *)
Lemma readTechnologies_table (found : list (string * json)) :
  found <> [] ->
  List.Forall (fun kv => isTechnology (snd kv) = true) found ->
  readTechnologies (JObj found)
  = Some (default (JObj found) (Json.lookup "references" found)).
Proof.
  intros Hne Hall. unfold readTechnologies. simpl Json.truthy. simpl isObject. simpl andb.
  unfold hasKey, Json.get.
  destruct (Json.lookup "references" found) as [ref |] eqn:Hr.
  - rewrite bool_decide_eq_true_2 by (eexists; reflexivity).
    pose proof (proj1 (List.Forall_forall _ _) Hall _ (lookup_In _ _ _ Hr)) as Ht.
    simpl in Ht. destruct (isTechnology_read ref Ht) as (_ & _ & Hk & _).
    destruct (isTechnology_object ref Ht) as (props & -> & _).
    rewrite Hk. reflexivity.
  - rewrite bool_decide_eq_false_2 by (intros [x Hx]; discriminate).
    destruct found as [| [k v] rest]; [contradiction |].
    apply List.Forall_inv in Hall. simpl in Hall.
    destruct (isTechnology_read v Hall) as (H1 & H2 & _ & H4).
    cbn [keyCount length firstValue]. simpl Nat.ltb.
    rewrite H1, H2. unfold hasKey in H4 |- *.
    destruct v; try discriminate. rewrite H4. reflexivity.
Qed.

Lemma readTechnologies_Some (parsed v : json) :
  readTechnologies parsed = Some v ->
  Json.truthy v = true /\ (0 <? keyCount v)%nat = true.
Proof.
  unfold readTechnologies.
  destruct (Json.truthy parsed && isObject parsed) eqn:Hp; [| discriminate].
  apply andb_prop in Hp as [Hp1 Hp2].
  assert (Hk : forall x, (0 <? keyCount x)%nat = true -> Json.truthy x = true).
  { intros [| b | n | s | items | props]; simpl; try discriminate; try reflexivity.
    destruct s; [discriminate | reflexivity]. }
  destruct (hasKey "references" parsed).
  - destruct (0 <? keyCount _)%nat eqn:Hc.
    + intros [= <-]. split; [apply Hk, Hc | exact Hc].
    + destruct (0 <? keyCount parsed)%nat eqn:Hc'; [| discriminate].
      destruct (firstValue parsed); [| discriminate].
      destruct (_ && _ && _); [| discriminate].
      intros [= <-]. split; assumption.
  - destruct (0 <? keyCount parsed)%nat eqn:Hc'; [| discriminate].
    destruct (firstValue parsed); [| discriminate].
    destruct (_ && _ && _); [| discriminate].
    intros [= <-]. split; assumption.
Qed.

(** [loadTechnologies] once the directory is in place. *)
Lemma loadTechnologies_present (fs : FileSystem) :
  dirStatus fs = DirPresent ->
  loadTechnologies fs
  = match files fs !! technologiesCachePath with
    | Some (FileText raw) =>
        match JSON_parse raw with
        | Some parsed => (Ok (readTechnologies parsed), fs)
        | None => (Throw SyntaxError, fs)
        end
    | Some (FileFault code) =>
        if String.eqb code "ENOENT" then (Ok None, fs)
        else (Throw (ErrnoException code), fs)
    | None => (Ok None, fs)
    end.
Proof.
  intros Hdir. unfold loadTechnologies, ensureCacheDir.
  unfold Eff.bind at 1. unfold Fs.mkdir. rewrite Hdir.
  unfold Eff.tryCatch, Eff.bind, Fs.readFile. rewrite Hdir.
  destruct (files fs !! technologiesCachePath) as [[raw | code] |]; simpl.
  - unfold parseJson. destruct (JSON_parse raw); reflexivity.
  - destruct (String.eqb code "ENOENT"); reflexivity.
  - reflexivity.
Qed.



(** X9.  With the cache directory in place, [loadTechnologies] returns
    [undefined] when the file is absent, raises the [SyntaxError] when its
    text does not parse (where the framework and symbol loads return
    [undefined]), and otherwise returns what [readTechnologies] makes of the
    parsed value: nothing, or a truthy value with at least one key. *)
Theorem loadTechnologies_outcomes (fs : FileSystem) :
  dirStatus fs = DirPresent ->
  (files fs !! technologiesCachePath = None -> loadTechnologies fs = (Ok None, fs))
  /\ (forall raw,
        files fs !! technologiesCachePath = Some (FileText raw) ->
        JSON_parse raw = None ->
        loadTechnologies fs = (Throw SyntaxError, fs))
  /\ (forall raw parsed,
        files fs !! technologiesCachePath = Some (FileText raw) ->
        JSON_parse raw = Some parsed ->
        loadTechnologies fs = (Ok (readTechnologies parsed), fs))
  /\ (forall value,
        fst (loadTechnologies fs) = Ok (Some value) ->
        Json.truthy value = true /\ (0 < keyCount value)%nat).
Proof.
  intros Hdir. rewrite (loadTechnologies_present fs Hdir).
  split; [| split; [| split]].
  - intros ->. reflexivity.
  - intros raw -> ->. reflexivity.
  - intros raw parsed -> ->. reflexivity.
  - intros value.
    destruct (files fs !! technologiesCachePath) as [[raw | code] |]; simpl.
    + destruct (JSON_parse raw) as [parsed |]; simpl; [| discriminate].
      intros [= H]. destruct (readTechnologies_Some _ _ H) as [H1 H2].
      split; [exact H1 | apply Nat.ltb_lt, H2].
    + destruct (String.eqb code "ENOENT"); discriminate.
    + discriminate.
Qed.

Lemma loadTechnologies_outcomes_witness :
  loadTechnologies emptyDirectory = (Ok None, emptyDirectory)
  /\ loadTechnologies tornTechnologies = (Throw SyntaxError, tornTechnologies).
Proof.
  split.
  - apply (proj1 (loadTechnologies_outcomes emptyDirectory eq_refl)). reflexivity.
  - apply (proj1 (proj2 (loadTechnologies_outcomes tornTechnologies eq_refl))
             "{ torn"); reflexivity.
Defined.


Lemma loadTechnologies_Some (fs fs1 : FileSystem) (value : json) :
  loadTechnologies fs = (Ok (Some value), fs1) ->
  Json.truthy value = true /\ (0 <? keyCount value)%nat = true.
Proof.
  unfold loadTechnologies, ensureCacheDir. unfold Eff.bind at 1.
  destruct (Fs.mkdir fs) as [[u | e] fs0] eqn:Hm; [| discriminate].
  assert (Hdir : dirStatus fs0 = DirPresent).
  { unfold Fs.mkdir in Hm. destruct (dirStatus fs) as [| [code |]] eqn:Hd;
      try discriminate; injection Hm as Hm; subst fs0; [exact Hd | reflexivity]. }
  unfold Eff.tryCatch, Eff.bind, Fs.readFile. rewrite Hdir.
  destruct (files fs0 !! technologiesCachePath) as [[raw | code] |]; simpl.
  - unfold parseJson. destruct (JSON_parse raw) as [parsed |]; simpl; [| discriminate].
    unfold Eff.ret. intros [= H _]. exact (readTechnologies_Some _ _ H).
  - destruct (String.eqb code "ENOENT"); discriminate.
  - discriminate.
Qed.

(** X10.  [getTechnologies] reads through the cache file.  What the file
    gives is returned with no request made.  When the file gives nothing,
    the technologies endpoint is fetched and the technologies of its answer
    are returned: a non-empty table is written first, and a failing write
    fails the call; an empty table is returned without being written. *)
Theorem getTechnologies_reads_through
    (config : HttpConfig) (fs : FileSystem) (net : Net) :
  (forall value fs1,
     loadTechnologies fs = (Ok (Some value), fs1) ->
     getTechnologies config (fs, net) = (Ok value, (fs1, net)))
  /\ (forall fs1 response net1,
        loadTechnologies fs = (Ok None, fs1) ->
        HttpClient.getDocumentation config "documentation/technologies" net
        = (Ok response, net1) ->
        getTechnologies config (fs, net)
        = if (0 <? keyCount (parseTechnologiesResponse response))%nat
          then afterSave (parseTechnologiesResponse response)
                         (saveTechnologies (parseTechnologiesResponse response) fs1) net1
          else (Ok (parseTechnologiesResponse response), (fs1, net1))).
Proof.
  split.
  - intros value fs1 Hload.
    destruct (loadTechnologies_Some _ _ _ Hload) as [Ht Hk].
    unfold getTechnologies, Eff.bind. rewrite onFst_run, Hload. simpl.
    rewrite Ht, Hk. reflexivity.
  - intros fs1 response net1 Hload Hfetch.
    unfold getTechnologies, Eff.bind. rewrite onFst_run, Hload. simpl.
    unfold fetchAndSaveTechnologies, Eff.bind. rewrite onSnd_run, Hfetch. simpl.
    destruct (0 <? keyCount (parseTechnologiesResponse response))%nat.
    + rewrite onFst_run. unfold afterSave.
      destruct (saveTechnologies (parseTechnologiesResponse response) fs1) as [[u | e] fs2];
        reflexivity.
    + reflexivity.
Qed.

Lemma getTechnologies_reads_through_witness :
  getTechnologies defaultHttpConfig (savedTechnologies, technologiesNet)
  = (Ok (JObj technologies), (savedTechnologies, technologiesNet))
  /\ getTechnologies defaultHttpConfig (emptyDirectory, technologiesNet)
     = afterSave (JObj technologies) (saveTechnologies (JObj technologies) emptyDirectory)
         (snd (HttpClient.getDocumentation defaultHttpConfig "documentation/technologies"
                 technologiesNet)).
Proof.
  split.
  - apply (proj1 (getTechnologies_reads_through defaultHttpConfig savedTechnologies
                    technologiesNet)).
    vm_compute. reflexivity.
  - apply (proj2 (getTechnologies_reads_through defaultHttpConfig emptyDirectory
                    technologiesNet) emptyDirectory technologiesResponse).
    + reflexivity.
    + unfold HttpClient.getDocumentation. rewrite HttpFacts.makeRequest_unfold.
      reflexivity.
Defined.

End TechnologiesFacts.

(** ** Names of cache files *)

Module FileNameFacts.

Import JsonText Schema FileCache StringSpec StringFacts FileCacheFacts FileNameSpec.

Lemma replaceUnsafe_safe (s : string) : allChars isWordOrHyphen (replaceUnsafe s) = true.
Proof.
  induction s as [| c s IH]; [reflexivity |]. simpl.
  destruct (isWordOrHyphen c) eqn:E; rewrite ?E, IH; reflexivity.
Qed.

Lemma replaceUnsafe_length (s : string) :
  String.length (replaceUnsafe s) = String.length s.
Proof. induction s as [| c s IH]; simpl; [reflexivity | f_equal; exact IH]. Qed.

Lemma replaceUnsafe_fixed (s : string) :
  allChars isWordOrHyphen s = true -> replaceUnsafe s = s.
Proof.
  induction s as [| c s IH]; [reflexivity |]. simpl.
  intros H. apply andb_prop in H as [Hc Hs]. rewrite Hc, (IH Hs). reflexivity.
Qed.

Lemma allChars_sliceTo (p : ascii -> bool) (n : nat) (s : string) :
  allChars p s = true -> allChars p (sliceTo n s) = true.
Proof.
  unfold sliceTo. revert n. induction s as [| c s IH]; intros n H.
  - destruct n; reflexivity.
  - destruct n; [reflexivity |]. simpl in *.
    apply andb_prop in H as [Hc Hs]. rewrite Hc. apply IH, Hs.
Qed.

Lemma length_sliceTo (n : nat) (s : string) :
  String.length (sliceTo n s) = Nat.min n (String.length s).
Proof.
  unfold sliceTo. revert n. induction s as [| c s IH]; intros n.
  - destruct n; reflexivity.
  - destruct n; [reflexivity |]. simpl. f_equal. apply IH.
Qed.

Lemma allChars_excludes (p : ascii -> bool) (c : ascii) (s t : string) :
  allChars p s = true -> p c = false ->
  Js.includes (s +:+ t) (String c EmptyString) = Js.includes t (String c EmptyString).
Proof.
  intros Hs Hc. induction s as [| d s IH]; [reflexivity |].
  simpl in Hs. apply andb_prop in Hs as [Hd Hs].
  rewrite append_cons. simpl.
  destruct (Ascii.eqb c d) eqn:E.
  - apply Ascii.eqb_eq in E. subst d. congruence.
  - simpl. apply IH, Hs.
Qed.

(** The pieces [splitOn] gives are not empty. *)
Lemma splitOn_nonempty (delim : ascii -> bool) (s cur : string) :
  List.Forall (fun piece => piece <> EmptyString) (Js.splitOn delim cur s).
Proof.
  revert cur. induction s as [| c s IH]; intros cur; simpl.
  - destruct cur; constructor; [discriminate | constructor].
  - destruct (delim c).
    + destruct cur; [apply IH |]. constructor; [discriminate | apply IH].
    + apply IH.
Qed.

Lemma last_Forall {A} (P : A -> Prop) (l : list A) (d : A) :
  List.Forall P l -> P d -> P (List.last l d).
Proof.
  intros H Hd. induction H as [| x l Hx H IH]; [exact Hd |].
  simpl. destruct l; [exact Hx | exact IH].
Qed.

(** X11.  The name of a cache file is made of letters, digits, [_] and [-]
    only, followed by [.json]: it never holds a path separator, so the file
    stays in the cache directory.  A framework name keeps its length and,
    when it is made of such characters, itself.  The name for a symbol path
    is a prefix of 1 to 32 such characters, [_] and the first 16 characters
    of the digest of the path. *)
Theorem cache_file_names_are_safe :
  (forall name,
     safeName (sanitizeFrameworkName name)
     /\ String.length (sanitizeFrameworkName name) = String.length name
     /\ Js.includes (getCachePath name) "/" = false)
  /\ (forall name, safeName name -> sanitizeFrameworkName name = name)
  /\ (forall sha256hex path, exists prefix,
        sanitizeSymbolPath sha256hex path = prefix +:+ "_" +:+ sliceTo 16 (sha256hex path)
        /\ safeName prefix
        /\ (1 <= String.length prefix <= 32)%nat).
Proof.
  split; [| split].
  - intros name. unfold safeName, getCachePath, sanitizeFrameworkName.
    split; [apply replaceUnsafe_safe |]. split; [apply replaceUnsafe_length |].
    rewrite (allChars_excludes isWordOrHyphen "/" _ ".json" (replaceUnsafe_safe name));
      reflexivity.
  - intros name. apply replaceUnsafe_fixed.
  - intros sha256hex path. unfold sanitizeSymbolPath.
    set (segments := Js.splitOn (Ascii.eqb "/") EmptyString path).
    exists (sliceTo 32 (replaceUnsafe (List.last segments "symbol"))).
    split; [reflexivity |]. split.
    + apply allChars_sliceTo, replaceUnsafe_safe.
    + rewrite length_sliceTo, replaceUnsafe_length.
      assert (H : List.last segments "symbol" <> EmptyString).
      { apply (last_Forall (fun piece => piece <> EmptyString));
          [apply splitOn_nonempty | discriminate]. }
      destruct (List.last segments "symbol"); [contradiction | cbn [String.length]; lia].
Qed.

Lemma cache_file_names_are_safe_witness :
  sanitizeFrameworkName "Core-Data_2" = "Core-Data_2".
Proof.
  apply (proj1 (proj2 cache_file_names_are_safe)). reflexivity.
Defined.



End FileNameFacts.

(** ** The local symbol index: what a search returns *)

Module FindFacts.

Import Index Tokenizer StringSpec StringFacts SearchSpec SearchFacts TokenizerSpec
  TokenizerFacts FindSpec.

Lemma Substring_refl (s : string) : Substring s s.
Proof. exists EmptyString, EmptyString. rewrite append_nil_r. reflexivity. Qed.

Lemma Substring_trans (a b c : string) : Substring a b -> Substring b c -> Substring a c.
Proof.
  intros (x & y & ->) (u & v & ->). exists (u +:+ x), (y +:+ v).
  rewrite !append_assoc. reflexivity.
Qed.

Lemma Substring_cons (c : ascii) (n s : string) : Substring n s -> Substring n (String c s).
Proof. intros (x & y & ->). exists (String c x), y. reflexivity. Qed.

Lemma Substring_prepend (p n s : string) : Substring n s -> Substring n (p +:+ s).
Proof.
  intros H. induction p as [| c p IH]; [exact H |].
  rewrite append_cons. apply Substring_cons, IH.
Qed.

Lemma Substring_toLowerCase (n s : string) :
  Substring n s -> Substring (Js.toLowerCase n) (Js.toLowerCase s).
Proof.
  intros (x & y & ->). exists (Js.toLowerCase x), (Js.toLowerCase y).
  rewrite !WildcardFacts.toLowerCase_append. reflexivity.
Qed.

Lemma includes_Substring (s n : string) : Substring n s -> Js.includes s n = true.
Proof.
  intros (x & y & ->). induction x as [| c x IH].
  - rewrite append_nil_l. pose proof (startsWith_append n y) as H.
    destruct (n +:+ y); cbn [Js.includes]; rewrite H; reflexivity.
  - rewrite append_cons. simpl. rewrite IH. apply orb_true_r.
Qed.

Lemma toLowerCase_idem (s : string) : Js.toLowerCase (Js.toLowerCase s) = Js.toLowerCase s.
Proof.
  induction s as [| c s IH]; [reflexivity |]. simpl. rewrite IH. f_equal.
  destruct c as [[] [] [] [] [] [] [] []]; reflexivity.
Qed.

(** The pieces of a split occur in the text. *)
Lemma splitOn_Substring (delim : ascii -> bool) (s cur : string) :
  List.Forall (fun piece => Substring piece (cur +:+ s)) (Js.splitOn delim cur s).
Proof.
  revert cur. induction s as [| c s IH]; intros cur; simpl.
  - rewrite append_nil_r. destruct cur; constructor; [apply Substring_refl | constructor].
  - assert (Hrest : List.Forall (fun piece => Substring piece (cur +:+ String c s))
                      (Js.splitOn delim EmptyString s)).
    { eapply List.Forall_impl; [| apply (IH EmptyString)].
      intros piece H. rewrite append_nil_l in H.
      apply Substring_prepend, Substring_cons, H. }
    destruct (delim c).
    + destruct cur as [| d cur]; [exact Hrest |].
      constructor; [| exact Hrest].
      exists EmptyString, (String c s). reflexivity.
    + specialize (IH (cur +:+ String c EmptyString)).
      rewrite append_assoc in IH. exact IH.
Qed.

Lemma splitBeforeUpper_Substring (s cur : string) :
  List.Forall (fun piece => Substring piece (cur +:+ s)) (Js.splitBeforeUpper cur s).
Proof.
  revert cur. induction s as [| c s IH]; intros cur; simpl.
  - rewrite append_nil_r. destruct cur; constructor; [apply Substring_refl | constructor].
  - destruct (Js.isUpper c).
    + assert (Hrest : List.Forall (fun piece => Substring piece (cur +:+ String c s))
                        (Js.splitBeforeUpper (String c EmptyString) s)).
      { eapply List.Forall_impl; [| apply (IH (String c EmptyString))].
        intros piece H. apply Substring_prepend, H. }
      destruct cur as [| d cur]; [exact Hrest |].
      constructor; [| exact Hrest].
      exists EmptyString, (String c s). reflexivity.
    + specialize (IH (cur +:+ String c EmptyString)).
      rewrite append_assoc in IH. exact IH.
Qed.

(** Every token of a text occurs in the text, up to case. *)
Lemma token_in_text (text token : string) :
  In token (tokenize text) ->
  Substring (Js.toLowerCase token) (Js.toLowerCase text).
Proof.
  intros Hin. apply tokenize_In in Hin as (word & Hw & Ht).
  assert (Hword : Substring word text).
  { exact (proj1 (List.Forall_forall _ _) (splitOn_Substring isDelimiter text EmptyString)
                 word Hw). }
  destruct Ht as [-> | [-> | (part & Hp & Hx)]].
  - apply Substring_toLowerCase, Hword.
  - rewrite toLowerCase_idem. apply Substring_toLowerCase, Hword.
  - assert (Hpart : Substring part word).
    { exact (proj1 (List.Forall_forall _ _) (splitBeforeUpper_Substring word EmptyString)
                   part Hp). }
    pose proof (Substring_toLowerCase _ _ (Substring_trans _ _ _ Hpart Hword)) as H.
    destruct Hx as [-> | ->]; [exact H |]. rewrite toLowerCase_idem. exact H.
Qed.

Lemma tokenScore_title (entry : LocalSymbolIndexEntry) (tokens : list string) :
  List.Forall (fun token => Substring (Js.toLowerCase token) (Js.toLowerCase (title entry)))
              tokens ->
  50 * Z.of_nat (length tokens)
  <= fold_right Z.add 0 (map (tierScore entry) tokens).
Proof.
  induction 1 as [| token tokens Ht H IH]; simpl; [lia |].
  assert (50 <= tierScore entry token).
  { unfold tierScore. rewrite (includes_Substring _ _ Ht).
    repeat match goal with |- context [if ?b then _ else _] => destruct b end; lia. }
  lia.
Qed.

Lemma hasWildcards_delimiters (query : string) :
  allChars isDelimiter query = true -> hasWildcards query = false.
Proof.
  intros H. unfold hasWildcards.
  pose proof (FileNameFacts.allChars_excludes isDelimiter "*" query EmptyString H eq_refl) as H1.
  pose proof (FileNameFacts.allChars_excludes isDelimiter "?" query EmptyString H eq_refl) as H2.
  rewrite append_nil_r in H1, H2. rewrite H1, H2. reflexivity.
Qed.

Lemma firstn_In {A} (n : nat) (l : list A) (x : A) : In x (firstn n l) -> In x l.
Proof.
  revert n. induction l as [| y l IH]; intros [| n]; simpl; try tauto.
  intros [-> | H]; [auto | right; exact (IH n H)].
Qed.

Lemma ranked_In (l : list (LocalSymbolIndexEntry * Z)) (n : nat) (es : LocalSymbolIndexEntry * Z) :
  In es (firstn n (sortByScore l)) -> In es l.
Proof.
  intros H. apply firstn_In in H.
  exact (Permutation_in _ (Permutation_sym (sortByScore_perm l)) H).
Qed.

Lemma ranked_all (l : list (LocalSymbolIndexEntry * Z)) (n : nat) :
  (length l <= n)%nat -> firstn n (sortByScore l) = sortByScore l.
Proof.
  intros H. apply firstn_all2.
  rewrite <- (Permutation_length (sortByScore_perm l)). exact H.
Qed.

Lemma searchWith_results newRegExp (index : LocalSymbolIndex) (query : string)
    (maxResults : nat) :
  exists score : LocalSymbolIndexEntry -> Z,
    searchWith newRegExp index query maxResults
    = map fst (firstn maxResults
                 (sortByScore
                    (filter (fun es => 0 < snd es)
                            (map (fun kv => (snd kv, score (snd kv))) (symbols index))))).
Proof.
  unfold searchWith.
  eexists. rewrite (collect_results _ (symbols index) []). rewrite app_nil_l. reflexivity.
Qed.

(** X16.  A search, with or without wildcards, returns at most
    [maxResults] entries, all of them entries of the index; a larger
    [maxResults] only adds entries at the end; and a query made of
    delimiters only, like the empty query, returns nothing. *)
Theorem search_returns_indexed_entries
    (index : LocalSymbolIndex) (query : string) (maxResults : nat) :
  (length (search index query maxResults) <= maxResults)%nat
  /\ (forall entry, In entry (search index query maxResults) ->
                    In entry (map snd (symbols index)))
  /\ (forall more, search index query maxResults
                   = firstn maxResults (search index query (maxResults + more)))
  /\ (allChars isDelimiter query = true -> search index query maxResults = []).
Proof.
  unfold search.
  split; [| split; [| split]].
  - destruct (searchWith_results RegExp.compile index query maxResults) as (score & ->).
    rewrite length_map, length_firstn. lia.
  - destruct (searchWith_results RegExp.compile index query maxResults) as (score & ->).
    intros entry Hin. apply in_map_iff in Hin as ([e s] & <- & Hin).
    apply ranked_In in Hin. apply list_elem_of_In, list_elem_of_filter in Hin as [_ Hin].
    apply list_elem_of_In, in_map_iff in Hin as (kv & [= <- _] & Hkv).
    simpl. apply in_map, Hkv.
  - intros more. unfold searchWith.
    rewrite firstn_map, firstn_firstn. f_equal. f_equal. lia.
  - intros Hall. pose proof (hasWildcards_delimiters query Hall) as Hw.
    fold (search index query maxResults). rewrite (search_tokens index query maxResults Hw).
    assert (Hs : survivors index query = []).
    { unfold survivors, tokenScore. rewrite (tokenize_delimiters query Hall). simpl.
      induction (symbols index) as [| kv m IH]; [reflexivity |].
      simpl. rewrite filter_cons. simpl.
      destruct (decide (0 < 0)); [lia | exact IH]. }
    rewrite Hs. destruct maxResults; reflexivity.
Qed.

Lemma search_returns_indexed_entries_witness : search gridIndex "._- /" 20 = [].
Proof.
  apply (proj2 (proj2 (proj2 (search_returns_indexed_entries gridIndex "._- /" 20)))).
  reflexivity.
Defined.

(** X17.  An entry is found under its own title: when the title has no
    wildcard and at least one word, every token of the title hits the
    title, so the entry scores 50 or more for each of them and is among
    the results as soon as [maxResults] is not below the size of the
    index. *)
Theorem search_finds_entry_by_title
    (index : LocalSymbolIndex) (key : string) (entry : LocalSymbolIndexEntry)
    (maxResults : nat) :
  In (key, entry) (symbols index) ->
  hasWildcards (title entry) = false ->
  words (title entry) <> [] ->
  (getSymbolCount index <= maxResults)%nat ->
  50 <= 50 * Z.of_nat (length (tokenize (title entry))) <= tokenScore entry (title entry)
  /\ In entry (search index (title entry) maxResults).
Proof.
  intros Hin Hw Hwords Hmax.
  assert (Hscore : 50 * Z.of_nat (length (tokenize (title entry)))
                   <= tokenScore entry (title entry)).
  { unfold tokenScore. apply tokenScore_title.
    apply List.Forall_forall. intros token Ht. apply token_in_text, Ht. }
  assert (Hlen : (1 <= length (tokenize (title entry)))%nat).
  { destruct (words (title entry)) as [| word ws] eqn:Ew; [contradiction |].
    assert (Hin' : In word (tokenize (title entry))).
    { apply tokenize_In.
      exists word. split; [rewrite Ew; left; reflexivity | left; reflexivity]. }
    destruct (tokenize (title entry)); [destruct Hin' | simpl; lia]. }
  split; [lia |].
  rewrite (search_tokens index _ maxResults Hw).
  rewrite ranked_all.
  - apply in_map_iff. exists (entry, tokenScore entry (title entry)).
    split; [reflexivity |].
    apply (Permutation_in _ (sortByScore_perm _)).
    unfold survivors. apply list_elem_of_In, list_elem_of_filter. split; [simpl; lia |].
    apply list_elem_of_In, in_map_iff. exists (key, entry). split; [reflexivity | exact Hin].
  - unfold survivors. etransitivity; [apply length_filter |].
    rewrite length_map. exact Hmax.
Qed.

Lemma search_finds_entry_by_title_witness :
  50 <= 50 * Z.of_nat (length (tokenize (title lazyGridEntry)))
     <= tokenScore lazyGridEntry (title lazyGridEntry)
  /\ In lazyGridEntry (search gridIndex (title lazyGridEntry) 20).
Proof.
  apply (search_finds_entry_by_title gridIndex (id lazyGridEntry) lazyGridEntry 20).
  - right. left. reflexivity.
  - reflexivity.
  - discriminate.
  - unfold getSymbolCount, gridIndex. cbn [symbols length]. lia.
Defined.

End FindFacts.

(** ** The local symbol index: batches and states of a build *)

Module BuildFacts.

Import Index BuildSpec.

Lemma firstn_add {A} (n m : nat) (l : list A) :
  firstn (n + m) l = firstn n l ++ firstn m (skipn n l).
Proof.
  revert l. induction n as [| n IH]; intros l; [reflexivity |].
  destruct l as [| x l]; simpl.
  - destruct m; reflexivity.
  - f_equal. apply IH.
Qed.

(** The first [k] batches of size [b] are the first [k * b] files. *)
Lemma concat_slices {A} (b k : nat) (l : list A) :
  List.concat (map (fun start => slice start (start + b) l)
                   (map (fun i => (i * b)%nat) (seq 0 k)))
  = firstn (k * b) l.
Proof.
  induction k as [| k IH]; [reflexivity |].
  rewrite seq_S, !map_app, concat_app, IH. simpl.
  rewrite app_nil_r. unfold slice.
  replace (k * b + b - k * b)%nat with b by lia.
  replace (b + k * b)%nat with (k * b + b)%nat by lia.
  symmetry. apply firstn_add.
Qed.

Lemma batches_cover (batchSize : positive) (fileNames : list string) :
  List.concat (batches batchSize fileNames) = fileNames.
Proof.
  unfold batches, batchStarts. rewrite concat_slices.
  apply firstn_all2.
  pose proof (Pos2Nat.is_pos batchSize) as Hpos.
  set (b := Pos.to_nat batchSize) in *. set (n := length fileNames).
  pose proof (Nat.div_mod (n + b - 1) b ltac:(lia)) as Hdm.
  pose proof (Nat.mod_upper_bound (n + b - 1) b ltac:(lia)) as Hmod.
  nia.
Qed.

Lemma processBatch_app (fs : FileSystem) (acc : LocalSymbolIndex * BuildCounts)
    (a b : list string) :
  processBatch fs acc (a ++ b) = processBatch fs (processBatch fs acc a) b.
Proof. unfold processBatch. apply fold_left_app. Qed.

Lemma processBatch_concat (fs : FileSystem) (groups : list (list string))
    (acc : LocalSymbolIndex * BuildCounts) :
  fold_left (processBatch fs) groups acc = processBatch fs acc (List.concat groups).
Proof.
  revert acc. induction groups as [| g groups IH]; intros acc; simpl.
  - reflexivity.
  - rewrite IH, processBatch_app. reflexivity.
Qed.

Lemma fold_left_mapped {A B C} (f : A -> B -> A) (g : C -> B) (l : list C) (a : A) :
  fold_left f (map g l) a = fold_left (fun acc x => f acc (g x)) l a.
Proof. revert a. induction l as [| x l IH]; intros a; simpl; [reflexivity | apply IH]. Qed.

Lemma processBatch_counts (fs : FileSystem) (files : list string)
    (acc : LocalSymbolIndex * BuildCounts) :
  (processedCount (snd (processBatch fs acc files))
   + errorCount (snd (processBatch fs acc files))
   = processedCount (snd acc) + errorCount (snd acc) + length files)%nat.
Proof.
  revert acc. induction files as [| file files IH]; intros [index counts].
  - simpl. lia.
  - change (processBatch fs (index, counts) (file :: files))
      with (processBatch fs (processBatch fs (index, counts) [file]) files).
    rewrite IH. unfold processBatch at 1 2. simpl.
    destruct (processFile index file _) as [index' [|]]; simpl; lia.
Qed.

Lemma processAllBatches_flat (batchSize : positive) (fs : FileSystem)
    (index : LocalSymbolIndex) (fileNames : list string) :
  processAllBatches batchSize fs index fileNames
  = processBatch fs (index, mkCounts 0 0) fileNames.
Proof.
  transitivity (processBatch fs (index, mkCounts 0 0)
                  (List.concat (batches batchSize fileNames)));
    [| rewrite batches_cover; reflexivity].
  rewrite <- processBatch_concat. unfold processAllBatches, batches.
  rewrite fold_left_mapped. reflexivity.
Qed.

Lemma firstn_within {A} (n : nat) (l : list A) :
  firstn (Nat.min n (length l)) l = firstn n l.
Proof.
  destruct (Nat.le_gt_cases n (length l)) as [H | H].
  - rewrite Nat.min_l by exact H. reflexivity.
  - rewrite Nat.min_r by lia. rewrite firstn_all, firstn_all2 by lia. reflexivity.
Qed.

(** A slice that starts inside the array and is [size] long. *)
Lemma sliceZ_batch {A} (start size : nat) (l : list A) :
  (start < length l)%nat ->
  sliceZ (Z.of_nat start) (Z.of_nat start + Z.of_nat size) l
  = firstn size (skipn start l).
Proof.
  intros Hs. unfold sliceZ, slice.
  replace (Z.of_nat start <? 0) with false by (symmetry; apply Z.ltb_ge; lia).
  replace (Z.of_nat start + Z.of_nat size <? 0) with false
    by (symmetry; apply Z.ltb_ge; lia).
  replace (Z.to_nat (Z.min (Z.of_nat start) (Z.of_nat (length l)))) with start by lia.
  replace (Z.to_nat (Z.min (Z.of_nat start + Z.of_nat size) (Z.of_nat (length l))) - start)%nat
    with (Nat.min size (length (skipn start l))) by (rewrite length_skipn; lia).
  apply firstn_within.
Qed.

Lemma skipn_add {A} (n m : nat) (l : list A) : skipn (n + m) l = skipn m (skipn n l).
Proof.
  revert l. induction n as [| n IH]; intros l; [reflexivity |].
  destruct l as [| x l]; simpl; [destruct m; reflexivity | apply IH].
Qed.

(** With a batch size of 1 or more the loop ends, having taken the files
    from [start] on in order. *)
Lemma batchLoop_ends (size : nat) (fs : FileSystem) (fileNames : list string)
    (rounds : nat) :
  (0 < size)%nat ->
  forall (start : nat) (acc : LocalSymbolIndex * BuildCounts),
    (length fileNames - start < rounds)%nat ->
    batchLoop rounds (Z.of_nat size) fs fileNames (Z.of_nat start) acc
    = Some (processBatch fs acc (skipn start fileNames)).
Proof.
  intros Hsize. induction rounds as [| rounds IH]; intros start acc Hr; [lia |].
  cbn [batchLoop].
  destruct (Z.ltb_spec (Z.of_nat start) (Z.of_nat (length fileNames))) as [Hlt | Hge].
  - rewrite sliceZ_batch by lia.
    rewrite <- Nat2Z.inj_add, IH by lia.
    rewrite skipn_add, <- processBatch_app, firstn_skipn. reflexivity.
  - rewrite skipn_all2 by lia. reflexivity.
Qed.

(** With a batch size below 1 the loop over a list that is not empty does
    not end. *)
Lemma batchLoop_runs_on (batchSize : Z) (fs : FileSystem) (fileNames : list string)
    (rounds : nat) :
  batchSize <= 0 -> fileNames <> [] ->
  forall (start : Z) (acc : LocalSymbolIndex * BuildCounts),
    start <= 0 -> batchLoop rounds batchSize fs fileNames start acc = None.
Proof.
  intros Hb Hne. induction rounds as [| rounds IH]; intros start acc Hs; [reflexivity |].
  cbn [batchLoop].
  replace (start <? Z.of_nat (length fileNames)) with true.
  - apply IH. lia.
  - symmetry. apply Z.ltb_lt. destruct fileNames; [contradiction | simpl; lia].
Qed.

(** X18.  With a batch size of 1 or more, the batches of a build are the
    files in order, each file in exactly one batch and no batch longer
    than the batch size; so, with the files of a batch taken in array
    order, the loop of the build ends (after one test of its condition more
    than there are files, at most), has then processed every file once, and
    the files counted as processed and as failed add up to the number of
    files.  With a batch size of 0 or less, which the configuration lets
    through, the loop over at least one file never ends. *)
Theorem batches_cover_every_file
    (fs : FileSystem) (index : LocalSymbolIndex) (fileNames : list string) :
  (forall batchSize : positive,
     List.concat (batches batchSize fileNames) = fileNames
     /\ List.Forall (fun batch => (length batch <= Pos.to_nat batchSize)%nat)
                    (batches batchSize fileNames)
     /\ processAllBatches batchSize fs index fileNames
        = processBatch fs (index, mkCounts 0 0) fileNames
     /\ (processedCount (snd (processAllBatches batchSize fs index fileNames))
         + errorCount (snd (processAllBatches batchSize fs index fileNames))
         = length fileNames)%nat
     /\ (forall rounds,
           (length fileNames < rounds)%nat ->
           batchLoop rounds (Z.pos batchSize) fs fileNames 0 (index, mkCounts 0 0)
           = Some (processAllBatches batchSize fs index fileNames)))
  /\ (forall batchSize : Z,
        batchSize <= 0 -> fileNames <> [] ->
        forall rounds,
          batchLoop rounds batchSize fs fileNames 0 (index, mkCounts 0 0) = None).
Proof.
  split.
  - intros batchSize.
    pose proof (processAllBatches_flat batchSize fs index fileNames) as Hall.
    split; [apply batches_cover |]. split; [| split; [exact Hall | split]].
    + unfold batches. apply List.Forall_forall. intros batch Hin.
      apply in_map_iff in Hin as (start & <- & _). unfold slice.
      rewrite length_firstn. lia.
    + rewrite Hall, processBatch_counts. simpl. lia.
    + intros rounds Hr. rewrite Hall, <- (positive_nat_Z batchSize).
      apply (batchLoop_ends (Pos.to_nat batchSize) fs fileNames rounds
               (Pos2Nat.is_pos batchSize) 0%nat).
      lia.
  - intros batchSize Hb Hne rounds.
    apply (batchLoop_runs_on batchSize fs fileNames rounds Hb Hne). lia.
Qed.

Lemma batches_cover_every_file_witness :
  batchLoop 4 2 untidyCache ["text.json"; "torn.json"; "view.json"] 0
    (create "/cache" None, mkCounts 0 0)
  = Some (processAllBatches 2 untidyCache (create "/cache" None)
            ["text.json"; "torn.json"; "view.json"])
  /\ batchLoop 1000 0 untidyCache ["text.json"; "torn.json"; "view.json"] 0
       (create "/cache" None, mkCounts 0 0)
     = None
  /\ batchLoop 1000 (-2) untidyCache ["text.json"; "torn.json"; "view.json"] 0
       (create "/cache" None, mkCounts 0 0)
     = None.
Proof.
  pose proof (batches_cover_every_file untidyCache (create "/cache" None)
                ["text.json"; "torn.json"; "view.json"]) as [Hends Hruns].
  split; [| split].
  - apply (proj2 (proj2 (proj2 (proj2 (Hends 2%positive))))). simpl. lia.
  - apply (Hruns 0); [lia | discriminate].
  - apply (Hruns (-2)); [lia | discriminate].
Defined.

Lemma build_outcome (batchSize : positive) (fs : FileSystem) (index : LocalSymbolIndex) :
  state index <> Building ->
  (fst (buildIndexFromCache batchSize fs index) = Ok tt
   /\ state (snd (buildIndexFromCache batchSize fs index)) = Ready)
  \/ (exists error,
        fst (buildIndexFromCache batchSize fs index) = Throw error
        /\ fst (Fs.readdir fs) = Throw error
        /\ state (snd (buildIndexFromCache batchSize fs index)) = Failed).
Proof.
  unfold buildIndexFromCache.
  intros Hb. destruct (state index) eqn:Hs; try contradiction;
    try (left; split; [reflexivity | exact Hs]);
    (destruct (fst (Fs.access fs)); [| left; split; reflexivity];
     destruct (fst (Fs.readdir fs)) as [allFiles | error];
     [destruct (processAllBatches _ _ _ _); left; split; reflexivity
     | right; exists error; repeat split]).
Qed.

(** The build with the loop run for enough rounds is the build. *)
Lemma buildWithin_returns (batchSize : positive) (fs : FileSystem)
    (index : LocalSymbolIndex) (rounds : nat) :
  (forall allFiles, fst (Fs.readdir fs) = Ok allFiles -> (length allFiles < rounds)%nat) ->
  buildWithin rounds (Z.pos batchSize) fs index = Some (buildIndexFromCache batchSize fs index).
Proof.
  intros Hr. unfold buildWithin, buildIndexFromCache.
  destruct (state index); try reflexivity;
    (destruct (fst (Fs.access fs)); [| reflexivity];
     destruct (fst (Fs.readdir fs)) as [allFiles | error]; [| reflexivity];
     rewrite <- (positive_nat_Z batchSize);
     rewrite (batchLoop_ends (Pos.to_nat batchSize) fs _ rounds
                (Pos2Nat.is_pos batchSize) 0%nat);
     [rewrite processAllBatches_flat;
      destruct (processBatch fs _ _) as [index' counts]; reflexivity
     | specialize (Hr allFiles eq_refl);
       pose proof (length_filter (fun file => Js.endsWith file ".json" = true) allFiles);
       lia]).
Qed.



End BuildFacts.

(** ** Choosing a technology: resolution *)

Module SelectionFacts.

Import State ChooseTechnology SelectionSpec.

Lemma find_In {A} (f : A -> bool) (l : list A) (x : A) :
  List.find f l = Some x -> In x l /\ f x = true.
Proof. apply List.find_some. Qed.

Lemma scoreLe_trans (a b c : option nat) : scoreLe a b -> scoreLe b c -> scoreLe a c.
Proof.
  unfold scoreLe, scoreGt. destruct a, b, c; try discriminate; try reflexivity.
  rewrite !Nat.ltb_ge. lia.
Qed.

Lemma scoreGt_le (a b : option nat) : scoreGt a b = true -> scoreLe b a.
Proof.
  unfold scoreLe, scoreGt. destruct a, b; try discriminate; try reflexivity.
  rewrite Nat.ltb_lt, Nat.ltb_ge. lia.
Qed.

Lemma scoreLe_refl (a : option nat) : scoreLe a a.
Proof. unfold scoreLe, scoreGt. destruct a; [apply Nat.ltb_irrefl | reflexivity]. Qed.

(** The first element of the sorted list is one of the least. *)
Lemma sortScored_head (l : list (Technology * option nat)) :
  match sortScored l with
  | [] => l = []
  | x :: _ => In x l /\ forall y, In y l -> scoreLe (snd x) (snd y)
  end.
Proof.
  induction l as [| x l IH]; [reflexivity |]. simpl.
  destruct (sortScored l) as [| h sorted].
  - subst l. simpl. split; [left; reflexivity |].
    intros y [<- | []]. apply scoreLe_refl.
  - destruct IH as [Hin Hle]. simpl.
    destruct (scoreGt (snd x) (snd h)) eqn:E.
    + split; [right; exact Hin |].
      intros y [<- | Hy]; [apply scoreGt_le, E | apply Hle, Hy].
    + split; [left; reflexivity |].
      intros y [<- | Hy]; [apply scoreLe_refl |].
      apply (scoreLe_trans _ (snd h)); [exact E | apply Hle, Hy].
Qed.

Lemma resolve_Some (candidates : list Technology) (name identifier_ : option string)
    (chosen : Technology) :
  resolve candidates name identifier_ = Some chosen ->
  In chosen candidates /\ Justified candidates name identifier_ chosen.
Proof.
  unfold resolve, Justified, normalized.
  set (wantedId := truthyString (option_map _ identifier_)).
  set (wantedName := truthyString (option_map _ name)).
  revert chosen. intros chosen.
    destruct wantedId as [wid |] eqn:Hid.
    + destruct (List.find _ candidates) as [found |] eqn:Hf.
      * assert (Hfound : In found candidates
                         /\ option_map Js.toLowerCase (identifier found) = Some wid).
        { apply find_In in Hf as [Hin Hb]. apply bool_decide_eq_true in Hb. auto. }
        destruct wantedName; simpl; intros Heq; injection Heq as Heq; subst chosen;
          (split; [tauto | left; exists wid; split; [reflexivity | tauto]]).
      * clear Hf. destruct wantedName as [wname |] eqn:Hn; [| discriminate].
        destruct (List.find _ candidates) as [found |] eqn:Hf2.
        -- simpl. intros Heq; injection Heq as Heq; subst chosen. apply find_In in Hf2 as [Hin Hb].
           apply bool_decide_eq_true in Hb.
           split; [exact Hin |]. right. left. exists wname. auto.
        -- pose proof (sortScored_head
                         (map (fun tech => (tech, fuzzyScore (title tech) name)) candidates))
             as Hhead.
           destruct (sortScored _) as [| [tech [score |]] rest]; try discriminate.
           destruct (score <? 3)%nat eqn:Hs; [| discriminate].
           intros Heq; injection Heq as Heq; subst chosen. destruct Hhead as [Hin Hle].
           apply in_map_iff in Hin as (t & [= <- Hscore] & Hin).
           split; [exact Hin |]. right. right. exists score.
           split; [exact Hscore |]. split; [apply Nat.ltb_lt, Hs |].
           intros other Ho.
           exact (Hle (other, fuzzyScore (title other) name)
                      (in_map (fun tech => (tech, fuzzyScore (title tech) name)) _ _ Ho)).
    + destruct wantedName as [wname |] eqn:Hn; [| discriminate].
      destruct (List.find _ candidates) as [found |] eqn:Hf2.
      * simpl. intros Heq; injection Heq as Heq; subst chosen. apply find_In in Hf2 as [Hin Hb].
        apply bool_decide_eq_true in Hb.
        split; [exact Hin |]. right. left. exists wname. auto.
      * pose proof (sortScored_head
                      (map (fun tech => (tech, fuzzyScore (title tech) name)) candidates))
          as Hhead.
        destruct (sortScored _) as [| [tech [score |]] rest]; try discriminate.
        destruct (score <? 3)%nat eqn:Hs; [| discriminate].
        intros Heq; injection Heq as Heq; subst chosen. destruct Hhead as [Hin Hle].
        apply in_map_iff in Hin as (t & [= <- Hscore] & Hin).
        split; [exact Hin |]. right. right. exists score.
        split; [exact Hscore |]. split; [apply Nat.ltb_lt, Hs |].
        intros other Ho.
        exact (Hle (other, fuzzyScore (title other) name)
                   (in_map (fun tech => (tech, fuzzyScore (title tech) name)) _ _ Ho)).
Qed.

(** X20.  [resolve] never returns a technology out of thin air: what it
    returns is one of the candidates, and either its lower-cased
    identifier is the trimmed lower-cased identifier asked for, or its
    lower-cased title is the trimmed lower-cased name, or its title has a
    fuzzy score below 3 against the name that no candidate beats.  With
    neither a name nor an identifier, or blank ones, it returns nothing. *)
Theorem resolve_is_justified
    (candidates : list Technology) (name identifier_ : option string) :
  (forall chosen,
     resolve candidates name identifier_ = Some chosen ->
     In chosen candidates /\ Justified candidates name identifier_ chosen)
  /\ (normalized name = None -> normalized identifier_ = None ->
      resolve candidates name identifier_ = None).
Proof.
  split; [intros chosen; apply resolve_Some |].
  unfold resolve, normalized. intros -> ->. reflexivity.
Qed.

Lemma resolve_is_justified_witness :
  In swiftUICollection [swiftArticle; swiftUICollection]
  /\ Justified [swiftArticle; swiftUICollection] (Some "swiftui ") None swiftUICollection.
Proof.
  apply (proj1 (resolve_is_justified [swiftArticle; swiftUICollection] (Some "swiftui ") None)).
  reflexivity.
Defined.

(** X21.  The handler changes the session only by selecting: whenever it
    does not answer with a selection, the session is as it was.  What it
    selects is one of the technologies listed, has a title and an
    identifier, and is a framework collection (kind [symbol], role
    [collection]); it is then the active technology, and the last
    discovery is kept. *)
Theorem handler_selects_frameworks_only
    (technologies : Result (list Technology)) (name identifier_ : option string)
    (st : ServerState) :
  match handler technologies name identifier_ st with
  | (Ok (TechnologySelected chosen), st') =>
      (exists values, technologies = Ok values /\ In chosen values)
      /\ is_Some (title chosen) /\ is_Some (identifier chosen)
      /\ kind chosen = Some "symbol" /\ role chosen = Some "collection"
      /\ getActiveTechnology st' = Some chosen
      /\ getLastDiscovery st' = getLastDiscovery st
  | (_, st') => st' = st
  end.
Proof.
  unfold handler. destruct technologies as [values | e]; [| reflexivity].
  set (candidates := filter _ values).
  destruct (resolve candidates name identifier_) as [chosen |] eqn:Hr; [| reflexivity].
  unfold ensureFramework.
  destruct (bool_decide (kind chosen = Some "symbol")
            && bool_decide (role chosen = Some "collection")) eqn:Hk; [| reflexivity].
  apply andb_prop in Hk as [Hkind Hrole].
  apply bool_decide_eq_true in Hkind, Hrole.
  apply resolve_Some in Hr as [Hin _].
  apply list_elem_of_In, list_elem_of_filter in Hin as [[Ht Hi] Hin].
  apply list_elem_of_In in Hin.
  split; [exists values; auto |]. split; [exact Ht |]. split; [exact Hi |].
  split; [exact Hkind |]. split; [exact Hrole |].
  unfold setActiveTechnology.
  destruct (TechnologyState_hasChanged _ _); split; reflexivity.
Qed.

End SelectionFacts.

(** ** The documentation client: fetching once *)

Module ReadThroughFacts.

Import JsonText Schema FileCache AppleDevDocsClient FileCacheSpec FileCacheFacts
  ClientSpec ClientFacts.

(** The [try]/[catch] of a load leaves the directory as it is. *)
Lemma load_body_world (schema : Schema.Schema) (name : string) (fs : FileSystem) :
  snd (Eff.tryCatch
         (raw <~ Fs.readFile name ;;
          parsed <~ parseJson raw ;;
          match safeParse schema parsed with
          | None => Eff.ret None
          | Some data => Eff.ret (Some data)
          end)
         onLoadError fs) = fs.
Proof.
  unfold Eff.tryCatch, Eff.bind.
  pose proof (readFile_world name fs) as Hw.
  destruct (Fs.readFile name fs) as [[raw | e] w]; simpl in Hw; subst w.
  - unfold parseJson. destruct (JSON_parse raw) as [parsed |]; simpl.
    + destruct (safeParse schema parsed); reflexivity.
    + reflexivity.
  - unfold onLoadError. destruct e; try reflexivity.
    destruct (String.eqb code "ENOENT"); reflexivity.
Qed.

Lemma mkdir_present (fs fs0 : FileSystem) :
  Fs.mkdir fs = (Ok tt, fs0) -> Fs.mkdir fs0 = (Ok tt, fs0).
Proof.
  unfold Fs.mkdir. destruct (dirStatus fs) as [| [code |]] eqn:Hd; try discriminate.
  - intros [= <-]. rewrite Hd. reflexivity.
  - intros [= <-]. reflexivity.
Qed.

(** A load that returned a document returns it again. *)
Lemma loadFramework_again (name : string) (fs fs1 : FileSystem) (r : Result (option json)) :
  loadFramework name fs = (r, fs1) ->
  (exists found, r = Ok found) ->
  loadFramework name fs1 = (r, fs1).
Proof.
  unfold loadFramework, ensureCacheDir. unfold Eff.bind at 1.
  destruct (Fs.mkdir fs) as [[[] | e] fs0] eqn:Hm.
  - intros Hbody _. pose proof (load_body_world FrameworkDataSchema (getCachePath name) fs0) as Hw.
    rewrite Hbody in Hw. simpl in Hw. subst fs1.
    unfold Eff.bind at 1. rewrite (mkdir_present _ _ Hm). exact Hbody.
  - intros [= <- <-] (found & Hf). discriminate Hf.
Qed.

Lemma loadSymbol_again (sha256hex : string -> string) (path : string)
    (fs fs1 : FileSystem) (r : Result (option json)) :
  loadSymbol sha256hex path fs = (r, fs1) -> loadSymbol sha256hex path fs1 = (r, fs1).
Proof.
  unfold loadSymbol. intros H.
  pose proof (load_body_world SymbolDataSchema (symbolFile sha256hex path) fs) as Hw.
  rewrite H in Hw. simpl in Hw. subst fs1. exact H.
Qed.



End ReadThroughFacts.

(** ** The documentation client: refreshing *)

Module RefreshFacts.

Import JsonText Schema FileCache AppleDevDocsClient HttpClient HttpSpec HttpFacts
  FileCacheSpec ClientSpec ClientFacts RequestSpec RequestFacts.

Lemma getDocumentation_replay (config : HttpConfig) (path : string) (net : Net)
    (value : json) (net1 : Net) :
  0 < MemoryCache.cacheTimeout (memory net) ->
  getDocumentation config path net = (Ok value, net1) ->
  exists net2,
    getDocumentation config path net1 = (Ok value, net2)
    /\ calls net2 = calls net1 /\ delays net2 = delays net1 /\ clock net2 = clock net1.
Proof.
  unfold getDocumentation. intros Hpos Hok.
  destruct (makeRequest_Ok _ _ _ _ _ _ Hok) as (w0 & H0 & Ht0).
  rewrite <- Ht0 in Hpos.
  destruct (attemptRequest_caches _ _ _ _ Hpos H0) as [Hc Htr].
  destruct (attemptRequest_hit _ _ _ Hc Htr) as (net2 & Hhit & H1 & H2 & H3 & _).
  exists net2. rewrite makeRequest_unfold, Hhit. repeat split; assumption.
Qed.

(** X27.  A refresh does not reach the network while the response cache
    is fresh: right after a framework was fetched, [refreshFramework]
    writes and returns the cached response and makes no call. *)
Theorem refresh_is_served_from_the_response_cache
    (config : HttpConfig) (name : string) (fs : FileSystem) (net : Net)
    (value : json) (net1 : Net) :
  0 < MemoryCache.cacheTimeout (memory net) ->
  getDocumentation config ("documentation/" +:+ name) net = (Ok value, net1) ->
  exists net2,
    refreshFramework config name (fs, net1)
    = afterSave value (saveFramework name value fs) net2
    /\ calls net2 = calls net1 /\ delays net2 = delays net1.
Proof.
  intros Hpos Hok.
  destruct (getDocumentation_replay _ _ _ _ _ Hpos Hok) as (net2 & Hget & Hc & Hd & _).
  exists net2. split; [| split; assumption].
  unfold refreshFramework. unfold Eff.bind at 1. rewrite onSnd_run, Hget. simpl.
  unfold Eff.bind. rewrite onFst_run. unfold afterSave.
  destruct (saveFramework name value fs) as [[u | e] fs2]; reflexivity.
Qed.

Lemma refresh_is_served_from_the_response_cache_witness :
  exists net2,
    refreshFramework defaultHttpConfig "SwiftUI"
      (emptyCache, snd (getDocumentation defaultHttpConfig "documentation/SwiftUI" steadyNet))
    = afterSave (JObj [("metadata", JObj [("title", JStr "SwiftUI")])])
        (saveFramework "SwiftUI" (JObj [("metadata", JObj [("title", JStr "SwiftUI")])])
           emptyCache)
        net2
    /\ calls net2
       = calls (snd (getDocumentation defaultHttpConfig "documentation/SwiftUI" steadyNet))
    /\ delays net2
       = delays (snd (getDocumentation defaultHttpConfig "documentation/SwiftUI" steadyNet)).
Proof.
  apply (refresh_is_served_from_the_response_cache defaultHttpConfig "SwiftUI" emptyCache
           steadyNet).
  - reflexivity.
  - unfold getDocumentation. rewrite makeRequest_unfold. reflexivity.
Defined.

End RefreshFacts.

(** ** Session state: what the operations leave alone *)

Module SessionFacts.

Import State.

(** X23.  The last discovery outlives every change of technology, and the
    technology set is the active one afterwards.  An identifier counts as
    expanded from the moment it is marked; clearing the framework index
    forgets every expanded identifier and keeps the framework data, while
    clearing the framework data keeps the index and the expanded
    identifiers. *)
Theorem session_frames (st : ServerState) :
  (forall technology,
     getActiveTechnology (setActiveTechnology st technology) = technology
     /\ getLastDiscovery (setActiveTechnology st technology) = getLastDiscovery st)
  /\ (forall marked asked,
        hasExpandedIdentifier (markIdentifierExpanded st marked) asked
        = String.eqb asked marked || hasExpandedIdentifier st asked)
  /\ (forall asked, hasExpandedIdentifier (clearFrameworkIndex st) asked = false)
  /\ getActiveFrameworkData (clearFrameworkIndex st) = getActiveFrameworkData st
  /\ getFrameworkIndex (clearFrameworkIndex st) = None
  /\ (forall asked,
        hasExpandedIdentifier (clearActiveFrameworkData st) asked
        = hasExpandedIdentifier st asked)
  /\ getFrameworkIndex (clearActiveFrameworkData st) = getFrameworkIndex st.
Proof.
  split.
  { intros technology. unfold setActiveTechnology.
    destruct (TechnologyState_hasChanged _ _); split; reflexivity. }
  split.
  { intros marked asked. unfold hasExpandedIdentifier, markIdentifierExpanded. simpl.
    destruct (String.eqb asked marked) eqn:E; simpl.
    - apply String.eqb_eq in E. subst. apply bool_decide_eq_true.
      apply elem_of_union_l, elem_of_singleton. reflexivity.
    - apply String.eqb_neq in E. apply bool_decide_ext.
      rewrite elem_of_union, elem_of_singleton. tauto. }
  split.
  { intros asked. unfold hasExpandedIdentifier, clearFrameworkIndex. simpl.
    apply bool_decide_eq_false. apply not_elem_of_empty. }
  repeat split.
Qed.

End SessionFacts.

(** ** Clearing the response cache and the index *)

Module ClearFacts.

Import Index HttpClient HttpSpec HttpFacts RequestSpec RequestFacts BuildSpec BuildFacts.

(** X24.  Clearing the response cache forgets every response: the next
    request for a URL, whatever was cached for it, calls the transport and
    returns what the transport delivers now. *)
Theorem clearCache_forgets_responses
    (config : HttpConfig) (path : string) (attempt : Z) (w : Net) (value : json) :
  let url := baseUrl config +:+ "/" +:+ path in
  transport w url (calls w) = Ok value ->
  Acceptable value ->
  exists w',
    makeRequest config path attempt (snd (clearCache w)) = (Ok value, w')
    /\ calls w' = S (calls w) /\ delays w' = delays w.
Proof.
  intros url Hcall Hok.
  apply (validateResponse_Ok value url) in Hok.
  destruct (attemptRequest_success url (snd (clearCache w)) value eq_refl Hcall Hok)
    as (w' & Ha & Hc & Hd).
  exists w'. rewrite makeRequest_unfold. fold url. rewrite Ha.
  split; [reflexivity |]. split; [exact Hc | exact Hd].
Qed.

Lemma clearCache_forgets_responses_witness :
  exists w',
    makeRequest defaultHttpConfig "documentation/swiftui.json" 1
      (snd (clearCache (snd (makeRequest defaultHttpConfig "documentation/swiftui.json" 1
                               steadyNet))))
    = (Ok (JObj [("metadata", JObj [("title", JStr "SwiftUI")])]), w')
    /\ calls w' = 2%nat /\ delays w' = [].
Proof.
  apply (clearCache_forgets_responses defaultHttpConfig "documentation/swiftui.json" 1
           (snd (makeRequest defaultHttpConfig "documentation/swiftui.json" 1 steadyNet))
           (JObj [("metadata", JObj [("title", JStr "SwiftUI")])])).
  - reflexivity.
  - exists [("metadata", JObj [("title", JStr "SwiftUI")])].
    split; [reflexivity |]. split; [discriminate |]. split; discriminate.
Defined.

(** The directory and the technology filter of an index never change. *)
Lemma processReferences_setup (index : LocalSymbolIndex) (references : option json)
    (file : string) :
  cacheDir (processReferences index references file) = cacheDir index
  /\ technologyIdentifier (processReferences index references file)
     = technologyIdentifier index.
Proof.
  unfold processReferences.
  destruct references as [[| | | | | entries] |]; try (split; reflexivity).
  revert index. induction entries as [| [refId ref] entries IH]; intros index;
    cbn [fold_left].
  - split; reflexivity.
  - destruct (IH (processReference index file (refId, ref))) as [H1 H2].
    rewrite H1, H2. unfold processReference.
    destruct (isSymbolReference ref); [| split; reflexivity].
    destruct (filteredOut _ _); split; reflexivity.
Qed.

Lemma processFile_setup (index : LocalSymbolIndex) (file : string) (read : Result string) :
  cacheDir (fst (processFile index file read)) = cacheDir index
  /\ technologyIdentifier (fst (processFile index file read)) = technologyIdentifier index.
Proof.
  assert (Hdata : forall data path,
            cacheDir (processSymbolData index data path) = cacheDir index
            /\ technologyIdentifier (processSymbolData index data path)
               = technologyIdentifier index).
  { intros data path. unfold processSymbolData.
    destruct (filteredOut _ _); [split; reflexivity |].
    destruct (processReferences_setup
                (setSymbol index (Js.orElse (documentPath data) (documentTitle data))
                           (documentEntry data path))
                (Json.get "references" data) path) as [H1 H2].
    rewrite H1, H2. split; reflexivity. }
  unfold processFile. destruct read as [raw | e]; [| split; reflexivity].
  destruct (JsonText.JSON_parse raw) as [parsed |]; [| split; reflexivity].
  destruct (Schema.safeParse Schema.SymbolDataSchema parsed); [apply Hdata |].
  destruct (Schema.safeParse Schema.FrameworkDataSchema parsed);
    [apply Hdata | split; reflexivity].
Qed.

Lemma processBatch_setup (fs : FileSystem) (files : list string)
    (acc : LocalSymbolIndex * BuildCounts) :
  cacheDir (fst (processBatch fs acc files)) = cacheDir (fst acc)
  /\ technologyIdentifier (fst (processBatch fs acc files)) = technologyIdentifier (fst acc).
Proof.
  unfold processBatch. revert acc.
  induction files as [| file files IH]; intros [index counts]; simpl.
  - split; reflexivity.
  - pose proof (processFile_setup index file (fst (Fs.readFile file fs))) as [H1 H2].
    destruct (processFile index file _) as [index' success]. simpl in H1, H2.
    destruct (IH (index', if success
                          then mkCounts (S (processedCount counts)) (errorCount counts)
                          else mkCounts (processedCount counts) (S (errorCount counts))))
      as [H3 H4].
    simpl in H3, H4. rewrite H3, H4. split; assumption.
Qed.

Lemma buildIndexFromCache_setup (batchSize : positive) (fs : FileSystem)
    (index : LocalSymbolIndex) :
  cacheDir (snd (buildIndexFromCache batchSize fs index)) = cacheDir index
  /\ technologyIdentifier (snd (buildIndexFromCache batchSize fs index))
     = technologyIdentifier index.
Proof.
  unfold buildIndexFromCache.
  destruct (state index); try (split; reflexivity);
    (destruct (fst (Fs.access fs)); [| split; reflexivity];
     destruct (fst (Fs.readdir fs)) as [allFiles | error]; [| split; reflexivity];
     rewrite processAllBatches_flat;
     pose proof (processBatch_setup fs
                   (filter (fun file => Js.endsWith file ".json" = true) allFiles)
                   (setState index Building, mkCounts 0 0)) as Hs;
     destruct (processBatch fs _ _) as [index' counts]; exact Hs).
Qed.


(** X25.  [clear] forgets what a build did: the index is empty and
    uninitialized again, a search finds nothing, and the next build reads
    the directory as for a new index with the same cache directory and
    technology filter. *)
Theorem clear_forgets_the_build
    (batchSize : positive) (fs : FileSystem) (index : LocalSymbolIndex) :
  let built := snd (buildIndexFromCache batchSize fs index) in
  getSymbolCount (clear built) = 0%nat
  /\ state (clear built) = Uninitialized
  /\ (forall query maxResults, search (clear built) query maxResults = [])
  /\ (forall batchSize' fs',
        buildIndexFromCache batchSize' fs' (clear built)
        = buildIndexFromCache batchSize' fs'
            (create (cacheDir index) (technologyIdentifier index))).
Proof.
  intros built.
  destruct (buildIndexFromCache_setup batchSize fs index) as [Hd Ht]. fold built in Hd, Ht.
  split; [reflexivity |]. split; [reflexivity |]. split.
  - intros query maxResults. unfold search, searchWith. simpl.
    destruct maxResults; reflexivity.
  - intros batchSize' fs'. unfold clear, create. rewrite Hd, Ht. reflexivity.
Qed.

End ClearFacts.

(** ** The fuzzy score *)

Module FuzzyFacts.

Import ChooseTechnology.

(** X26.  The fuzzy score of two texts does not depend on their order.  It
    is infinite exactly when one of them is missing or empty, and 0
    exactly when both are present, not empty and equal up to case. *)
Theorem fuzzyScore_symmetric (a b : option string) :
  fuzzyScore a b = fuzzyScore b a
  /\ (fuzzyScore a b = None <->
      default EmptyString a = EmptyString \/ default EmptyString b = EmptyString)
  /\ (fuzzyScore a b = Some 0%nat <->
      exists x y, a = Some x /\ b = Some y /\ x <> EmptyString /\ y <> EmptyString
                  /\ Js.toLowerCase x = Js.toLowerCase y).
Proof.
  unfold fuzzyScore.
  destruct a as [x |], b as [y |]; cbn [default];
    try (split; [reflexivity |]; split; [tauto |]; split; [discriminate |];
         intros (x' & y' & Ha & Hb & _); discriminate).
  destruct x as [| c x], y as [| d y]; cbn [Js.nonEmpty negb orb];
    try (split; [reflexivity |]; split; [tauto |]; split; [discriminate |];
         intros (x' & y' & [= <-] & [= <-] & Hx & Hy & _); contradiction).
  set (la := Js.toLowerCase (String c x)). set (lb := Js.toLowerCase (String d y)).
  rewrite (String.eqb_sym lb la), (orb_comm (Js.startsWith lb la)),
    (orb_comm (Js.includes lb la)).
  split; [reflexivity |]. split.
  - split; [| intros [H | H]; discriminate].
    destruct (String.eqb la lb); [discriminate |].
    destruct (_ || _); [discriminate |]. destruct (_ || _); discriminate.
  - split.
    + destruct (String.eqb la lb) eqn:E.
      * intros _. apply String.eqb_eq in E.
        exists (String c x), (String d y). repeat split; try discriminate. exact E.
      * destruct (_ || _); [discriminate |]. destruct (_ || _); discriminate.
    + intros (x' & y' & [= <-] & [= <-] & _ & _ & H).
      fold la lb in H. rewrite H, String.eqb_refl. reflexivity.
Qed.

Lemma fuzzyScore_symmetric_witness :
  fuzzyScore (Some "SwiftUI") (Some "swiftui") = Some 0%nat.
Proof.
  apply (proj2 (proj2 (proj2 (fuzzyScore_symmetric (Some "SwiftUI") (Some "swiftui"))))).
  exists "SwiftUI", "swiftui". repeat split; discriminate.
Defined.

End FuzzyFacts.

(** ** What writing to a cache leaves alone *)

Module FrameFacts.

Import JsonText Schema FileCache MemoryCache MemoryCacheSpec MemoryCacheFacts StringSpec
  StringFacts FileCacheFacts FileNameSpec.

(** X28.  The response cache loses an entry only by expiry or eviction:
    [set] leaves every other key as it was when the key written is already
    there or the cache is not full, and [get] never changes what is stored
    under another key. *)
Theorem cache_keeps_other_entries
    (c : MemoryCache) (key other : string) (now : Z) :
  other <> key ->
  (forall value,
     is_Some (lookup key (cache c)) \/ (length (cache c) < maxSize c)%nat ->
     lookup other (cache (set key value now c)) = lookup other (cache c))
  /\ lookup other (cache (snd (get key now c))) = lookup other (cache c).
Proof.
  intros Hne. split.
  - intros value H. unfold set.
    destruct (lookup key (cache c)) as [e |] eqn:Hl; simpl.
    + rewrite lookup_app_other, lookup_delete_other by exact Hne. reflexivity.
    + destruct H as [[e He] | Hlt]; [discriminate |].
      apply Nat.leb_gt in Hlt. rewrite Hlt.
      rewrite lookup_app_other by exact Hne. reflexivity.
  - unfold get. destruct (lookup key (cache c)) as [e |]; [| reflexivity].
    destruct (_ <? _); simpl.
    + rewrite lookup_app_other, lookup_delete_other by exact Hne. reflexivity.
    + rewrite lookup_delete_other by exact Hne. reflexivity.
Qed.

Lemma cache_keeps_other_entries_witness :
  lookup "b" (cache (set "a" (JNum 9) 10 fullCache)) = lookup "b" (cache fullCache)
  /\ lookup "b" (cache (snd (get "a" 10 fullCache))) = lookup "b" (cache fullCache).
Proof.
  destruct (cache_keeps_other_entries fullCache "a" "b" 10) as [H1 H2]; [discriminate |].
  split; [| exact H2]. apply H1. left. eexists. reflexivity.
Defined.

Lemma append_cancel_r (a b t : string) : a +:+ t = b +:+ t -> a = b.
Proof.
  revert b. induction a as [| c a IH]; intros b H.
  - destruct b as [| d b]; [reflexivity |].
    apply (f_equal String.length) in H. rewrite append_nil_l, length_append in H.
    simpl in H. lia.
  - destruct b as [| d b].
    + apply (f_equal String.length) in H. rewrite append_nil_l, length_append in H.
      simpl in H. lia.
    + rewrite !append_cons in H. injection H as -> H. f_equal. apply IH, H.
Qed.

(** The outcome of a framework load is a matter of the file of that name
    alone. *)
Lemma loadFramework_result (name : string) (fs : FileSystem) :
  fst (Fs.mkdir fs) = Ok tt ->
  fst (loadFramework name fs)
  = match dirStatus fs with
    | DirPresent =>
        match files fs !! getCachePath name with
        | Some (FileText raw) =>
            match JSON_parse raw with
            | Some parsed => Ok (safeParse FrameworkDataSchema parsed)
            | None => Ok None
            end
        | Some (FileFault code) =>
            if String.eqb code "ENOENT" then Ok None else Throw (ErrnoException code)
        | None => Ok None
        end
    | DirMissing _ => Ok None
    end.
Proof.
  unfold loadFramework, ensureCacheDir. unfold Eff.bind at 1. unfold Fs.mkdir.
  destruct (dirStatus fs) as [| [code |]] eqn:Hd; simpl; try discriminate; intros _.
  - unfold Eff.tryCatch, Eff.bind, Fs.readFile. rewrite Hd.
    destruct (files fs !! getCachePath name) as [[raw | code] |]; simpl.
    + unfold parseJson. destruct (JSON_parse raw) as [parsed |]; simpl; [| reflexivity].
      destruct (safeParse FrameworkDataSchema parsed); reflexivity.
    + destruct (String.eqb code "ENOENT"); reflexivity.
    + reflexivity.
  - reflexivity.
Qed.

(** X29.  Saving a framework document never changes what another
    framework loads: for names with different sanitized forms, a load
    under the one gives after a successful save under the other what it
    gave before. *)
Theorem save_leaves_other_frameworks
    (saved other : string) (data : json) (fs fs' : FileSystem) :
  sanitizeFrameworkName saved <> sanitizeFrameworkName other ->
  saveFramework saved data fs = (Ok tt, fs') ->
  fst (loadFramework other fs') = fst (loadFramework other fs).
Proof.
  intros Hne Hsave.
  assert (Hpath : getCachePath saved <> getCachePath other).
  { unfold getCachePath. intros H. apply Hne. exact (append_cancel_r _ _ _ H). }
  unfold saveFramework, ensureCacheDir in Hsave. unfold Eff.bind in Hsave.
  destruct (Fs.mkdir fs) as [[[] | e] fs0] eqn:Hm; [| discriminate].
  assert (Hmk : fst (Fs.mkdir fs) = Ok tt) by (rewrite Hm; reflexivity).
  unfold Fs.writeFile in Hsave.
  destruct (dirStatus fs0) eqn:Hd0; [| discriminate].
  destruct (writeFault fs0); [discriminate |].
  injection Hsave as <-.
  rewrite (loadFramework_result other fs Hmk).
  rewrite loadFramework_result by reflexivity. simpl.
  rewrite lookup_insert_ne by exact Hpath.
  unfold Fs.mkdir in Hm. destruct (dirStatus fs) as [| [code |]] eqn:Hd; try discriminate.
  - injection Hm as <-. reflexivity.
  - injection Hm as <-. simpl. rewrite lookup_empty. reflexivity.
Qed.

Lemma save_leaves_other_frameworks_witness :
  fst (loadFramework "UIKit"
         (snd (saveFramework "SwiftUI" (JObj [("metadata", JObj [("title", JStr "SwiftUI")])])
                 FileCacheSpec.brokenCache)))
  = fst (loadFramework "UIKit" FileCacheSpec.brokenCache).
Proof.
  apply (save_leaves_other_frameworks "SwiftUI" "UIKit"
           (JObj [("metadata", JObj [("title", JStr "SwiftUI")])]) FileCacheSpec.brokenCache).
  - discriminate.
  - vm_compute. reflexivity.
Defined.

End FrameFacts.
